(** * Text-processing pipeline of [main.py] (class [AudioProcessor])

    A shallow embedding of the sentence segmenter, the key-phrase extractor,
    the chunker, the Urdu normaliser, the summarisation adapter and the
    pipeline orchestrator, together with the properties they satisfy.

    Python values are modelled as follows:
    - [str] is a sequence of Unicode code points, [list N];
    - [int] is [Z];
    - a raised exception is the [Raise] case of [result];
    - the [AudioProcessor] instance is the record [processor], threaded
      through every method that reads or writes [self];
    - the models (Whisper, the summarisation pipelines), the file system
      and the Unicode tables behind [unicodedata] and [re] are fields of
      the records [unicode] and [world]. *)

From Stdlib Require Import ZArith NArith List String Ascii Lia.
From stdpp Require Import base option list gmap strings pretty sorting.

Local Open Scope Z_scope.

(* ===================================================================== *)
(** * Python strings *)
(* ===================================================================== *)

Definition pystr := list N.

Module Utf8.

(** The source file is UTF-8; the literals below are written as they
    are in [main.py] and decoded into code points here. *)

Definition bytes_of (s : string) : list N :=
  N_of_ascii <$> list_ascii_of_string s.

Definition cont (b : N) : N := N.land b 0x3F.

Fixpoint decode (bs : list N) : pystr :=
  match bs with
  | [] => []
  | b0 :: r0 =>
    if (b0 <? 0x80)%N then b0 :: decode r0
    else match r0 with
    | [] => []
    | b1 :: r1 =>
      if (b0 <? 0xE0)%N then
        (N.shiftl (N.land b0 0x1F) 6 + cont b1)%N :: decode r1
      else match r1 with
      | [] => []
      | b2 :: r2 =>
        if (b0 <? 0xF0)%N then
          (N.shiftl (N.land b0 0x0F) 12 + N.shiftl (cont b1) 6
           + cont b2)%N :: decode r2
        else match r2 with
        | [] => []
        | b3 :: r3 =>
          (N.shiftl (N.land b0 0x07) 18 + N.shiftl (cont b1) 12
           + N.shiftl (cont b2) 6 + cont b3)%N :: decode r3
        end
      end
    end
  end.

End Utf8.

(** [u "..."] is the Python literal ["..."]. *)
Definition u (s : string) : pystr := Utf8.decode (Utf8.bytes_of s).

(** [len(s)] *)
Definition len {A} (l : list A) : Z := Z.of_nat (length l).

(** [Py_UNICODE_ISSPACE]: the characters [str.strip], [str.split] and the
    regular-expression class [\s] treat as whitespace. *)
Definition isspace (c : N) : bool :=
  ((0x09 <=? c) && (c <=? 0x0D) || (0x1C <=? c) && (c <=? 0x20)
   || (c =? 0x85) || (c =? 0xA0) || (c =? 0x1680)
   || (0x2000 <=? c) && (c <=? 0x200A)
   || (c =? 0x2028) || (c =? 0x2029) || (c =? 0x202F) || (c =? 0x205F)
   || (c =? 0x3000))%N.

Fixpoint lstrip (s : pystr) : pystr :=
  match s with
  | c :: s' => if isspace c then lstrip s' else s
  | [] => []
  end.

Definition rstrip (s : pystr) : pystr := rev (lstrip (rev s)).

(** [s.strip()] *)
Definition strip (s : pystr) : pystr := rstrip (lstrip s).

(** [s.split()]: the maximal runs of non-whitespace characters.  [cur]
    holds the characters of the run being scanned, last one first. *)
Fixpoint split_from (cur : pystr) (s : pystr) : list pystr :=
  match s with
  | [] => match cur with [] => [] | _ => [rev cur] end
  | c :: s' =>
    if isspace c then
      match cur with
      | [] => split_from [] s'
      | _ => rev cur :: split_from [] s'
      end
    else split_from (c :: cur) s'
  end.

Definition split (s : pystr) : list pystr := split_from [] s.

(** [sep.join(parts)] *)
Fixpoint join (sep : pystr) (parts : list pystr) : pystr :=
  match parts with
  | [] => []
  | [p] => p
  | p :: rest => p ++ sep ++ join sep rest
  end.

(** [s.split(sep)] for a one-character separator [sep]. *)
Fixpoint split_on (sep : N) (s : pystr) : list pystr :=
  match s with
  | [] => [[]]
  | c :: s' =>
    if (c =? sep)%N then [] :: split_on sep s'
    else match split_on sep s' with
         | p :: ps => (c :: p) :: ps
         | [] => [[c]]
         end
  end.

(** [re.split('[...]', s)] for a character class, given as the string of
    its members. *)
Fixpoint re_split_class (cls : pystr) (s : pystr) : list pystr :=
  match s with
  | [] => [[]]
  | c :: s' =>
    if bool_decide (c ∈ cls) then [] :: re_split_class cls s'
    else match re_split_class cls s' with
         | p :: ps => (c :: p) :: ps
         | [] => [[c]]
         end
  end.

(** [re.sub(r'\s+', ' ', s)] *)
Fixpoint collapse_ws (s : pystr) : pystr :=
  match s with
  | [] => []
  | c :: s' =>
    if isspace c then
      match s' with
      | c' :: _ => if isspace c' then collapse_ws s' else 0x20%N :: collapse_ws s'
      | [] => [0x20%N]
      end
    else c :: collapse_ws s'
  end.

(** [s.startswith(p)] *)
Fixpoint startswith (s p : pystr) : bool :=
  match p, s with
  | [], _ => true
  | _ :: _, [] => false
  | a :: p', b :: s' => (a =? b)%N && startswith s' p'
  end.

(** [s.replace(old, new)] for a non-empty [old]: the occurrences of [old]
    are replaced from left to right, without overlap.  Every step
    consumes a character, so [len(s) + 1] steps are enough. *)
Fixpoint replace_steps (n : nat) (old new s : pystr) : pystr :=
  match n with
  | O => s
  | S n' =>
    if startswith s old then new ++ replace_steps n' old new (drop (length old) s)
    else match s with
         | [] => []
         | c :: s' => c :: replace_steps n' old new s'
         end
  end.

Definition replace (old new s : pystr) : pystr :=
  replace_steps (S (length s)) old new s.

(** [s.find(sub)]: the least index at which [sub] occurs, [-1] if none. *)
Fixpoint find_from (i : Z) (s sub : pystr) : Z :=
  if startswith s sub then i
  else match s with
       | [] => -1
       | _ :: s' => find_from (i + 1) s' sub
       end.

Definition find (s sub : pystr) : Z := find_from 0 s sub.

(** [s[i]] for [0 <= i < len(s)]. *)
Definition char_at (s : pystr) (i : Z) : option N :=
  if (0 <=? i) then s !! Z.to_nat i else None.

(** [l[lo:hi]]: a negative bound counts from the end, and both bounds
    are clamped to [0 .. len(l)]. *)
Definition slice_bound (n i : Z) : Z :=
  if i <? 0 then Z.max 0 (n + i) else Z.min i n.

Definition slice {A} (l : list A) (lo hi : Z) : list A :=
  let lo' := slice_bound (len l) lo in
  let hi' := slice_bound (len l) hi in
  take (Z.to_nat (hi' - lo')) (drop (Z.to_nat lo') l).

(** [l[:-1]] *)
Definition but_last {A} (l : list A) : list A := slice l 0 (-1).

(** [range(start, stop, step)]; a zero step raises [ValueError]. *)
Definition range_len (start stop step : Z) : nat :=
  if 0 <? step then Z.to_nat ((stop - start + step - 1) / step)
  else Z.to_nat ((start - stop - step - 1) / (- step)).

Definition range (start stop step : Z) : list Z :=
  (fun k => start + Z.of_nat k * step) <$> seq 0 (range_len start stop step).

(** [sub in s] *)
Definition contains (s sub : pystr) : bool := 0 <=? find s sub.

(* ===================================================================== *)
(** * Exceptions *)
(* ===================================================================== *)

Inductive exn_kind :=
  | FileNotFoundError | TypeError | ValueError | OSError | RuntimeError.

(** An exception object; [exn_str] is what [str(e)] returns. *)
Record exn := Exn { exn_class : exn_kind; exn_str : pystr }.

Inductive result (A : Type) :=
  | Ok (a : A)
  | Raise (e : exn).
Arguments Ok {A} a.
Arguments Raise {A} e.

(* ===================================================================== *)
(** * The sentence segmenter *)
(* ===================================================================== *)

(** [self.sentence_patterns]: each pattern is a character class. *)
Definition sentence_patterns (language : pystr) : option pystr :=
  if decide (language = u "ur") then Some (u "۔؟!")
  else if decide (language = u "en") then Some (u ".!?")
  else None.

(** [dict.get(key, default)] *)
Definition dict_get {A} (d : pystr -> option A) (k : pystr) (dflt : A) : A :=
  match d k with Some v => v | None => dflt end.

Definition en_pattern : pystr := u ".!?".

Definition min3 (sentence : pystr) : bool :=
  negb (bool_decide (sentence = [])) && (3 <=? len (split sentence)).

(** The first loop of [_regex_sentence_split]. *)
Definition clean_and_filter (sentences : list pystr) : list pystr :=
  List.filter min3 (strip <$> sentences).

(** The body of the second loop, for one retained sentence. *)
Definition add_ending (text language sentence : pystr) : pystr :=
  let ending_char := if decide (language = u "ur") then u "۔" else u "." in
  let next_pos := find text sentence + len sentence in
  let enders := if decide (language = u "ur") then u "۔؟!" else u ".!?" in
  match (if next_pos <? len text then char_at text next_pos else None) with
  | Some c => if bool_decide (c ∈ enders) then sentence ++ [c]
              else sentence ++ ending_char
  | None => sentence ++ ending_char
  end.

Definition _regex_sentence_split (text language : pystr) : list pystr :=
  let pattern := dict_get sentence_patterns language en_pattern in
  let sentences := re_split_class pattern text in
  let processed_sentences := clean_and_filter sentences in
  let final_sentences :=
    add_ending text language <$> but_last processed_sentences in
  match last processed_sentences with
  | Some s => final_sentences ++ [s]
  | None => final_sentences
  end.


(* ===================================================================== *)
(** * Unicode tables *)
(* ===================================================================== *)

(** What [unicodedata], [str.lower] and the class [\w] of [re] compute
    from the Unicode character database. *)
Record unicode := Unicode {
  (** [unicodedata.normalize("NFKC", s)] *)
  nfkc : pystr -> pystr;
  (** [s.lower()] *)
  lower : pystr -> pystr;
  (** membership in [\w] *)
  is_word : N -> bool
}.

(* ===================================================================== *)
(** * The Urdu normaliser *)
(* ===================================================================== *)

Definition fold_variants (text : pystr) : pystr :=
  replace (u "ی") (u "ي") (replace (u "ک") (u "ك") text).

Definition normalize_urdu (U : unicode) (text : pystr) : pystr :=
  let text := nfkc U text in
  let text := fold_variants text in
  collapse_ws (strip text).

(* ===================================================================== *)
(** * Cleaning a transcription *)
(* ===================================================================== *)

(** [re.sub(r'\s+([cls])', r'\1', s)]: a run of whitespace directly in
    front of a member of [cls] is removed. *)
Definition ws_then (cls : pystr) (s : pystr) : bool :=
  match lstrip s with
  | p :: _ => bool_decide (p ∈ cls)
  | [] => false
  end.

Fixpoint drop_ws_before (cls : pystr) (s : pystr) : pystr :=
  match s with
  | [] => []
  | c :: s' =>
    if isspace c && ws_then cls s' then drop_ws_before cls s'
    else c :: drop_ws_before cls s'
  end.

(** [re.sub(r'([cls])\s*', r'\1 ', s)]: each member of [cls], with the
    whitespace that follows it, becomes that member and one space.
    [after] tells that the scan is inside such a match. *)
Fixpoint one_space_after (cls : pystr) (after : bool) (s : pystr) : pystr :=
  match s with
  | [] => []
  | c :: s' =>
    if bool_decide (c ∈ cls) then c :: 0x20%N :: one_space_after cls true s'
    else if after && isspace c then one_space_after cls true s'
    else c :: one_space_after cls false s'
  end.

Definition in_range (lo hi c : N) : bool := ((lo <=? c) && (c <=? hi))%N.

(** The complement of the class removed by the Urdu clean-up. *)
Definition keep_ur (U : unicode) (c : N) : bool :=
  in_range 0x0600 0x06FF c || in_range 0x0750 0x077F c
  || in_range 0x08A0 0x08FF c || in_range 0xFB50 0xFDFF c
  || in_range 0xFE70 0xFEFF c || isspace c
  || bool_decide (c ∈ u "۔؟!،٫٬") || is_word U c.

Definition QUOTATION_MARK : N := 0x22.

(** The complement of the class removed by the English clean-up. *)
Definition keep_en (U : unicode) (c : N) : bool :=
  is_word U c || isspace c || bool_decide (c ∈ u ".!?,:;'()-" ++ [QUOTATION_MARK]).

Definition _clean_text (U : unicode) (text language : pystr) : pystr :=
  let text := collapse_ws (strip text) in
  let text :=
    if decide (language = u "ur") then
      let text := drop_ws_before (u "۔؟!") text in
      let text := one_space_after (u "۔؟!") false text in
      List.filter (keep_ur U) text
    else
      let text := drop_ws_before (u ".!?") text in
      let text := one_space_after (u ".!?") false text in
      List.filter (keep_en U) text in
  strip text.

(* ===================================================================== *)
(** * The key-phrase extractor *)
(* ===================================================================== *)

(** [self.stop_words] *)
Definition stop_words_ur : list pystr := u <$>
  [ "اور"; "کا"; "کے"; "کی"; "میں"; "سے"; "کو"; "نے"; "ہے"; "ہیں"; "تھا"; "تھے";
    "یہ"; "وہ"; "جو"; "کہ"; "لیے"; "ساتھ"; "بھی"; "تو"; "پر"; "اس"; "ان"; "ایک" ]%string.

Definition stop_words_en : list pystr := u <$>
  [ "the"; "and"; "or"; "but"; "in"; "on"; "at"; "to"; "for"; "of"; "with"; "by";
    "a"; "an"; "is"; "are"; "was"; "were"; "be"; "been"; "have"; "has"; "had";
    "do"; "does"; "did"; "will"; "would"; "could"; "should"; "may"; "might";
    "this"; "that"; "these"; "those"; "i"; "you"; "he"; "she"; "it"; "we"; "they"
  ]%string.

Definition stop_words (language : pystr) : option (list pystr) :=
  if decide (language = u "ur") then Some stop_words_ur
  else if decide (language = u "en") then Some stop_words_en
  else None.

(** The maximal runs of characters satisfying [p]; [cur] is the run being
    scanned, last character first. *)
Definition emit (cur : pystr) : list pystr :=
  match cur with [] => [] | _ => [rev cur] end.

Fixpoint runs_from (p : N -> bool) (cur : pystr) (s : pystr) : list pystr :=
  match s with
  | [] => emit cur
  | c :: s' =>
    if p c then runs_from p (c :: cur) s'
    else emit cur ++ runs_from p [] s'
  end.

Definition runs (p : N -> bool) (s : pystr) : list pystr := runs_from p [] s.

Definition is_arabic_block (c : N) : bool := in_range 0x0600 0x06FF c.

Definition is_ascii_letter (c : N) : bool :=
  in_range 0x61 0x7A c || in_range 0x41 0x5A c.

(** [re.findall(r'[؀-ۿ]{2,}', text)] *)
Definition findall_ur (text : pystr) : list pystr :=
  List.filter (fun w => 2 <=? len w) (runs is_arabic_block text).

(** [re.findall(r'\b[a-zA-Z]{2,}\b', text)]: between two [\b] there is a
    whole run of [\w] characters, so a match is such a run made of at
    least two ASCII letters. *)
Definition findall_en (U : unicode) (text : pystr) : list pystr :=
  List.filter (fun w => forallb is_ascii_letter w && (2 <=? len w))
              (runs (is_word U) text).

(** A [dict] keeps its keys in insertion order. *)
Definition dict (V : Type) := list (pystr * V).

(** [d.get(k, dflt)] *)
Fixpoint dget {V} (d : dict V) (k : pystr) (dflt : V) : V :=
  match d with
  | [] => dflt
  | (k', v) :: d' => if decide (k' = k) then v else dget d' k dflt
  end.

(** [d[k] = v] *)
Fixpoint dset {V} (d : dict V) (k : pystr) (v : V) : dict V :=
  match d with
  | [] => [(k, v)]
  | (k', v') :: d' =>
    if decide (k' = k) then (k', v) :: d' else (k', v') :: dset d' k v
  end.

Definition counted (sw : list pystr) (word : pystr) : bool :=
  negb (bool_decide (word ∈ sw)) && (2 <? len word).

(** The counting loop. *)
Definition count_word (sw : list pystr) (word_freq : dict Z) (word : pystr)
  : dict Z :=
  if counted sw word then dset word_freq word (dget word_freq word 0 + 1)
  else word_freq.

Definition count_words (sw : list pystr) (words : list pystr) : dict Z :=
  fold_left (count_word sw) words [].

(** [sorted(items, key=lambda x: x[1], reverse=True)]: the sort is stable,
    items with equal keys keep their order. *)
Fixpoint insert_desc {A} (key : A -> Z) (x : A) (l : list A) : list A :=
  match l with
  | [] => [x]
  | y :: l' =>
    if key y <=? key x then x :: l else y :: insert_desc key x l'
  end.

Definition sorted_desc {A} (key : A -> Z) (l : list A) : list A :=
  foldr (insert_desc key) [] l.

Definition top_words (word_freq : dict Z) : dict Z :=
  slice (sorted_desc snd word_freq) 0 10.

Definition tokenize (U : unicode) (text language : pystr) : list pystr :=
  if decide (language = u "ur") then findall_ur text
  else findall_en U (lower U text).

Definition extract_key_phrases (U : unicode) (text language : pystr)
  : result (list pystr) :=
  let words := tokenize U text language in
  match stop_words language with
  | Some sw => Ok (fst <$> top_words (count_words sw words))
  | None =>
    (* [word not in None] raises as soon as the loop body runs *)
    match words with
    | [] => Ok []
    | _ => Raise (Exn TypeError (u "argument of type 'NoneType' is not iterable"))
    end
  end.

(* ===================================================================== *)
(** * The chunker *)
(* ===================================================================== *)

Definition default_max_words (language : pystr) : Z :=
  if decide (language = u "ur") then 300 else 500.

Definition chunk_at (words : list pystr) (max_words i : Z) : pystr :=
  join (u " ") (slice words i (i + max_words)).

(** The generator, run to exhaustion. *)
Definition chunk_text (text language : pystr) (max_words : option Z)
  : result (list pystr) :=
  let max_words :=
    match max_words with
    | None => default_max_words language
    | Some m => m
    end in
  let words := split text in
  if max_words =? 0 then
    Raise (Exn ValueError (u "range() arg 3 must not be zero"))
  else
    Ok (List.filter (fun chunk => negb (bool_decide (strip chunk = [])))
          (chunk_at words max_words <$> range 0 (len words) max_words)).

(* ===================================================================== *)
(** * The models, the file system and the processor *)
(* ===================================================================== *)

(** A loaded Whisper model. *)
Inductive whisper := Whisper (size : pystr).

(** One entry of [result["segments"]]; the two times are kept as their
    rendering under the format [.2f], the only use the code makes of
    them. *)
Record segment := Segment {
  seg_start : pystr;
  seg_end : pystr;
  seg_text : pystr
}.

(** What [model.transcribe] returns: [result["text"]], and
    [result["segments"]] when that key is present. *)
Record transcription := Transcription {
  tr_text : pystr;
  tr_segments : option (list segment)
}.

(** A summarisation pipeline, named by the arguments it was built from. *)
Record summarizer_t := Pipeline {
  sm_model : pystr;
  sm_tokenizer : option pystr;
  sm_device : Z
}.

(** A Python object that is a [str], or something else. *)
Inductive pyobj :=
  | Str (s : pystr)
  | NotStr.

(** Everything outside the program. *)
Record world := World {
  (** [os.path.exists] *)
  os_path_exists : pystr -> bool;
  (** [Path(d).glob("*.mp3")] *)
  glob_mp3 : pystr -> list pystr;
  (** [open(path, "w")]: the exception it raises, if any *)
  open_w : pystr -> option exn;
  (** [whisper.load_model] *)
  whisper_load_model : pystr -> result whisper;
  (** [model.transcribe(audio_file, language=language, ...)] *)
  whisper_transcribe : whisper -> pystr -> pystr -> result transcription;
  (** [torch.cuda.is_available()], [None] when [torch] cannot be imported *)
  torch_cuda : option bool;
  (** [pipeline("summarization", model=.., tokenizer=.., device=..)]: the
      exception it raises, if any *)
  pipeline : pystr -> option pystr -> Z -> option exn;
  (** [str(summarizer.model.config)], [None] when the model has no
      attribute [config] *)
  model_config : summarizer_t -> option pystr;
  (** [summarizer(input, max_length=.., min_length=.., do_sample=False)],
      then [summary[0]['summary_text']] *)
  run_summarizer : summarizer_t -> pystr -> Z -> Z -> result pyobj
}.

(** A call made to one of the models. *)
Inductive event :=
  | LoadWhisper (size : pystr)
  | Transcribe (audio_file language : pystr)
  | LoadPipeline (model : pystr) (tokenizer : option pystr) (device : Z)
  | Summarize (s : summarizer_t) (input : pystr) (max_length min_length : Z).

(** The fields of [self] the methods read or write, the files written so
    far and the calls made to the models so far. *)
Record processor := Processor {
  model_size : pystr;
  whisper_model : option whisper;
  summarizer : option summarizer_t;
  files : gmap pystr pystr;
  calls : list event
}.

Definition set_whisper_model (m : whisper) (st : processor) : processor :=
  Processor (model_size st) (Some m) (summarizer st) (files st) (calls st).
Definition set_summarizer (s : summarizer_t) (st : processor) : processor :=
  Processor (model_size st) (whisper_model st) (Some s) (files st) (calls st).
Definition set_file (path content : pystr) (st : processor) : processor :=
  Processor (model_size st) (whisper_model st) (summarizer st)
            (<[path := content]> (files st)) (calls st).
Definition record_call (e : event) (st : processor) : processor :=
  Processor (model_size st) (whisper_model st) (summarizer st) (files st)
            (calls st ++ [e]).

(** [__init__]: no model is loaded. *)
Definition init_processor (model_size : pystr) : processor :=
  Processor model_size None None ∅ [].

(** A method: it runs in a processor state, returns or raises, and leaves
    a processor state. *)
Definition M (A : Type) : Type := processor -> result A * processor.

#[global] Instance M_ret : MRet M := λ A a st, (Ok a, st).
#[global] Instance M_bind : MBind M := λ A B k m st,
  match m st with
  | (Ok a, st') => k a st'
  | (Raise e, st') => (Raise e, st')
  end.

Definition raise {A : Type} (e : exn) : M A := λ st, (Raise e, st).
Definition get : M processor := λ st, (Ok st, st).
Definition modify (f : processor -> processor) : M unit := λ st, (Ok tt, f st).
Definition lift {A : Type} (r : result A) : M A := λ st, (r, st).

(** [try: body except Exception as e: handler] *)
Definition try_except {A : Type} (body : M A) (handler : exn -> M A) : M A := λ st,
  match body st with
  | (Ok a, st') => (Ok a, st')
  | (Raise e, st') => handler e st'
  end.

(** [with open(path, "w", encoding="utf-8") as f: f.write(content)] *)
Definition write_file (W : world) (path content : pystr) : M unit :=
  match open_w W path with
  | Some e => raise e
  | None => modify (set_file path content)
  end.

(** [str(n)] for an [int]. *)
Definition str_int (n : Z) : pystr := u (pretty n).

Definition nl : pystr := [0x0A%N].

(* ===================================================================== *)
(** * Loading the models *)
(* ===================================================================== *)

Definition _load_whisper_model (W : world) : M whisper :=
  st ← get;
  match whisper_model st with
  | Some m => mret m
  | None =>
    modify (record_call (LoadWhisper (model_size st)));;
    m ← lift (whisper_load_model W (model_size st));
    modify (set_whisper_model m);;
    mret m
  end.

Definition _is_gpu_available (W : world) : bool :=
  match torch_cuda W with
  | Some b => b
  | None => false
  end.

Definition BART : pystr := u "facebook/bart-large-cnn".
Definition MT5 : pystr := u "google/mt5-small".

(** [self.summarizer = pipeline("summarization", ...)] *)
Definition load_pipeline (W : world) (model : pystr) (tokenizer : option pystr)
  : M summarizer_t :=
  let device := if _is_gpu_available W then 0 else -1 in
  modify (record_call (LoadPipeline model tokenizer device));;
  match pipeline W model tokenizer device with
  | Some e => raise e
  | None =>
    let s := Pipeline model tokenizer device in
    modify (set_summarizer s);; mret s
  end.

(** The method returns [self.summarizer], which is the pipeline found
    there on entry or the one just stored. *)
Definition _load_summarizer (W : world) (language : pystr) : M summarizer_t :=
  st ← get;
  match summarizer st with
  | Some s => mret s
  | None =>
    try_except
      (let model_name := if decide (language = u "en") then BART else MT5 in
       load_pipeline W model_name (Some model_name))
      (λ e, load_pipeline W BART None)
  end.

(* ===================================================================== *)
(** * Transcription *)
(* ===================================================================== *)

Definition SOLIDUS : N := 0x2F.
Definition FULL_STOP : N := 0x2E.
Definition URDU_FULL_STOP : N := 0x06D4.

(** [s.rfind(c)] for a character [c]. *)
Definition rfind_char (c : N) (s : pystr) : Z :=
  match find_from 0 (rev s) [c] with
  | -1 => -1
  | i => len s - 1 - i
  end.

(** [Path(p).name] and [Path(p).stem] for a POSIX path: empty and [.]
    components are dropped, and the stem is the name without its last
    suffix. *)
Definition path_name (p : pystr) : pystr :=
  default []
    (last (List.filter
             (λ part, negb (bool_decide (part = []) || bool_decide (part = u ".")))
             (split_on SOLIDUS p))).

Definition path_stem (p : pystr) : pystr :=
  let name := path_name p in
  let i := rfind_char FULL_STOP name in
  if (0 <? i) && (i <? len name - 1) then slice name 0 i else name.

Definition detailed_line (s : segment) : pystr :=
  u "[" ++ seg_start s ++ u "s - " ++ seg_end s ++ u "s]: " ++ seg_text s ++ nl.

Definition transcribe_audio (W : world) (U : unicode)
    (audio_file language : pystr) (output_file : option pystr) : M pystr :=
  if negb (os_path_exists W audio_file) then
    raise (Exn FileNotFoundError (u "Audio file not found: " ++ audio_file))
  else
    model ← _load_whisper_model W;
    let output_file :=
      match output_file with
      | Some f => f
      | None => u "transcripts/" ++ path_stem audio_file ++ u "_transcription.txt"
      end in
    try_except
      (modify (record_call (Transcribe audio_file language));;
       result ← lift (whisper_transcribe W model audio_file language);
       let transcription := tr_text result in
       let transcription :=
         if decide (language = u "ur") then normalize_urdu U transcription
         else transcription in
       let transcription := _clean_text U transcription language in
       write_file W output_file
         (u "Language: " ++ language ++ nl
          ++ u "Transcription:" ++ nl ++ transcription);;
       match tr_segments result with
       | Some segments =>
         let detailed_file := replace (u ".txt") (u "_detailed.txt") output_file in
         write_file W detailed_file
           (u "Language: " ++ language ++ nl
            ++ u "Detailed Transcription with Timestamps:" ++ nl ++ nl
            ++ concat (detailed_line <$> segments))
       | None => mret tt
       end;;
       mret transcription)
      (λ e, raise e).

(* ===================================================================== *)
(** * Sentences, written to a file *)
(* ===================================================================== *)

(** [enumerate(l, start)] *)
Definition enumerate {A} (l : list A) (start : Z) : list (Z * A) :=
  imap (λ k x, (start + Z.of_nat k, x)) l.

Definition process_sentences (W : world) (text language : pystr)
    (output_file : option pystr) : M (list pystr) :=
  let output_file :=
    match output_file with
    | Some f => f
    | None => u "analysis/sentences_" ++ language ++ u ".txt"
    end in
  let processed_sentences :=
    if decide (language = u "ur") then _regex_sentence_split text language
    else _regex_sentence_split text language in
  write_file W output_file
    (u "Language: " ++ language ++ nl
     ++ u "Total sentences: " ++ str_int (len processed_sentences) ++ nl
     ++ concat ((λ '(i, sentence), str_int i ++ u ". " ++ strip sentence ++ nl)
                <$> enumerate processed_sentences 1));;
  mret processed_sentences.

(* ===================================================================== *)
(** * The summarisation adapter *)
(* ===================================================================== *)

Definition EMPTY_INPUT : pystr := u "⚠️ Empty input. Skipped.".
Definition TOO_SHORT : pystr :=
  u "ℹ️ Text too short to summarize. Consider keeping as-is.".
Definition FALLBACK_MARK : pystr := u "📝 ".

(** The degraded summary of [text]: its first clauses, as both [except]
    blocks of [summarize_text] build it. *)
Definition fallback_summary (language text : pystr) : pystr :=
  if decide (language = u "ur") then
    let sentences := slice (split_on URDU_FULL_STOP text) 0 3 in
    join (u "۔") (slice sentences 0 2) ++ u "۔"
  else
    let sentences := slice (split_on FULL_STOP text) 0 3 in
    join (u ".") (slice sentences 0 2) ++ u ".".

Definition is_mt5 (W : world) (U : unicode) (s : summarizer_t) : bool :=
  match model_config W s with
  | Some config => contains (lower U config) (u "mt5")
  | None => false
  end.

(** The body of the loop over the chunks: the inner [try]. *)
Definition summarize_chunk (W : world) (U : unicode) (s : summarizer_t)
    (language : pystr) (max_length min_length : Z) (chunk : pystr) : M pyobj :=
  try_except
    (let summary_input :=
       if is_mt5 W U s then u "summarize: " ++ chunk else chunk in
     modify (record_call (Summarize s summary_input max_length min_length));;
     lift (run_summarizer W s summary_input max_length min_length))
    (λ e, mret (Str (FALLBACK_MARK ++ fallback_summary language chunk))).

Fixpoint summarize_chunks (W : world) (U : unicode) (s : summarizer_t)
    (language : pystr) (max_length min_length : Z)
    (chunks : list pystr) (summaries : list pyobj) : M (list pyobj) :=
  match chunks with
  | [] => mret summaries
  | chunk :: rest =>
    summary ← summarize_chunk W U s language max_length min_length chunk;
    summarize_chunks W U s language max_length min_length rest
                     (summaries ++ [summary])
  end.

(** [sep.join(items)] raises [TypeError] on an item that is not a [str]. *)
Fixpoint all_str (items : list pyobj) : option (list pystr) :=
  match items with
  | [] => Some []
  | Str s :: rest => cons s <$> all_str rest
  | NotStr :: _ => None
  end.

Definition join_objs (sep : pystr) (items : list pyobj) : result pystr :=
  match all_str items with
  | Some parts => Ok (join sep parts)
  | None => Raise (Exn TypeError (u "sequence item: expected str instance"))
  end.

Definition summarize_text (W : world) (U : unicode) (text language : pystr)
    (max_length min_length : option Z) : M pystr :=
  if bool_decide (strip text = []) then mret EMPTY_INPUT
  else
    let word_count := len (split text) in
    if word_count <? 20 then mret TOO_SHORT
    else
      let max_length :=
        match max_length with
        | None => if decide (language = u "ur") then 8 else 150
        | Some n => n
        end in
      let min_length :=
        match min_length with
        | None => if decide (language = u "ur") then 3 else 50
        | Some n => n
        end in
      summarizer ← _load_summarizer W language;
      try_except
        (chunks ← lift (chunk_text text language None);
         summaries ← summarize_chunks W U summarizer language
                       max_length min_length chunks [];
         lift (join_objs (nl ++ nl) summaries))
        (λ e, mret (fallback_summary language text)).

(* ===================================================================== *)
(** * The pipeline orchestrator *)
(* ===================================================================== *)

(** The values stored in a result dictionary. *)
Inductive pyval :=
  | VStr (s : pystr)
  | VInt (n : Z)
  | VList (l : list pystr).

(** The [except] block of [process_pipeline]: it adds two entries to the
    dictionary as the stages left it. *)
Definition pipeline_failed (results : gmap pystr pyval) (e : exn)
  : gmap pystr pyval :=
  let error_msg := u "Pipeline failed: " ++ exn_str e in
  <[u "error" := VStr error_msg]> (<[u "status" := VStr (u "error")]> results).

(** One statement of the [try] block that can raise, followed by the rest
    of the block; [results] is the dictionary when the statement runs. *)
Definition stage {A : Type} (results : gmap pystr pyval) (m : M A)
    (rest : A -> M (gmap pystr pyval)) : M (gmap pystr pyval) := λ st,
  match m st with
  | (Ok a, st') => rest a st'
  | (Raise e, st') => (Ok (pipeline_failed results e), st')
  end.

Definition summary_file_content (language summary : pystr)
    (key_phrases : list pystr) : pystr :=
  (if decide (language = u "ur") then
     u "=== خلاصہ (Summary) ===" ++ nl ++ summary
     ++ nl ++ nl ++ u "=== اہم الفاظ (Key Phrases) ===" ++ nl
   else
     u "=== Summary ===" ++ nl ++ summary
     ++ nl ++ nl ++ u "=== Key Phrases ===" ++ nl)
  ++ join (u ", ") key_phrases.

Definition process_pipeline (W : world) (U : unicode)
    (file_name language : pystr) : M (gmap pystr pyval) :=
  let results : gmap pystr pyval := ∅ in
  (* Step 1: transcribe audio *)
  let audio_file := u "audio/" ++ file_name ++ u ".mp3" in
  stage results (transcribe_audio W U audio_file language None) (λ transcription,
  let results := <[u "transcription" := VStr transcription]> results in
  let results := <[u "language" := VStr language]> results in
  let results := <[u "word_count" := VInt (len (split transcription))]> results in
  (* Step 2: process sentences *)
  stage results (process_sentences W transcription language None) (λ sentences,
  let results := <[u "sentences" := VList sentences]> results in
  let results := <[u "sentence_count" := VInt (len sentences)]> results in
  (* Step 3: extract key phrases *)
  stage results (lift (extract_key_phrases U transcription language)) (λ key_phrases,
  let results := <[u "key_phrases" := VList key_phrases]> results in
  (* Step 4: generate summary *)
  let combined_text := join (u " ") sentences in
  stage results (summarize_text W U combined_text language None None) (λ summary,
  let summary_file :=
    u "analysis/" ++ file_name ++ u "_" ++ language ++ u "_summary.txt" in
  stage results
    (write_file W summary_file
       (summary_file_content language summary key_phrases)) (λ _,
  let results := <[u "summary" := VStr summary]> results in
  let results := <[u "summary_file" := VStr summary_file]> results in
  let results := <[u "status" := VStr (u "success")]> results in
  mret results))))).

(** The loop of [process_batch] over the files found. *)
Fixpoint batch_loop (W : world) (U : unicode) (language : pystr)
    (audio_files : list pystr) (results : gmap pystr (gmap pystr pyval))
  : M (gmap pystr (gmap pystr pyval)) :=
  match audio_files with
  | [] => mret results
  | audio_file :: rest =>
    let file_name := path_stem audio_file in
    r ← try_except
          (process_pipeline W U file_name language)
          (λ e, mret (<[u "error" := VStr (exn_str e)]>
                        (<[u "status" := VStr (u "error")]> ∅)));
    batch_loop W U language rest (<[file_name := r]> results)
  end.

Definition process_batch (W : world) (U : unicode)
    (audio_dir language : pystr) : M (gmap pystr (gmap pystr pyval)) :=
  batch_loop W U language (glob_mp3 W audio_dir) ∅.

(* ===================================================================== *)
(** * An excerpt of the Unicode character database *)
(* ===================================================================== *)

(** The normalisation algorithm of UAX #15 (decompose, reorder the
    combining marks, compose) over the entries of the character database
    for this repertoire: ASCII, the whitespace of [isspace], the Arabic
    block U+0600..U+06FF, and the presentation forms of kaf, keheh, yeh
    and farsi yeh (U+FB8E..FB91, U+FBFC..FBFF, U+FED9..FEDC,
    U+FEF1..FEF4).  On strings over the repertoire, [Ucd.tables] is what
    Python computes; a code point outside it is taken as one with no
    entry. *)
Module Ucd.

Definition SPACE : pystr := [0x20%N].

(** Full compatibility decompositions. *)
Definition decomposition_table : list (N * pystr) :=
  [ (0x00A0, SPACE);
    (0x0622, [0x0627; 0x0653]); (0x0623, [0x0627; 0x0654]);
    (0x0624, [0x0648; 0x0654]); (0x0625, [0x0627; 0x0655]);
    (0x0626, [0x064A; 0x0654]);
    (0x0675, [0x0627; 0x0674]); (0x0676, [0x0648; 0x0674]);
    (0x0677, [0x06C7; 0x0674]); (0x0678, [0x064A; 0x0674]);
    (0x06C0, [0x06D5; 0x0654]); (0x06C2, [0x06C1; 0x0654]);
    (0x06D3, [0x06D2; 0x0654]);
    (0x2000, SPACE); (0x2001, SPACE); (0x2002, SPACE); (0x2003, SPACE);
    (0x2004, SPACE); (0x2005, SPACE); (0x2006, SPACE); (0x2007, SPACE);
    (0x2008, SPACE); (0x2009, SPACE); (0x200A, SPACE); (0x202F, SPACE);
    (0x205F, SPACE); (0x3000, SPACE);
    (0xFB8E, [0x06A9]); (0xFB8F, [0x06A9]); (0xFB90, [0x06A9]);
    (0xFB91, [0x06A9]);
    (0xFBFC, [0x06CC]); (0xFBFD, [0x06CC]); (0xFBFE, [0x06CC]);
    (0xFBFF, [0x06CC]);
    (0xFED9, [0x0643]); (0xFEDA, [0x0643]); (0xFEDB, [0x0643]);
    (0xFEDC, [0x0643]);
    (0xFEF1, [0x064A]); (0xFEF2, [0x064A]); (0xFEF3, [0x064A]);
    (0xFEF4, [0x064A]) ]%N.

(** Canonical combining classes, by range; [0] elsewhere. *)
Definition ccc_table : list (N * N * N) :=
  [ (0x0610, 0x0617, 230); (0x0618, 0x0618, 30); (0x0619, 0x0619, 31);
    (0x061A, 0x061A, 32); (0x064B, 0x064B, 27); (0x064C, 0x064C, 28);
    (0x064D, 0x064D, 29); (0x064E, 0x064E, 30); (0x064F, 0x064F, 31);
    (0x0650, 0x0650, 32); (0x0651, 0x0651, 33); (0x0652, 0x0652, 34);
    (0x0653, 0x0654, 230); (0x0655, 0x0656, 220); (0x0657, 0x065B, 230);
    (0x065C, 0x065C, 220); (0x065D, 0x065E, 230); (0x065F, 0x065F, 220);
    (0x0670, 0x0670, 35); (0x06D6, 0x06DC, 230); (0x06DF, 0x06E2, 230);
    (0x06E3, 0x06E3, 220); (0x06E4, 0x06E4, 230); (0x06E7, 0x06E8, 230);
    (0x06EA, 0x06EA, 220); (0x06EB, 0x06EC, 230); (0x06ED, 0x06ED, 220)
  ]%N.

(** Primary composites: starter, mark, composite. *)
Definition composition_table : list (N * N * N) :=
  [ (0x0627, 0x0653, 0x0622); (0x0627, 0x0654, 0x0623);
    (0x0627, 0x0655, 0x0625); (0x0648, 0x0654, 0x0624);
    (0x064A, 0x0654, 0x0626); (0x06C1, 0x0654, 0x06C2);
    (0x06D2, 0x0654, 0x06D3); (0x06D5, 0x0654, 0x06C0) ]%N.

Definition decomposition (c : N) : pystr :=
  match List.find (λ e, (fst e =? c)%N) decomposition_table with
  | Some e => snd e
  | None => [c]
  end.

Definition ccc (c : N) : N :=
  match List.find (λ '(lo, hi, _), in_range lo hi c) ccc_table with
  | Some (_, _, k) => k
  | None => 0%N
  end.

Definition composite (starter mark : N) : option N :=
  match List.find (λ '(a, b, _), (a =? starter)%N && (b =? mark)%N)
                  composition_table with
  | Some (_, _, c) => Some c
  | None => None
  end.

Definition decompose (s : pystr) : pystr := concat (decomposition <$> s).

(** Canonical ordering.  [out] is the text placed so far, last
    character first; a mark moves in front of the marks of greater
    class that precede it. *)
Fixpoint place_mark (c : N) (out : pystr) : pystr :=
  match out with
  | d :: out' =>
    if (ccc c <? ccc d)%N then d :: place_mark c out' else c :: out
  | [] => [c]
  end.

Definition place (out : pystr) (c : N) : pystr :=
  if (ccc c =? 0)%N then c :: out else place_mark c out.

Definition reorder (s : pystr) : pystr := rev (fold_left place s []).

(** Canonical composition.  [done] and [pending] are kept last
    character first: [done] is the text before the last starter,
    [pending] the marks after it, [last_class] the class of the last
    character appended. *)
Record composing := Composing {
  done_ : pystr;
  starter : N;
  pending : pystr;
  last_class : N
}.

Definition append (s : composing) (c : N) : composing :=
  if (ccc c =? 0)%N then
    Composing (pending s ++ starter s :: done_ s) c [] 0
  else
    Composing (done_ s) (starter s) (c :: pending s) (ccc c).

Definition compose_step (s : composing) (c : N) : composing :=
  match composite (starter s) c with
  | Some comp =>
    if (last_class s <? ccc c)%N || (last_class s =? 0)%N then
      Composing (done_ s) comp (pending s) (last_class s)
    else append s c
  | None => append s c
  end.

Definition compose (s : pystr) : pystr :=
  match s with
  | [] => []
  | c0 :: s' =>
    let init := Composing [] c0 [] (if (ccc c0 =? 0)%N then 0 else 256) in
    let final := fold_left compose_step s' init in
    rev (pending final ++ starter final :: done_ final)
  end.

Definition NFKC (s : pystr) : pystr := compose (reorder (decompose s)).

(** Case mapping: in the repertoire only the ASCII capitals change. *)
Definition to_lower (c : N) : N :=
  if in_range 0x41 0x5A c then (c + 0x20)%N else c.

(** The class [\w]: letters, digits and the underscore. *)
Definition word_table : list (N * N) :=
  [ (0x30, 0x39); (0x41, 0x5A); (0x5F, 0x5F); (0x61, 0x7A);
    (0x0620, 0x064A); (0x0660, 0x0669); (0x066E, 0x066F);
    (0x0671, 0x06D3); (0x06D5, 0x06D5); (0x06E5, 0x06E6);
    (0x06EE, 0x06FC); (0x06FF, 0x06FF);
    (0xFB8E, 0xFB91); (0xFBFC, 0xFBFF); (0xFED9, 0xFEDC);
    (0xFEF1, 0xFEF4) ]%N.

Definition word_char (c : N) : bool :=
  existsb (λ '(lo, hi), in_range lo hi c) word_table.

Definition tables : unicode := Unicode NFKC (fmap to_lower) word_char.

End Ucd.

(* ===================================================================== *)
(** * Sample worlds *)
(* ===================================================================== *)

(** Concrete surroundings on which the methods can be run: a machine
    without GPU where every file can be written, Whisper loads and
    returns a fixed text, and the summarisation model answers with a
    fixed sentence. *)
Module Scenario.

Definition speech_en : pystr :=
  u "The pipeline reads the audio file. Then the model writes the text of the speech. The text is cut into sentences and the summary of the text is saved.".

Definition speech_ur : pystr :=
  u "یہ کتاب بہت اچھی ہے اور میں اس کو ہر روز پڑھتا ہوں کیونکہ اس میں بہت سی نئی باتیں لکھی ہوئی ہیں۔".

(** The directory [audio] holds [a.mp3] and [c.mp3]; the directory
    [incoming] holds [a.mp3], [b.mp3] and [c.mp3]. *)
Definition exists_ (path : pystr) : bool :=
  bool_decide (path ∈ [u "audio/a.mp3"; u "audio/c.mp3";
                       u "incoming/a.mp3"; u "incoming/b.mp3";
                       u "incoming/c.mp3"]).

Definition glob_ (dir : pystr) : list pystr :=
  if decide (dir = u "incoming") then
    [u "incoming/a.mp3"; u "incoming/b.mp3"; u "incoming/c.mp3"]
  else if decide (dir = u "audio") then [u "audio/a.mp3"; u "audio/c.mp3"]
  else [].

(** Everything works. *)
Definition online : world := {|
  os_path_exists := exists_;
  glob_mp3 := glob_;
  open_w := λ _, None;
  whisper_load_model := λ size, Ok (Whisper size);
  whisper_transcribe := λ _ _ _, Ok (Transcription speech_en None);
  torch_cuda := Some false;
  pipeline := λ _ _ _, None;
  model_config := λ s, Some (u "Config { _name_or_path: " ++ sm_model s ++ u " }");
  run_summarizer := λ _ _ _ _, Ok (Str (u "A summary."))
|}.

(** No summarisation model can be loaded. *)
Definition offline : world := {|
  os_path_exists := exists_;
  glob_mp3 := glob_;
  open_w := λ _, None;
  whisper_load_model := λ size, Ok (Whisper size);
  whisper_transcribe := λ _ _ _, Ok (Transcription speech_en None);
  torch_cuda := Some false;
  pipeline := λ _ _ _, Some (Exn OSError (u "cannot load the model"));
  model_config := λ s, Some (u "Config { _name_or_path: " ++ sm_model s ++ u " }");
  run_summarizer := λ _ _ _ _, Ok (Str (u "A summary."))
|}.

(** The summarisation model raises on every call. *)
Definition failing_calls : world := {|
  os_path_exists := exists_;
  glob_mp3 := glob_;
  open_w := λ _, None;
  whisper_load_model := λ size, Ok (Whisper size);
  whisper_transcribe := λ _ _ _, Ok (Transcription speech_en None);
  torch_cuda := Some false;
  pipeline := λ _ _ _, None;
  model_config := λ s, Some (u "Config { _name_or_path: " ++ sm_model s ++ u " }");
  run_summarizer := λ _ _ _ _, Raise (Exn RuntimeError (u "out of memory"))
|}.

(** The summarisation model returns an entry whose [summary_text] is not
    a string. *)
Definition odd_output : world := {|
  os_path_exists := exists_;
  glob_mp3 := glob_;
  open_w := λ _, None;
  whisper_load_model := λ size, Ok (Whisper size);
  whisper_transcribe := λ _ _ _, Ok (Transcription speech_en None);
  torch_cuda := Some false;
  pipeline := λ _ _ _, None;
  model_config := λ s, Some (u "Config { _name_or_path: " ++ sm_model s ++ u " }");
  run_summarizer := λ _ _ _ _, Ok NotStr
|}.

Definition fresh : processor := init_processor (u "medium").

End Scenario.

(* ===================================================================== *)
(** * Predicates used in the statements *)
(* ===================================================================== *)

(** A string is trimmed when [strip] has nothing to remove. *)
Definition starts_clean (s : pystr) : Prop :=
  match s with c :: _ => isspace c = false | [] => True end.

Definition ends_clean (s : pystr) : Prop :=
  match last s with Some c => isspace c = false | None => True end.

(** A word as [split] produces them: not empty, no whitespace in it. *)
Definition is_token (w : pystr) : Prop :=
  w ≠ [] ∧ Forall (λ c, isspace c = false) w.

(** The items of [l] taken [size] at a time, [count] times. *)
Definition groups_of {A} (size count : nat) (l : list A) : list (list A) :=
  (λ k, take size (drop (k * size) l)) <$> seq 0 count.

(** The number of times [w] occurs in [l]. *)
Fixpoint occurrences (w : pystr) (l : list pystr) : Z :=
  match l with
  | [] => 0
  | x :: l' => (if decide (x = w) then 1 else 0) + occurrences w l'
  end.

(** In [l], an [a] is met before any [b]. *)
Definition seen_before (l : list pystr) (a b : pystr) : Prop :=
  a ≠ b ∧ ∃ pre post, l = pre ++ a :: post ∧ b ∉ pre.

(** [p] stands at an earlier index of [l] than [q]. *)
Definition before {A} (l : list A) (p q : A) : Prop :=
  ∃ i j, (i < j)%nat ∧ l !! i = Some p ∧ l !! j = Some q.

(** The order of a stable sort of [l] by decreasing [key]. *)
Definition stable_desc {A} (key : A -> Z) (l : list A) (p q : A) : Prop :=
  key q <= key p ∧ (key p = key q -> before l p q).

(** The ranking of the key phrases: more frequent first, and among
    equally frequent words the one met first. *)
Definition ranks (words : list pystr) (a b : pystr) : Prop :=
  occurrences b words <= occurrences a words ∧
  (occurrences a words = occurrences b words -> seen_before words a b).

(** What the counting loop maintains: [d] is the dictionary after the
    words [seen]. *)
Definition counts_inv (sw seen : list pystr) (d : dict Z) : Prop :=
  NoDup d.*1 ∧
  (∀ w, w ∈ d.*1 ↔ counted sw w = true ∧ w ∈ seen) ∧
  (∀ w, counted sw w = true -> dget d w 0 = occurrences w seen) ∧
  (∀ a b, before d.*1 a b -> seen_before seen a b).

(** What one summarisation call contributes to the summary: the model's
    output, or the marked fallback when the call raises. *)
Definition paragraph (W : world) (U : unicode) (s : summarizer_t)
    (language : pystr) (max_length min_length : Z) (chunk : pystr) : pyobj :=
  let summary_input :=
    if is_mt5 W U s then u "summarize: " ++ chunk else chunk in
  match run_summarizer W s summary_input max_length min_length with
  | Ok summary => summary
  | Raise _ => Str (FALLBACK_MARK ++ fallback_summary language chunk)
  end.

(** The keys a result dictionary holds once [n] stages have completed. *)
Definition stage_keys (n : nat) : gset pystr :=
  match n with
  | 0%nat => ∅
  | 1%nat => {[u "transcription"; u "language"; u "word_count"]}
  | 2%nat => {[u "transcription"; u "language"; u "word_count";
               u "sentences"; u "sentence_count"]}
  | _ => {[u "transcription"; u "language"; u "word_count";
           u "sentences"; u "sentence_count"; u "key_phrases"]}
  end.

(** The status a result dictionary reports. *)
Definition reports (status : pystr) (r : gmap pystr pyval) : Prop :=
  r !! u "status" = Some (VStr status).

(** The status with which the pipeline ends for one file. *)
Definition pipeline_status (W : world) (U : unicode)
    (file_name language : pystr) (st : processor) : option pyval :=
  match fst (process_pipeline W U file_name language st) with
  | Ok results => results !! u "status"
  | Raise _ => None
  end.

(** The record of a run that failed with the exception [e] once the
    stages that write [keys] had completed: the status 'error', the
    message made of the text of [e], and no key besides these two and
    [keys]. *)
Definition failure_record (e : exn) (keys : gset pystr)
    (r : gmap pystr pyval) : Prop :=
  r !! u "status" = Some (VStr (u "error")) ∧
  r !! u "error" = Some (VStr (u "Pipeline failed: " ++ exn_str e)) ∧
  dom r = keys ∪ {[u "status"; u "error"]}.

(** The processor after the pipeline has run for each of [names] in
    turn, each run starting in the processor the run before left. *)
Definition after_pipelines (W : world) (U : unicode) (language : pystr)
    (names : list pystr) (st : processor) : processor :=
  foldl (λ st name, snd (process_pipeline W U name language st)) st names.

(* ===================================================================== *)
(** * The language classifier *)
(* ===================================================================== *)

(** [re.findall('[...]', text)] for a character class given as a
    predicate: one match per character of the class. *)
Definition findall_chars (p : N -> bool) (text : pystr) : list pystr :=
  (λ c, [c]) <$> List.filter p text.

Definition detect_language (text : pystr) : pystr :=
  let urdu_chars := len (findall_chars is_arabic_block text) in
  let english_chars := len (findall_chars is_ascii_letter text) in
  if english_chars <? urdu_chars then u "ur" else u "en".

(** The characters that end a sentence of the language: the class the
    text is split on, and the one the endings are looked up in. *)
Definition terminators (language : pystr) : pystr :=
  if decide (language = u "ur") then u "۔؟!" else u ".!?".

(** [st'] differs from [st] at most in the summariser it holds and in
    the calls recorded. *)
Definition keeps_disk (st st' : processor) : Prop :=
  files st' = files st ∧ whisper_model st' = whisper_model st ∧
  model_size st' = model_size st.

(** The call that summarises one chunk with the pipeline [s]. *)
Definition chunk_call (W : world) (U : unicode) (s : summarizer_t)
    (max_length min_length : Z) (chunk : pystr) : event :=
  Summarize s (if is_mt5 W U s then u "summarize: " ++ chunk else chunk)
            max_length min_length.

(** The text [transcribe_audio] makes of what Whisper returns. *)
Definition cleaned_transcription (U : unicode) (language raw : pystr) : pystr :=
  _clean_text U
    (if decide (language = u "ur") then normalize_urdu U raw else raw) language.

(** The default path of the transcript of [audio_file]. *)
Definition transcript_path (audio_file : pystr) : pystr :=
  u "transcripts/" ++ path_stem audio_file ++ u "_transcription.txt".

(** A stop word written with KEHEH or FARSI YEH. *)
Definition has_variant (w : pystr) : bool :=
  bool_decide (0x06A9%N ∈ w) || bool_decide (0x06CC%N ∈ w).

(** In [s], every member of [cls] is the last character or is followed
    by a space. *)
Fixpoint spaced (cls s : pystr) : Prop :=
  match s with
  | [] => True
  | c :: s' => (c ∈ cls -> s' = [] ∨ head s' = Some 0x20%N) ∧ spaced cls s'
  end.

(* ===================================================================== *)
(** * More sample worlds *)
(* ===================================================================== *)

Module Cases.

(** Whisper returns an Urdu text with two timed segments. *)
Definition urdu_speech : world := {|
  os_path_exists := Scenario.exists_;
  glob_mp3 := Scenario.glob_;
  open_w := λ _, None;
  whisper_load_model := λ size, Ok (Whisper size);
  whisper_transcribe := λ _ _ _,
    Ok (Transcription Scenario.speech_ur
          (Some [Segment (u "0.00") (u "2.50") (u "یہ کتاب");
                 Segment (u "2.50") (u "4.00") (u "بہت اچھی ہے")]));
  torch_cuda := None;
  pipeline := λ _ _ _, None;
  model_config := λ s, Some (u "Config { _name_or_path: " ++ sm_model s ++ u " }");
  run_summarizer := λ _ _ _ _, Ok (Str (u "A summary."))
|}.

(** Whisper raises on every file. *)
Definition whisper_fails : world := {|
  os_path_exists := Scenario.exists_;
  glob_mp3 := Scenario.glob_;
  open_w := λ _, None;
  whisper_load_model := λ size, Ok (Whisper size);
  whisper_transcribe := λ _ _ _, Raise (Exn RuntimeError (u "cannot decode"));
  torch_cuda := None;
  pipeline := λ _ _ _, None;
  model_config := λ s, None;
  run_summarizer := λ _ _ _ _, Ok (Str (u "A summary."))
|}.

(** Only mT5 cannot be loaded. *)
Definition no_mt5 : world := {|
  os_path_exists := Scenario.exists_;
  glob_mp3 := Scenario.glob_;
  open_w := λ _, None;
  whisper_load_model := λ size, Ok (Whisper size);
  whisper_transcribe := λ _ _ _, Ok (Transcription Scenario.speech_en None);
  torch_cuda := Some true;
  pipeline := λ model _ _,
    if decide (model = MT5) then Some (Exn OSError (u "no such model")) else None;
  model_config := λ s, Some (u "Config { _name_or_path: " ++ sm_model s ++ u " }");
  run_summarizer := λ _ _ _ _, Ok (Str (u "A summary."))
|}.

(** Every directory lists the files [a.mp3] and [c.mp3]. *)
Definition mirror : world := {|
  os_path_exists := Scenario.exists_;
  glob_mp3 := λ dir, [dir ++ u "/a.mp3"; dir ++ u "/c.mp3"];
  open_w := λ _, None;
  whisper_load_model := λ size, Ok (Whisper size);
  whisper_transcribe := λ _ _ _, Ok (Transcription Scenario.speech_en None);
  torch_cuda := None;
  pipeline := λ _ _ _, None;
  model_config := λ s, None;
  run_summarizer := λ _ _ _ _, Ok (Str (u "A summary."))
|}.

(** Whisper returns five words. *)
Definition brief : world := {|
  os_path_exists := Scenario.exists_;
  glob_mp3 := Scenario.glob_;
  open_w := λ _, None;
  whisper_load_model := λ size, Ok (Whisper size);
  whisper_transcribe := λ _ _ _,
    Ok (Transcription (u " Only five words are here. ") None);
  torch_cuda := None;
  pipeline := λ _ _ _, None;
  model_config := λ s, None;
  run_summarizer := λ _ _ _ _, Ok (Str (u "A summary."))
|}.

(** A processor whose models are loaded. *)
Definition warm : processor :=
  Processor (u "medium") (Some (Whisper (u "medium")))
            (Some (Pipeline MT5 (Some MT5) (-1))) ∅ [].

End Cases.

(* ===================================================================== *)
(** * Properties of the string operations *)
(* ===================================================================== *)

Section Strings.

Implicit Types (s t : pystr) (c : N).

Lemma lstrip_app_nonspace s c t :
  isspace c = false -> lstrip (s ++ c :: t) = lstrip s ++ c :: t.
Proof.
  intros Hc. induction s as [|d s IH]; simpl.
  - by rewrite Hc.
  - destruct (isspace d); [apply IH | done].
Qed.

Lemma lstrip_all_space s :
  forallb isspace s = true -> lstrip s = [].
Proof.
  induction s as [|d s IH]; simpl; [done|].
  destruct (isspace d); simpl; [apply IH | done].
Qed.

Lemma lstrip_nil_all_space s :
  lstrip s = [] -> forallb isspace s = true.
Proof.
  induction s as [|d s IH]; simpl; [done|].
  destruct (isspace d); simpl; [apply IH | done].
Qed.

Lemma lstrip_app_space s c :
  isspace c = true ->
  lstrip (s ++ [c]) = match lstrip s with [] => [] | r => r ++ [c] end.
Proof.
  intros Hc. induction s as [|d s IH]; simpl.
  - by rewrite Hc.
  - destruct (isspace d); [apply IH | done].
Qed.

(** [rstrip] read from the left. *)
Lemma rstrip_cons c s :
  rstrip (c :: s) =
  match rstrip s with
  | [] => if isspace c then [] else [c]
  | r => c :: r
  end.
Proof.
  unfold rstrip. simpl rev.
  destruct (isspace c) eqn:Hc.
  - rewrite lstrip_app_space by done.
    destruct (lstrip (rev s)) as [|d r]; [done|].
    rewrite rev_app_distr. simpl.
    destruct (rev r ++ [d]) eqn:E; [by destruct (rev r)|done].
  - replace (rev s ++ [c]) with (rev s ++ c :: []) by done.
    rewrite lstrip_app_nonspace by done.
    rewrite rev_app_distr. simpl.
    by destruct (rev (lstrip (rev s))).
Qed.

Lemma rstrip_nil : rstrip [] = [].
Proof. done. Qed.

Lemma lstrip_idem s : lstrip (lstrip s) = lstrip s.
Proof.
  induction s as [|d s IH]; simpl; [done|].
  destruct (isspace d) eqn:Hd; [done|]. simpl. by rewrite Hd.
Qed.

Lemma lstrip_starts_clean s : starts_clean (lstrip s).
Proof.
  induction s as [|d s IH]; simpl; [done|].
  destruct (isspace d) eqn:Hd; [done|]. done.
Qed.

Lemma lstrip_clean s : starts_clean s -> lstrip s = s.
Proof. destruct s as [|d s]; simpl; [done|]. by intros ->. Qed.

Lemma rstrip_ends_clean s : ends_clean (rstrip s).
Proof.
  unfold ends_clean. induction s as [|d s IH]; [done|].
  rewrite rstrip_cons. destruct (rstrip s) as [|e r] eqn:E.
  - destruct (isspace d) eqn:Hd; simpl; done.
  - by rewrite last_cons_cons.
Qed.

Lemma rstrip_clean s : ends_clean s -> rstrip s = s.
Proof.
  unfold ends_clean. induction s as [|d s IH]; [done|].
  rewrite rstrip_cons. destruct s as [|e s].
  - simpl. by intros ->.
  - rewrite last_cons_cons. intros H. rewrite (IH H). done.
Qed.

Lemma rstrip_starts_clean s : starts_clean s -> starts_clean (rstrip s).
Proof.
  destruct s as [|d s]; [done|]. simpl. intros Hd.
  rewrite rstrip_cons, Hd. by destruct (rstrip s).
Qed.

Lemma strip_starts_clean s : starts_clean (strip s).
Proof. apply rstrip_starts_clean, lstrip_starts_clean. Qed.

Lemma strip_ends_clean s : ends_clean (strip s).
Proof. apply rstrip_ends_clean. Qed.

Lemma strip_clean s : starts_clean s -> ends_clean s -> strip s = s.
Proof.
  intros H1 H2. unfold strip. rewrite (lstrip_clean s H1).
  by apply rstrip_clean.
Qed.

Lemma strip_idem s : strip (strip s) = strip s.
Proof. apply strip_clean; [apply strip_starts_clean | apply strip_ends_clean]. Qed.


(** [strip] and the whitespace collapse only remove characters, or turn
    them into a space. *)
Lemma elem_of_lstrip c s : c ∈ lstrip s -> c ∈ s.
Proof.
  induction s as [|d s IH]; simpl; [done|].
  destruct (isspace d); [|done]. intros H. right. by apply IH.
Qed.

Lemma elem_of_rstrip c s : c ∈ rstrip s -> c ∈ s.
Proof.
  induction s as [|d s IH]; [done|].
  rewrite rstrip_cons. destruct (rstrip s) as [|e r].
  - destruct (isspace d); [by intros ?%elem_of_nil|].
    intros ->%list_elem_of_singleton. left.
  - intros [->|H]%elem_of_cons; [left|right; by apply IH].
Qed.

Lemma elem_of_strip c s : c ∈ strip s -> c ∈ s.
Proof. intros H. by apply elem_of_lstrip, elem_of_rstrip. Qed.

Lemma elem_of_collapse_ws c s : c ∈ collapse_ws s -> c ∈ s ∨ c = 0x20%N.
Proof.
  induction s as [|d s IH]; [by left|].
  simpl. destruct (isspace d).
  - destruct s as [|e s].
    + intros ->%list_elem_of_singleton. by right.
    + destruct (isspace e).
      * intros H. destruct (IH H) as [?|?]; [left; by right | by right].
      * intros [->|H]%elem_of_cons; [by right|].
        destruct (IH H) as [?|?]; [left; by right | by right].
  - intros [->|H]%elem_of_cons; [left; left|].
    destruct (IH H) as [?|?]; [left; by right | by right].
Qed.

Lemma collapse_ws_cons_nonspace c s :
  isspace c = false -> collapse_ws (c :: s) = c :: collapse_ws s.
Proof. intros H. simpl. by rewrite H. Qed.

Lemma isspace_space : isspace 0x20 = true.
Proof. done. Qed.

(** After a collapse, a space is followed by a character that is not
    one, so a second collapse finds nothing to do. *)
Lemma collapse_ws_idem s : collapse_ws (collapse_ws s) = collapse_ws s.
Proof.
  induction s as [|c s IH]; [done|].
  simpl. destruct (isspace c) eqn:Hc.
  - destruct s as [|d s]; [done|].
    destruct (isspace d) eqn:Hd; [done|].
    rewrite collapse_ws_cons_nonspace in IH by done.
    rewrite (collapse_ws_cons_nonspace d s) by done.
    change (collapse_ws (0x20%N :: d :: collapse_ws s))
      with (if isspace d then collapse_ws (d :: collapse_ws s)
            else 0x20%N :: collapse_ws (d :: collapse_ws s)).
    rewrite Hd. by rewrite IH.
  - simpl. rewrite Hc. by rewrite IH.
Qed.

Lemma collapse_ws_starts_clean s :
  starts_clean s -> starts_clean (collapse_ws s).
Proof. destruct s as [|c s]; [done|]. simpl. intros H. by rewrite H. Qed.

Lemma collapse_ws_nil s : collapse_ws s = [] -> s = [].
Proof.
  induction s as [|c s IH]; [done|]. simpl.
  destruct (isspace c); [|done].
  destruct s as [|d s]; [done|].
  destruct (isspace d); [|done]. intros H. by specialize (IH H).
Qed.

Lemma collapse_ws_ends_clean s :
  ends_clean s -> ends_clean (collapse_ws s).
Proof.
  unfold ends_clean. induction s as [|c s IH]; [done|].
  destruct s as [|d s].
  - simpl. intros Hc. by rewrite Hc.
  - rewrite last_cons_cons. intros H. specialize (IH H).
    assert (collapse_ws (d :: s) ≠ []) as Hne
      by (intros E; by apply collapse_ws_nil in E).
    destruct (collapse_ws (d :: s)) as [|e r] eqn:E; [done|].
    change (collapse_ws (c :: d :: s))
      with (if isspace c
            then if isspace d then collapse_ws (d :: s)
                 else 0x20%N :: collapse_ws (d :: s)
            else c :: collapse_ws (d :: s)).
    rewrite E. destruct (isspace c), (isspace d);
      rewrite ?last_cons_cons; done.
Qed.

(** The whitespace normalisation used by the normaliser and the
    cleaner, [re.sub(r'\s+', ' ', s.strip())], is idempotent. *)
Lemma collapse_strip_idem s :
  collapse_ws (strip (collapse_ws (strip s))) = collapse_ws (strip s).
Proof.
  rewrite (strip_clean (collapse_ws (strip s))).
  - apply collapse_ws_idem.
  - apply collapse_ws_starts_clean, strip_starts_clean.
  - apply collapse_ws_ends_clean, strip_ends_clean.
Qed.

Lemma startswith_nil s : startswith s [] = true.
Proof. by destruct s. Qed.

(** [replace] with one-character strings maps over the characters. *)
Lemma replace_steps_char a b n s :
  (length s < n)%nat ->
  replace_steps n [a] [b] s = (λ c, if (c =? a)%N then b else c) <$> s.
Proof.
  revert s. induction n as [|n IH]; intros s Hn; [lia|].
  destruct s as [|c s]; [done|].
  simpl in Hn.
  change (replace_steps (S n) [a] [b] (c :: s))
    with (if (a =? c)%N && startswith s []
          then b :: replace_steps n [a] [b] s
          else c :: replace_steps n [a] [b] s).
  rewrite startswith_nil, andb_true_r, N.eqb_sym, fmap_cons.
  destruct (c =? a)%N; f_equal; apply IH; lia.
Qed.

Lemma replace_char a b s :
  replace [a] [b] s = (λ c, if (c =? a)%N then b else c) <$> s.
Proof. apply replace_steps_char. lia. Qed.

Lemma replace_char_gone a b s : a ≠ b -> a ∉ replace [a] [b] s.
Proof.
  intros Hab. rewrite replace_char. intros (c & Hc & _)%list_elem_of_fmap.
  destruct (N.eqb_spec c a); congruence.
Qed.

Lemma replace_char_absent a b s : a ∉ s -> replace [a] [b] s = s.
Proof.
  intros Ha. rewrite replace_char.
  induction s as [|c s IH]; [done|].
  apply not_elem_of_cons in Ha as [Hc Hs]. rewrite fmap_cons.
  rewrite (IH Hs). destruct (N.eqb_spec c a); congruence.
Qed.

Lemma replace_char_keeps_out x a b s :
  x ∉ s -> x ≠ b -> x ∉ replace [a] [b] s.
Proof.
  intros Hx Hb. rewrite replace_char.
  intros (c & Hc & Hin)%list_elem_of_fmap.
  destruct (N.eqb_spec c a); subst; done.
Qed.

End Strings.

(* ===================================================================== *)
(** * The Urdu normaliser *)
(* ===================================================================== *)

Section Normaliser.

Variable U : unicode.

Lemma fold_variants_chars text :
  fold_variants text =
  replace [0x06CC%N] [0x064A%N] (replace [0x06A9%N] [0x0643%N] text).
Proof. reflexivity. Qed.

Lemma fold_variants_no_keheh text : 0x06A9%N ∉ fold_variants text.
Proof.
  rewrite fold_variants_chars.
  apply replace_char_keeps_out; [|done]. by apply replace_char_gone.
Qed.

Lemma fold_variants_no_farsi_yeh text : 0x06CC%N ∉ fold_variants text.
Proof. rewrite fold_variants_chars. by apply replace_char_gone. Qed.

(** Folding changes nothing in a text without the two variants. *)
Lemma fold_variants_fixed text :
  0x06A9%N ∉ text -> 0x06CC%N ∉ text -> fold_variants text = text.
Proof.
  intros Hk Hy. rewrite fold_variants_chars.
  rewrite (replace_char_absent 0x06A9%N) by done.
  by rewrite replace_char_absent.
Qed.

(** The whitespace normalisation cannot bring a variant back. *)
Lemma collapse_strip_keeps_out (x : N) text :
  x ≠ 0x20%N -> x ∉ text -> x ∉ collapse_ws (strip text).
Proof.
  intros Hx Hout [Hin|E]%elem_of_collapse_ws; [|done].
  by apply Hout, elem_of_strip.
Qed.

Lemma normalize_urdu_out (x : N) text :
  x ≠ 0x20%N -> x ∉ fold_variants (nfkc U text) ->
  x ∉ normalize_urdu U text.
Proof. intros. unfold normalize_urdu. by apply collapse_strip_keeps_out. Qed.

(** C10. Whatever the input, the output of [normalize_urdu] holds no
    KEHEH (U+06A9) and no FARSI YEH (U+06CC): after the NFKC step both
    are folded to ARABIC KAF (U+0643) and ARABIC YEH (U+064A), and the
    whitespace normalisation that follows adds nothing but spaces. *)
Theorem normalize_urdu_no_variants text :
  (0x06A9%N ∉ normalize_urdu U text) ∧ (0x06CC%N ∉ normalize_urdu U text).
Proof.
  split; apply normalize_urdu_out; try done.
  - apply fold_variants_no_keheh.
  - apply fold_variants_no_farsi_yeh.
Qed.

(** C6, amended. [normalize_urdu] applied to its own output returns it
    unchanged whenever that output is stable under NFKC, that is,
    whenever folding the two variants has not made a sequence that NFKC
    composes. *)
Theorem normalize_urdu_idempotent_on_stable text :
  nfkc U (normalize_urdu U text) = normalize_urdu U text ->
  normalize_urdu U (normalize_urdu U text) = normalize_urdu U text.
Proof.
  intros Hstable.
  unfold normalize_urdu at 1. rewrite Hstable.
  rewrite fold_variants_fixed.
  - unfold normalize_urdu. apply collapse_strip_idem.
  - apply normalize_urdu_out; [done | apply fold_variants_no_keheh].
  - apply normalize_urdu_out; [done | apply fold_variants_no_farsi_yeh].
Qed.

End Normaliser.

(** NFKC sends the presentation forms of the two letters to the letters
    themselves, which are then folded. *)
Example normalize_urdu_presentation_forms :
  normalize_urdu Ucd.tables [0xFB8E; 0x20; 0x20; 0xFBFC]%N
  = [0x0643; 0x20; 0x064A]%N.
Proof. reflexivity. Qed.

(** C6, as stated, fails: FARSI YEH followed by HAMZA ABOVE (U+06CC
    U+0654) is stable under NFKC and is folded to U+064A U+0654, which a
    second normalisation composes into U+0626. *)
Lemma normalize_urdu_not_idempotent :
  normalize_urdu Ucd.tables [0x06CC; 0x0654]%N = [0x064A; 0x0654]%N ∧
  normalize_urdu Ucd.tables (normalize_urdu Ucd.tables [0x06CC; 0x0654]%N)
  = [0x0626]%N ∧
  normalize_urdu Ucd.tables (normalize_urdu Ucd.tables [0x06CC; 0x0654]%N)
  ≠ normalize_urdu Ucd.tables [0x06CC; 0x0654]%N.
Proof. vm_compute. repeat split; congruence. Qed.

Lemma normalize_urdu_idempotent_on_stable_witness :
  nfkc Ucd.tables (normalize_urdu Ucd.tables (u "  کتاب   یہ ہے "))
  = normalize_urdu Ucd.tables (u "  کتاب   یہ ہے ") ∧
  normalize_urdu Ucd.tables (normalize_urdu Ucd.tables (u "  کتاب   یہ ہے "))
  = normalize_urdu Ucd.tables (u "  کتاب   یہ ہے ").
Proof.
  split; [reflexivity|].
  apply (normalize_urdu_idempotent_on_stable Ucd.tables). reflexivity.
Defined.

(* ===================================================================== *)
(** * The sentence segmenter *)
(* ===================================================================== *)

(** What the splitting and the filter do to the example of the
    specification: of the four fragments, only one has three words. *)
Example example_fragments :
  re_split_class (u ".!?") (u "Hello world. This is fine. Ok.")
  = [u "Hello world"; u " This is fine"; u " Ok"; u ""] ∧
  clean_and_filter (re_split_class (u ".!?") (u "Hello world. This is fine. Ok."))
  = [u "This is fine"] ∧
  len (split (u "Hello world")) = 2 ∧ len (split (u "Ok")) = 1.
Proof. vm_compute. done. Qed.

(** C1, as stated, fails: the result is not the two sentences
    "Hello world." and "This is fine.". *)
Lemma example_not_two_sentences :
  _regex_sentence_split (u "Hello world. This is fine. Ok.") (u "en")
  ≠ [u "Hello world."; u "This is fine."].
Proof. vm_compute. congruence. Qed.

(** C1, amended. For "Hello world. This is fine. Ok." and language 'en',
    segmentation returns exactly ["This is fine"]: the fragments
    "Hello world" (two words) and "Ok" (one word) are dropped by the
    filter that asks for three words, and the sentence kept, being the
    last one, gets no terminator. *)
Theorem example_one_sentence :
  _regex_sentence_split (u "Hello world. This is fine. Ok.") (u "en")
  = [u "This is fine"].
Proof. vm_compute. reflexivity. Qed.

(* ===================================================================== *)
(** * Words, slices and ranges *)
(* ===================================================================== *)

Section Words.

Implicit Types (s cur w : pystr) (ws : list pystr).

Lemma split_from_tokens cur s :
  Forall (λ c, isspace c = false) cur ->
  Forall is_token (split_from cur s).
Proof.
  revert cur. induction s as [|c s IH]; intros cur Hcur; simpl.
  - destruct cur as [|d cur]; [done|].
    apply Forall_singleton. split.
    + simpl. by destruct (rev cur).
    + apply Forall_forall. intros x Hx%list_elem_of_In%in_rev%list_elem_of_In.
      by eapply Forall_forall in Hcur.
  - destruct (isspace c) eqn:Hc.
    + destruct cur as [|d cur]; [by apply IH|].
      apply Forall_cons. split; [|by apply IH].
      split.
      * simpl. by destruct (rev cur).
      * apply Forall_forall. intros x Hx%list_elem_of_In%in_rev%list_elem_of_In.
        by eapply Forall_forall in Hcur.
    + apply IH. by apply Forall_cons.
Qed.

(** Every word of [s.split()] is non-empty and free of whitespace. *)
Lemma split_tokens s : Forall is_token (split s).
Proof. by apply split_from_tokens. Qed.

Lemma join_cons_cons sep w w' ws :
  join sep (w :: w' :: ws) = w ++ sep ++ join sep (w' :: ws).
Proof. done. Qed.

(** Joined words start with the first word. *)
Lemma join_tokens_starts_clean sep ws :
  Forall is_token ws -> starts_clean (join sep ws).
Proof.
  destruct ws as [|w ws]; [done|].
  intros [[Hne Hw] _]%Forall_cons.
  destruct w as [|c w]; [done|].
  apply Forall_cons in Hw as [Hc _].
  destruct ws; simpl; done.
Qed.

Lemma rstrip_nonempty s : s ≠ [] -> starts_clean s -> rstrip s ≠ [].
Proof.
  destruct s as [|c s]; [done|]. simpl. intros _ Hc.
  rewrite rstrip_cons, Hc. by destruct (rstrip s).
Qed.

(** A chunk made of words is never blank. *)
Lemma strip_join_tokens ws :
  ws ≠ [] -> Forall is_token ws -> strip (join (u " ") ws) ≠ [].
Proof.
  intros Hne Hws. unfold strip.
  pose proof (join_tokens_starts_clean (u " ") ws Hws) as Hstart.
  rewrite (lstrip_clean _ Hstart).
  apply rstrip_nonempty; [|done].
  destruct ws as [|w ws]; [done|].
  apply Forall_cons in Hws as [[Hw _] _].
  destruct w; [done|]. by destruct ws.
Qed.

(** Joining joined groups is joining all the words. *)
Lemma join_concat sep (groups : list (list pystr)) :
  Forall (λ g, g ≠ []) groups ->
  join sep (join sep <$> groups) = join sep (concat groups).
Proof.
  assert (Happ : ∀ g h : list pystr, g ≠ [] -> h ≠ [] ->
            join sep (g ++ h) = join sep g ++ sep ++ join sep h).
  { induction g as [|w g IHg]; intros h Hg Hh; [done|].
    destruct g as [|w' g].
    - destruct h; done.
    - rewrite <- !app_comm_cons, !join_cons_cons, app_comm_cons.
      rewrite IHg by done. by rewrite <- !app_assoc. }
  induction groups as [|g groups IH]; intros Hall; [done|].
  apply Forall_cons in Hall as [Hg Hall]. specialize (IH Hall).
  destruct groups as [|h groups].
  - simpl. by rewrite app_nil_r.
  - rewrite fmap_cons, fmap_cons, join_cons_cons, <- fmap_cons, IH.
    change (concat (g :: h :: groups)) with (g ++ concat (h :: groups)).
    rewrite Happ; [done..|].
    apply Forall_cons in Hall as [Hh _].
    simpl. by destruct h.
Qed.

(** ** [' '.join(s.split())] is [re.sub(r'\s+', ' ', s.strip())] *)

Lemma split_from_all_space cur s :
  forallb isspace s = true -> split_from cur s = emit cur.
Proof.
  revert cur. induction s as [|c s IH]; intros cur; simpl; [done|].
  intros [Hc Hs]%andb_true_iff. rewrite Hc.
  rewrite (IH [] Hs). by destruct cur.
Qed.

Lemma split_lstrip s : split (lstrip s) = split s.
Proof.
  unfold split. induction s as [|c s IH]; simpl; [done|].
  destruct (isspace c) eqn:Hc; [done|]. simpl. by rewrite Hc.
Qed.

Lemma rstrip_nil_all_space s : rstrip s = [] -> forallb isspace s = true.
Proof.
  induction s as [|c s IH]; [done|]. rewrite rstrip_cons.
  destruct (rstrip s); [|done].
  destruct (isspace c) eqn:Hc; [|done]. intros _. simpl. by rewrite Hc, IH.
Qed.

Lemma split_from_rstrip cur s : split_from cur (rstrip s) = split_from cur s.
Proof.
  revert cur. induction s as [|c s IH]; intros cur; [done|].
  rewrite rstrip_cons. destruct (rstrip s) as [|d r] eqn:E.
  - pose proof (rstrip_nil_all_space s E) as Hs.
    destruct (isspace c) eqn:Hc; simpl; rewrite Hc.
    + rewrite (split_from_all_space [] s Hs). by destruct cur.
    + by rewrite (split_from_all_space (c :: cur) s Hs).
  - change (split_from cur (c :: d :: r))
      with (if isspace c
            then match cur with
                 | [] => split_from [] (d :: r)
                 | _ => rev cur :: split_from [] (d :: r)
                 end
            else split_from (c :: cur) (d :: r)).
    by rewrite !IH.
Qed.

Lemma split_strip s : split (strip s) = split s.
Proof. unfold strip, split. by rewrite split_from_rstrip, split_lstrip. Qed.

Lemma split_from_nonempty cur s : cur ≠ [] -> split_from cur s ≠ [].
Proof.
  revert cur. induction s as [|c s IH]; intros cur Hcur; simpl.
  - by destruct cur.
  - destruct (isspace c); [by destruct cur|]. by apply IH.
Qed.

Lemma ends_clean_tail c d s : ends_clean (c :: d :: s) -> ends_clean (d :: s).
Proof. unfold ends_clean. by rewrite last_cons_cons. Qed.

(** On a text that does not end in whitespace, joining the words that
    [split_from] finds gives the pending word followed by the collapsed
    text; a word [w] already closed is followed by a single space. *)
Lemma join_split_from s :
  ends_clean s ->
  (∀ cur, cur ≠ [] ∨ starts_clean s ->
     join (u " ") (split_from cur s) = rev cur ++ collapse_ws s) ∧
  (∀ w, ¬ starts_clean s ->
     join (u " ") (w :: split_from [] s) = w ++ collapse_ws s).
Proof.
  induction s as [|c s IH]; intros Hend.
  - split; [|by intros w []].
    intros cur _. simpl. rewrite app_nil_r. by destruct cur.
  - assert (Hsecond : ∀ w, ¬ starts_clean (c :: s) ->
              join (u " ") (w :: split_from [] (c :: s))
              = w ++ collapse_ws (c :: s)).
    { intros w Hc. simpl in Hc. apply not_false_is_true in Hc.
      destruct s as [|d s]; [unfold ends_clean in Hend; simpl in Hend; congruence|].
      destruct (IH (ends_clean_tail _ _ _ Hend)) as [IH1 IH2].
      change (split_from [] (c :: d :: s))
        with (if isspace c then split_from [] (d :: s)
              else split_from [c] (d :: s)).
      change (collapse_ws (c :: d :: s))
        with (if isspace c
              then if isspace d then collapse_ws (d :: s)
                   else 0x20%N :: collapse_ws (d :: s)
              else c :: collapse_ws (d :: s)).
      rewrite Hc. destruct (isspace d) eqn:Hd.
      - apply IH2. simpl. congruence.
      - specialize (IH1 [] (or_intror Hd)). simpl rev in IH1.
        rewrite app_nil_l in IH1.
        assert (split_from [] (d :: s) ≠ []) as Hne.
        { simpl. rewrite Hd. by apply split_from_nonempty. }
        destruct (split_from [] (d :: s)) as [|w' ws'] eqn:E; [done|].
        rewrite join_cons_cons, IH1. done. }
    split; [|exact Hsecond].
    intros cur Hcur. destruct (isspace c) eqn:Hc.
    + assert (cur ≠ []) as Hne by (destruct Hcur as [?|H]; [done|simpl in H; congruence]).
      change (split_from cur (c :: s))
        with (if isspace c
              then match cur with
                   | [] => split_from [] s
                   | _ => rev cur :: split_from [] s
                   end
              else split_from (c :: cur) s).
      rewrite Hc. destruct cur as [|e cur]; [done|].
      rewrite <- (Hsecond (rev (e :: cur))) by (simpl; congruence).
      simpl split_from at 2. by rewrite Hc.
    + change (split_from cur (c :: s))
        with (if isspace c
              then match cur with
                   | [] => split_from [] s
                   | _ => rev cur :: split_from [] s
                   end
              else split_from (c :: cur) s).
      rewrite Hc, collapse_ws_cons_nonspace by done.
      destruct s as [|d s].
      * simpl. by rewrite <- ?app_assoc.
      * destruct (IH (ends_clean_tail _ _ _ Hend)) as [IH1 _].
        rewrite IH1 by (by left). simpl. by rewrite <- ?app_assoc.
Qed.

(** The two ways the code normalises whitespace agree. *)
Lemma join_split_collapse s :
  join (u " ") (split s) = collapse_ws (strip s).
Proof.
  rewrite <- split_strip. unfold split.
  destruct (join_split_from (strip s) (strip_ends_clean s)) as [H _].
  rewrite H; [done|]. right. apply strip_starts_clean.
Qed.

End Words.

Section Slices.

Context {A : Type}.
Implicit Types (l : list A).

Lemma len_nonneg l : 0 <= len l.
Proof. unfold len. lia. Qed.

(** [l[:k]] for [0 <= k]. *)
Lemma slice_prefix l (k : Z) : 0 <= k -> slice l 0 k = take (Z.to_nat k) l.
Proof.
  intros Hk. unfold slice, slice_bound, len.
  replace (0 <? 0) with false by done.
  destruct (Z.ltb_spec k 0); [lia|].
  rewrite (Z.min_l 0) by lia. simpl. rewrite drop_0, Z.sub_0_r.
  destruct (Z.le_gt_cases k (Z.of_nat (length l))).
  - by rewrite Z.min_l by lia.
  - rewrite Z.min_r by lia. rewrite Nat2Z.id.
    rewrite !take_ge; [done|lia..].
Qed.

(** [l[i:i+m]] when [i] is inside [l]. *)
Lemma slice_window l (i m : Z) :
  0 <= i < len l -> 0 < m ->
  slice l i (i + m) = take (Z.to_nat m) (drop (Z.to_nat i) l).
Proof.
  intros Hi Hm. unfold slice, slice_bound. unfold len in *.
  destruct (Z.ltb_spec i 0); [lia|].
  destruct (Z.ltb_spec (i + m) 0); [lia|].
  rewrite (Z.min_l i) by lia.
  destruct (Z.le_gt_cases (i + m) (Z.of_nat (length l))).
  - rewrite Z.min_l by lia. f_equal. lia.
  - rewrite Z.min_r by lia.
    rewrite !take_ge; [done|rewrite length_drop; lia..].
Qed.

Lemma groups_of_S size count l :
  groups_of size (S count) l = take size l :: groups_of size count (drop size l).
Proof.
  unfold groups_of. rewrite <- cons_seq, fmap_cons. simpl. rewrite drop_0.
  f_equal. rewrite <- fmap_S_seq, <- list_fmap_compose.
  apply list_fmap_ext. intros _ k _. simpl.
  by rewrite drop_drop, Nat.add_comm.
Qed.

Lemma groups_of_concat size count l :
  (length l <= count * size)%nat -> concat (groups_of size count l) = l.
Proof.
  revert l. induction count as [|count IH]; intros l Hlen.
  - simpl in Hlen. by destruct l; [|simpl in Hlen; lia].
  - rewrite groups_of_S. simpl concat. rewrite IH.
    + apply take_drop.
    + rewrite length_drop. simpl in Hlen. lia.
Qed.

Lemma groups_of_lookup size count l k g :
  groups_of size count l !! k = Some g ->
  (k < count)%nat ∧ g = take size (drop (k * size) l).
Proof.
  unfold groups_of. rewrite list_lookup_fmap.
  destruct (seq 0 count !! k) as [j|] eqn:E; [|done].
  apply lookup_seq in E as [-> ?]. simpl. intros [= <-]. done.
Qed.

Lemma groups_of_length size count l : length (groups_of size count l) = count.
Proof. unfold groups_of. by rewrite length_fmap, length_seq. Qed.

End Slices.

Lemma range_len_bounds (n m : Z) :
  0 < m -> 0 <= n ->
  (Z.of_nat (range_len 0 n m) - 1) * m < n <= Z.of_nat (range_len 0 n m) * m
  ∨ (n = 0 ∧ range_len 0 n m = 0%nat).
Proof.
  intros Hm Hn. unfold range_len.
  destruct (Z.ltb_spec 0 m); [|lia].
  replace (n - 0 + m - 1) with (n + m - 1) by lia.
  pose proof (Z.div_mod (n + m - 1) m ltac:(lia)) as Hdiv.
  pose proof (Z.mod_pos_bound (n + m - 1) m Hm) as Hmod.
  assert (0 <= (n + m - 1) / m) by (apply Z.div_pos; lia).
  left. rewrite Z2Nat.id by done. nia.
Qed.

Lemma filter_all {A} (p : A -> bool) (l : list A) :
  Forall (λ x, p x = true) l -> List.filter p l = l.
Proof.
  induction 1 as [|x l Hx _ IH]; [done|]. simpl. by rewrite Hx, IH.
Qed.

(* ===================================================================== *)
(** * The chunker *)
(* ===================================================================== *)

Section Chunker.

Lemma default_max_words_pos language : 0 < default_max_words language.
Proof. unfold default_max_words. destruct (decide _); lia. Qed.

(** The chunk built at each index of the range is a group of words. *)
Lemma chunk_windows (words : list pystr) (m : Z) :
  0 < m ->
  chunk_at words m <$> range 0 (len words) m
  = join (u " ") <$> groups_of (Z.to_nat m) (range_len 0 (len words) m) words.
Proof.
  intros Hm. unfold range, groups_of. rewrite <- !list_fmap_compose.
  apply list_fmap_ext. intros i k [-> Hk]%lookup_seq.
  unfold compose, chunk_at. f_equal.
  destruct (range_len_bounds (len words) m Hm (len_nonneg words))
    as [Hb|[_ E]]; [|lia].
  rewrite Nat.add_0_l, Z.add_0_l.
  rewrite slice_window; [|nia|done].
  do 2 f_equal. rewrite Z2Nat.inj_mul, Nat2Z.id; lia.
Qed.

Lemma groups_of_words_bounds (words : list pystr) (m : Z) i g :
  0 < m ->
  groups_of (Z.to_nat m) (range_len 0 (len words) m) words !! i = Some g ->
  0 < len g <= m ∧
  ((S i < range_len 0 (len words) m)%nat -> len g = m).
Proof.
  intros Hm [Hi ->]%groups_of_lookup.
  destruct (range_len_bounds (len words) m Hm (len_nonneg words))
    as [Hb|[_ E]]; [|lia].
  unfold len in *. rewrite length_take, length_drop. split; [nia|].
  intros Hlast. nia.
Qed.

(** C5. With a positive [max_words] (the defaults are 300 for 'ur' and
    500 for 'en'), [chunk_text] returns the words of the text in
    consecutive groups, each joined with single spaces: the groups in
    order make up [text.split()], each has between 1 and [max_words]
    words and every one but the last has exactly [max_words], no chunk
    is empty, and the chunks joined with single spaces are the words of
    the text joined with single spaces, which is the text stripped with
    every run of whitespace replaced by one space. *)
Theorem chunk_text_groups (text language : pystr) (max_words : option Z) :
  (∀ m, max_words = Some m -> 0 < m) ->
  ∃ groups : list (list pystr),
    chunk_text text language max_words = Ok (join (u " ") <$> groups) ∧
    concat groups = split text ∧
    (∀ i g, groups !! i = Some g ->
       0 < len g <= default (if decide (language = u "ur") then 300 else 500)
                            max_words ∧
       ((S i < length groups)%nat ->
        len g = default (if decide (language = u "ur") then 300 else 500)
                        max_words)) ∧
    Forall (λ chunk, chunk ≠ []) (join (u " ") <$> groups) ∧
    join (u " ") (join (u " ") <$> groups) = join (u " ") (split text) ∧
    join (u " ") (join (u " ") <$> groups) = collapse_ws (strip text) ∧
    default_max_words (u "ur") = 300 ∧ default_max_words (u "en") = 500.
Proof.
  intros Hpos.
  set (m := default (if decide (language = u "ur") then 300 else 500) max_words).
  assert (Hm : 0 < m).
  { subst m. destruct max_words as [m|]; simpl; [by apply Hpos|].
    destruct (decide _); lia. }
  assert (Hchunk : chunk_text text language max_words
            = Ok (List.filter
                    (λ chunk, negb (bool_decide (strip chunk = [])))
                    (chunk_at (split text) m <$> range 0 (len (split text)) m))).
  { unfold chunk_text.
    replace (match max_words with
             | Some m0 => m0
             | None => default_max_words language
             end) with m by (subst m; by destruct max_words).
    destruct (Z.eqb_spec m 0); [lia|done]. }
  set (groups := groups_of (Z.to_nat m) (range_len 0 (len (split text)) m)
                           (split text)).
  assert (Hbounds : ∀ i g, groups !! i = Some g ->
            0 < len g <= m ∧ ((S i < length groups)%nat -> len g = m)).
  { intros i g Hg. subst groups. rewrite groups_of_length.
    by apply groups_of_words_bounds. }
  assert (Hcat : concat groups = split text).
  { subst groups. apply groups_of_concat.
    destruct (range_len_bounds (len (split text)) m Hm (len_nonneg _))
      as [Hb|[E _]]; unfold len in *; nia. }
  assert (Hne : Forall (λ g : list pystr, g ≠ []) groups).
  { apply Forall_lookup. intros i g Hg.
    destruct (Hbounds i g Hg) as [Hlen _]. intros ->. unfold len in Hlen.
    simpl in Hlen. lia. }
  assert (Htok : Forall (Forall is_token) groups).
  { apply Forall_forall. intros g Hg. apply Forall_forall. intros w Hw.
    pose proof (split_tokens text) as Hall.
    eapply Forall_forall in Hall; [done|].
    rewrite <- Hcat. apply list_elem_of_In, in_concat.
    exists g. split; by apply list_elem_of_In. }
  assert (Hblank : Forall (λ chunk, strip chunk ≠ []) (join (u " ") <$> groups)).
  { apply Forall_fmap, Forall_forall. intros g Hg. simpl.
    apply strip_join_tokens.
    - by eapply Forall_forall in Hne.
    - by eapply Forall_forall in Htok. }
  exists groups. split; [|split; [done|split; [done|split; [|split; [|split]]]]].
  - rewrite Hchunk, chunk_windows by done. f_equal.
    apply filter_all. eapply Forall_impl; [exact Hblank|].
    intros chunk Hc. simpl. by rewrite bool_decide_eq_false_2.
  - eapply Forall_impl; [exact Hblank|]. by intros chunk Hc ->.
  - by rewrite join_concat, Hcat.
  - by rewrite join_concat, Hcat, join_split_collapse.
  - done.
Qed.

End Chunker.

Lemma chunk_text_groups_witness :
  (∀ m, Some 2 = Some m -> 0 < m) ∧
  ∃ groups : list (list pystr),
    chunk_text (u " a b  c d e ") (u "en") (Some 2)
    = Ok (join (u " ") <$> groups) ∧
    concat groups = split (u " a b  c d e ").
Proof.
  assert (H : ∀ m, Some 2 = Some m -> 0 < m) by (intros m [= <-]; lia).
  split; [exact H|].
  destruct (chunk_text_groups (u " a b  c d e ") (u "en") (Some 2) H)
    as (groups & H1 & H2 & _).
  by exists groups.
Defined.

(* ===================================================================== *)
(** * The key-phrase extractor *)
(* ===================================================================== *)

Section Dict.

Context {V : Type}.
Implicit Types (d : dict V) (k : pystr) (v : V).

Lemma dset_keys d k v :
  (dset d k v).*1 = if decide (k ∈ d.*1) then d.*1 else d.*1 ++ [k].
Proof.
  induction d as [|[k' v'] d IH].
  - destruct (decide (k ∈ _)) as [Hin|_]; [by apply elem_of_nil in Hin|done].
  - rewrite fmap_cons. cbn [dset fst].
    destruct (decide (k' = k)) as [->|Hne].
    + destruct (decide (k ∈ k :: d.*1)) as [_|Hout]; [done|].
      exfalso. apply Hout. left.
    + rewrite fmap_cons, IH. cbn [fst].
      destruct (decide (k ∈ d.*1)) as [Hin|Hout];
        destruct (decide (k ∈ k' :: d.*1)) as [Hin'|Hout']; try done.
      * exfalso. apply Hout'. by right.
      * apply elem_of_cons in Hin' as [?|?]; congruence.
Qed.

Lemma dget_dset d k v k' dflt :
  dget (dset d k v) k' dflt = if decide (k' = k) then v else dget d k' dflt.
Proof.
  induction d as [|[k0 v0] d IH]; simpl.
  - destruct (decide (k = k')), (decide (k' = k)); congruence.
  - destruct (decide (k0 = k)) as [->|Hne]; simpl.
    + destruct (decide (k = k')), (decide (k' = k)); congruence.
    + destruct (decide (k0 = k')) as [->|Hne'].
      * by rewrite decide_False.
      * apply IH.
Qed.

Lemma dget_elem d k v dflt :
  NoDup d.*1 -> (k, v) ∈ d -> dget d k dflt = v.
Proof.
  induction d as [|[k0 v0] d IH]; simpl; [by intros _ ?%elem_of_nil|].
  intros [Hk0 Hnd]%NoDup_cons [[= -> ->]|Hin]%elem_of_cons.
  - by rewrite decide_True.
  - rewrite decide_False; [by apply IH|].
    intros ->. apply Hk0. apply list_elem_of_fmap. by exists (k, v).
Qed.

End Dict.

Section Counting.

Variable sw : list pystr.
Implicit Types (w a b : pystr) (l seen : list pystr) (d : dict Z).

Lemma occurrences_app w l1 l2 :
  occurrences w (l1 ++ l2) = occurrences w l1 + occurrences w l2.
Proof. induction l1 as [|x l1 IH]; simpl; [done|]. rewrite IH. lia. Qed.

Lemma occurrences_absent w l : w ∉ l -> occurrences w l = 0.
Proof.
  induction l as [|x l IH]; [done|].
  intros [Hx Hl]%not_elem_of_cons. simpl. rewrite IH by done.
  by rewrite decide_False.
Qed.

Lemma seen_before_app l r a b : seen_before l a b -> seen_before (l ++ r) a b.
Proof.
  intros (Hab & pre & post & -> & Hb). split; [done|].
  exists pre, (post ++ r). by rewrite <- app_assoc.
Qed.

Lemma before_app_l {A} (l r : list A) p q : before l p q -> before (l ++ r) p q.
Proof.
  intros (i & j & Hij & Hi & Hj). exists i, j.
  split_and!; [done|by apply lookup_app_l_Some..].
Qed.

Lemma before_snoc {A} (l : list A) x p q :
  before (l ++ [x]) p q -> before l p q ∨ (p ∈ l ∧ q = x).
Proof.
  intros (i & j & Hij & Hi & Hj).
  apply lookup_snoc_Some in Hj as [[Hj1 Hj2]|[Hj1 Hj2]].
  - left. exists i, j. split_and!; [done| |done].
    apply lookup_snoc_Some in Hi as [[_ Hi]|[Hi _]]; [done|lia].
  - right. split; [|done].
    apply lookup_snoc_Some in Hi as [[_ Hi]|[Hi _]]; [|lia].
    by eapply list_elem_of_lookup_2.
Qed.

Lemma counts_inv_nil : counts_inv sw [] [].
Proof.
  split_and!.
  - constructor.
  - intros w. split; [by intros ?%elem_of_nil|by intros [_ ?%elem_of_nil]].
  - done.
  - intros a b (i & j & _ & Hi & _). done.
Qed.

(** One turn of the counting loop. *)
Lemma counts_inv_step seen d w :
  counts_inv sw seen d -> counts_inv sw (seen ++ [w]) (count_word sw d w).
Proof.
  intros (Hnd & Hkeys & Hget & Hord). unfold count_word.
  destruct (counted sw w) eqn:Hw.
  - split_and!.
    + rewrite dset_keys. destruct (decide _) as [Hin|Hout]; [done|].
      apply NoDup_app. split_and!; [done| |apply NoDup_singleton].
      intros x Hx ->%list_elem_of_singleton. done.
    + intros x. rewrite dset_keys, elem_of_app, list_elem_of_singleton.
      destruct (decide (w ∈ d.*1)) as [Hin|Hout].
      * rewrite Hkeys. split; [intros [? ?]; auto|].
        intros [Hx [?| ->]]; [done|]. by apply Hkeys.
      * rewrite elem_of_app, list_elem_of_singleton, Hkeys.
        split; [intros [[? ?]| ->]; auto | intros [? [?| ->]]; auto].
    + intros x Hx. rewrite dget_dset, occurrences_app. simpl.
      destruct (decide (x = w)) as [->|Hne].
      * rewrite decide_True by done. rewrite Hget by done. lia.
      * rewrite decide_False by done. rewrite Hget by done. lia.
    + intros a b. rewrite dset_keys.
      destruct (decide (w ∈ d.*1)) as [Hin|Hout].
      * intros H. by apply seen_before_app, Hord.
      * intros [H|[Ha ->]]%before_snoc; [by apply seen_before_app, Hord|].
        assert (w ∉ seen) as Hnew by (intros ?; apply Hout, Hkeys; done).
        apply Hkeys in Ha as [_ Ha].
        apply list_elem_of_split in Ha as (pre & post & ->).
        split; [intros ->; apply Hnew, elem_of_app; right; left|].
        exists pre, (post ++ [w]). split; [by rewrite <- app_assoc|].
        intros ?. apply Hnew, elem_of_app. by left.
  - split_and!; [done| | |].
    + intros x. rewrite Hkeys, elem_of_app, list_elem_of_singleton.
      split; [intros [? ?]; auto|]. intros [Hx [?| ->]]; [done|congruence].
    + intros x Hx. rewrite occurrences_app, Hget by done. simpl.
      rewrite decide_False by congruence. lia.
    + intros a b H. by apply seen_before_app, Hord.
Qed.

Lemma counts_inv_fold rest seen d :
  counts_inv sw seen d ->
  counts_inv sw (seen ++ rest) (fold_left (count_word sw) rest d).
Proof.
  revert seen d. induction rest as [|w rest IH]; intros seen d Hinv; simpl.
  - by rewrite app_nil_r.
  - replace (seen ++ w :: rest) with ((seen ++ [w]) ++ rest)
      by (by rewrite <- app_assoc).
    by apply IH, counts_inv_step.
Qed.

(** After the loop, the dictionary holds the counted words in the order
    they were first met, each with its number of occurrences. *)
Lemma count_words_inv words : counts_inv sw words (count_words sw words).
Proof. apply (counts_inv_fold words [] []), counts_inv_nil. Qed.

End Counting.

Section StableSort.

Context {A : Type} (key : A -> Z).
Implicit Types (l s : list A) (x p q : A).

Lemma insert_desc_perm x s : insert_desc key x s ≡ₚ x :: s.
Proof.
  induction s as [|y s IH]; simpl; [done|].
  destruct (key y <=? key x); [done|].
  rewrite IH. apply Permutation_swap.
Qed.

Lemma sorted_desc_perm l : sorted_desc key l ≡ₚ l.
Proof.
  induction l as [|x l IH]; simpl; [done|].
  by rewrite insert_desc_perm, IH.
Qed.

Lemma StronglySorted_weaken (R R' : relation A) s :
  (∀ p q, R p q -> R' p q) -> StronglySorted R s -> StronglySorted R' s.
Proof.
  intros HR. induction 1 as [|p s _ IH Hall]; constructor; [done|].
  eapply Forall_impl; [exact Hall|]. auto.
Qed.

Lemma before_cons l x p q : before l p q -> before (x :: l) p q.
Proof.
  intros (i & j & Hij & Hi & Hj). exists (S i), (S j).
  split_and!; [lia|done..].
Qed.

Lemma before_head l x q : q ∈ l -> before (x :: l) x q.
Proof.
  intros (j & Hj)%list_elem_of_lookup_1. exists 0%nat, (S j).
  split_and!; [lia|done..].
Qed.

(** Inserting [x], which stood in front of the items of [l], into the
    sorted items of [l] keeps the order of a stable sort. *)
Lemma insert_desc_sorted l x s :
  (∀ q, q ∈ s -> q ∈ l) ->
  StronglySorted (stable_desc key l) s ->
  StronglySorted (stable_desc key (x :: l)) (insert_desc key x s).
Proof.
  intros Hsub Hs. induction Hs as [|y s Hs IH Hall]; simpl.
  - repeat constructor.
  - assert (Htail : StronglySorted (stable_desc key (x :: l)) (y :: s)).
    { eapply StronglySorted_weaken; [|by constructor].
      intros p q [H1 H2]. split; [done|]. intros E. by apply before_cons, H2. }
    destruct (Z.leb_spec (key y) (key x)) as [Hle|Hgt].
    + constructor; [done|]. apply Forall_forall. intros z Hz.
      assert (key z <= key y) as Hzy.
      { apply elem_of_cons in Hz as [->|Hz]; [lia|].
        eapply Forall_forall in Hall as [H _]; [|done]. done. }
      split; [lia|]. intros _. apply before_head, Hsub, Hz.
    + constructor.
      * apply IH. intros q Hq. apply Hsub. by right.
      * apply Forall_forall. intros z Hz.
        rewrite insert_desc_perm in Hz.
        apply elem_of_cons in Hz as [->|Hz].
        -- split; lia.
        -- apply StronglySorted_cons in Htail as [Hall' _].
           by eapply Forall_forall in Hall'.
Qed.

(** [sorted_desc] sorts by decreasing key and keeps the order of items
    with equal keys. *)
Lemma sorted_desc_stable l :
  StronglySorted (stable_desc key l) (sorted_desc key l).
Proof.
  induction l as [|x l IH]; simpl; [constructor|].
  apply insert_desc_sorted; [|done].
  intros q. by rewrite sorted_desc_perm.
Qed.

Lemma StronglySorted_elem_of (R : relation A) s :
  StronglySorted R s ->
  StronglySorted (λ p q, p ∈ s ∧ q ∈ s ∧ R p q) s.
Proof.
  induction 1 as [|p s _ IH Hall]; constructor.
  - eapply StronglySorted_weaken; [|exact IH].
    intros a b (? & ? & ?). split_and!; [by right..|done].
  - apply Forall_forall. intros q Hq. split_and!; [left|by right|].
    by eapply Forall_forall in Hall.
Qed.

Lemma StronglySorted_take (R : relation A) n s :
  StronglySorted R s -> StronglySorted R (take n s).
Proof.
  intros Hs. rewrite <- (take_drop n s) in Hs.
  by apply StronglySorted_app_1_l in Hs.
Qed.

End StableSort.

Section KeyPhrases.

Variable U : unicode.

Lemma before_fmap {A B} (f : A -> B) (l : list A) p q :
  before l p q -> before (f <$> l) (f p) (f q).
Proof.
  intros (i & j & Hij & Hi & Hj). exists i, j.
  rewrite !list_lookup_fmap, Hi, Hj. done.
Qed.

(** The words in the order the extractor returns them, for the stop
    words [sw]. *)
Lemma ranked_words sw words :
  let phrases := (top_words (count_words sw words)).*1 in
  (length phrases <= 10)%nat ∧
  Forall (λ w, counted sw w = true) phrases ∧
  StronglySorted (ranks words) phrases.
Proof.
  intros phrases. subst phrases. unfold top_words.
  rewrite slice_prefix by lia.
  set (d := count_words sw words).
  destruct (count_words_inv sw words) as (Hnd & Hkeys & Hget & Hord).
  fold d in Hnd, Hkeys, Hget, Hord.
  assert (Hin : ∀ p, p ∈ take (Z.to_nat 10) (sorted_desc snd d) -> p ∈ d).
  { intros p Hp. rewrite <- (sorted_desc_perm snd d).
    by eapply subseteq_take. }
  assert (Hval : ∀ p, p ∈ d ->
            counted sw p.1 = true ∧ snd p = occurrences p.1 words).
  { intros [w v] Hp. simpl.
    assert (w ∈ d.*1) as Hw by (apply list_elem_of_fmap; by exists (w, v)).
    apply Hkeys in Hw as [Hw _]. split; [done|].
    rewrite <- Hget by done. symmetry. by apply dget_elem. }
  split_and!.
  - rewrite length_fmap, length_take. change (Z.to_nat 10) with 10%nat. lia.
  - apply Forall_fmap, Forall_forall. intros p Hp. simpl.
    by apply Hval, Hin.
  - eapply StronglySorted_fmap;
      [|apply StronglySorted_elem_of, StronglySorted_take, sorted_desc_stable].
    intros p q (Hp%Hin & Hq%Hin & Hle & Htie). simpl in Hle, Htie.
    destruct (Hval p Hp) as [_ Ep], (Hval q Hq) as [_ Eq].
    unfold ranks. rewrite <- Ep, <- Eq. split; [done|].
    intros E. apply Hord. by apply before_fmap, Htie.
Qed.

(** C7. For 'ur' and for 'en', [extract_key_phrases] returns at most 10
    words; none of them is a stop word of the language and none has 2
    characters or fewer; they come by decreasing number of occurrences
    among the words scanned, and of two words with the same number the
    one met first in the scan comes first. *)
Theorem extract_key_phrases_ranked (text language : pystr) :
  language = u "ur" ∨ language = u "en" ->
  ∃ sw phrases,
    stop_words language = Some sw ∧
    extract_key_phrases U text language = Ok phrases ∧
    (length phrases <= 10)%nat ∧
    Forall (λ w, (w ∉ sw) ∧ 2 < len w) phrases ∧
    StronglySorted (ranks (tokenize U text language)) phrases.
Proof.
  intros Hlang.
  assert (∃ sw, stop_words language = Some sw) as [sw Hsw].
  { destruct Hlang as [->| ->]; eexists; reflexivity. }
  destruct (ranked_words sw (tokenize U text language)) as (Hlen & Hall & Hs).
  exists sw, (top_words (count_words sw (tokenize U text language))).*1.
  split_and!; [done| |done| |done].
  - unfold extract_key_phrases. by rewrite Hsw.
  - eapply Forall_impl; [exact Hall|]. intros w Hw. unfold counted in Hw.
    apply andb_true_iff in Hw as [Hstop Hlong].
    apply negb_true_iff, bool_decide_eq_false in Hstop.
    apply Z.ltb_lt in Hlong. done.
Qed.

End KeyPhrases.

Lemma extract_key_phrases_ranked_witness :
  (u "en" = u "ur" ∨ u "en" = u "en") ∧
  ∃ sw phrases,
    stop_words (u "en") = Some sw ∧
    extract_key_phrases Ucd.tables
      (u "The cat and the dog: cat, dog, bird; emu, emu. Dog is it!") (u "en")
    = Ok phrases ∧
    phrases = [u "dog"; u "cat"; u "emu"; u "bird"].
Proof.
  split; [by right|].
  destruct (extract_key_phrases_ranked Ucd.tables
              (u "The cat and the dog: cat, dog, bird; emu, emu. Dog is it!")
              (u "en") (or_intror eq_refl))
    as (sw & phrases & Hsw & Hrun & _).
  exists sw, phrases. split_and!; [done..|].
  vm_compute in Hrun. by injection Hrun as <-.
Defined.

(* ===================================================================== *)
(** * The summarisation adapter *)
(* ===================================================================== *)

(** Unfolds the plumbing of methods. *)
Ltac unfold_M :=
  unfold mbind, M_bind, mret, M_ret, try_except, raise, lift, modify, get.

Section Adapter.

Variables (W : world) (U : unicode).

Lemma blank_no_words text : strip text = [] -> split text = [].
Proof. intros E. by rewrite <- split_strip, E. Qed.

Lemma sentinels_differ : EMPTY_INPUT ≠ TOO_SHORT.
Proof. vm_compute. congruence. Qed.

(** C8, amended. On a text of fewer than 20 words [summarize_text]
    returns a fixed sentence, raises nothing and leaves the processor
    as it was, so that no model is loaded or called: the sentence is
    the short-text one when the text has a word, and the different
    empty-input one when the text is empty or blank. *)
Theorem summarize_text_short (text language : pystr)
    (max_length min_length : option Z) (st : processor) :
  len (split text) < 20 ->
  summarize_text W U text language max_length min_length st
  = (Ok (if bool_decide (strip text = []) then EMPTY_INPUT else TOO_SHORT), st)
  ∧ EMPTY_INPUT ≠ TOO_SHORT.
Proof.
  intros Hshort. split; [|apply sentinels_differ].
  unfold summarize_text. destruct (bool_decide (strip text = [])); [done|].
  destruct (Z.ltb_spec (len (split text)) 20); [done|lia].
Qed.

(** ** The summariser in use *)

(** A processor that holds a summariser keeps it, whatever the language
    asked for. *)
Lemma _load_summarizer_cached language st s :
  summarizer st = Some s -> _load_summarizer W language st = (Ok s, st).
Proof. intros E. unfold _load_summarizer. unfold_M. by rewrite E. Qed.

(** A processor without summariser asks for BART when the language is
    'en' and for mT5 otherwise, and for BART again if that fails. *)
Lemma _load_summarizer_first language st :
  summarizer st = None ->
  _load_summarizer W language st =
  try_except
    (load_pipeline W (if decide (language = u "en") then BART else MT5)
                   (Some (if decide (language = u "en") then BART else MT5)))
    (λ _, load_pipeline W BART None) st.
Proof. intros E. unfold _load_summarizer. unfold_M. by rewrite E. Qed.

(** ** Degraded summaries *)

Lemma fallback_summary_clauses language text :
  fallback_summary language text =
  if decide (language = u "ur") then
    join (u "۔") (take 2 (split_on URDU_FULL_STOP text)) ++ u "۔"
  else
    join (u ".") (take 2 (split_on FULL_STOP text)) ++ u ".".
Proof.
  unfold fallback_summary.
  destruct (decide _); rewrite !slice_prefix by lia;
    change (Z.to_nat 2) with 2%nat; change (Z.to_nat 3) with 3%nat;
    by rewrite take_take.
Qed.

Lemma summarize_chunk_paragraph s language max_length min_length chunk st :
  ∃ st', summarize_chunk W U s language max_length min_length chunk st
         = (Ok (paragraph W U s language max_length min_length chunk), st').
Proof.
  unfold summarize_chunk, paragraph. unfold_M.
  destruct (run_summarizer W s _ max_length min_length); eauto.
Qed.

Lemma summarize_chunks_paragraphs s language max_length min_length
    chunks summaries st :
  ∃ st', summarize_chunks W U s language max_length min_length chunks summaries st
         = (Ok (summaries
                ++ (paragraph W U s language max_length min_length <$> chunks)),
            st').
Proof.
  revert summaries st. induction chunks as [|chunk chunks IH];
    intros summaries st; simpl.
  - rewrite app_nil_r. by eexists.
  - unfold mbind, M_bind at 1.
    destruct (summarize_chunk_paragraph s language max_length min_length chunk st)
      as [st1 ->].
    destruct (IH (summaries ++ [paragraph W U s language max_length min_length chunk]) st1)
      as [st2 ->].
    rewrite <- app_assoc. by eexists.
Qed.

Lemma chunk_text_default text language :
  ∃ chunks, chunk_text text language None = Ok chunks.
Proof.
  unfold chunk_text. pose proof (default_max_words_pos language).
  destruct (Z.eqb_spec (default_max_words language) 0); [lia|]. by eexists.
Qed.

(** C3, amended. On a text of at least 20 words: when no summariser can
    be obtained, the exception of the loader reaches the caller;
    otherwise [summarize_text] returns, and each chunk whose call to
    the model raises contributes the marker followed by the first two
    clauses of the chunk, joined and ended by the terminator of the
    language; the paragraphs are joined with blank lines, and when that
    cannot be done the result is built in the same way from the first
    two clauses of the whole text. *)
Theorem summarize_text_degraded (text language : pystr)
    (max_length min_length : option Z) (st : processor) :
  20 <= len (split text) ->
  let max_len := default (if decide (language = u "ur") then 8 else 150) max_length in
  let min_len := default (if decide (language = u "ur") then 3 else 50) min_length in
  match _load_summarizer W language st with
  | (Raise e, st1) =>
      summarize_text W U text language max_length min_length st = (Raise e, st1)
  | (Ok s, st1) =>
      ∃ chunks,
        chunk_text text language None = Ok chunks ∧
        fst (summarize_text W U text language max_length min_length st)
        = Ok (match all_str (paragraph W U s language max_len min_len <$> chunks) with
              | Some paragraphs => join (nl ++ nl) paragraphs
              | None => fallback_summary language text
              end) ∧
        (∀ chunk e,
           run_summarizer W s
             (if is_mt5 W U s then u "summarize: " ++ chunk else chunk)
             max_len min_len = Raise e ->
           paragraph W U s language max_len min_len chunk
           = Str (FALLBACK_MARK ++
                  (if decide (language = u "ur") then
                     join (u "۔") (take 2 (split_on URDU_FULL_STOP chunk)) ++ u "۔"
                   else
                     join (u ".") (take 2 (split_on FULL_STOP chunk)) ++ u ".")))
  end.
Proof.
  intros Hlong max_len min_len.
  assert (Hwords : bool_decide (strip text = []) = false).
  { apply bool_decide_eq_false. intros E%blank_no_words.
    rewrite E in Hlong. unfold len in Hlong. simpl in Hlong. lia. }
  assert (Hrun : summarize_text W U text language max_length min_length st
            = (s ← _load_summarizer W language;
               try_except
                 (chunks ← lift (chunk_text text language None);
                  summaries ← summarize_chunks W U s language
                                max_len min_len chunks [];
                  lift (join_objs (nl ++ nl) summaries))
                 (λ _, mret (fallback_summary language text))) st).
  { unfold summarize_text. rewrite Hwords.
    destruct (Z.ltb_spec (len (split text)) 20); [lia|].
    subst max_len min_len. by destruct max_length, min_length. }
  destruct (_load_summarizer W language st) as [[s|e] st1] eqn:Hload;
    rewrite Hrun; unfold mbind at 1; unfold M_bind at 1; rewrite Hload;
    [|done].
  destruct (chunk_text_default text language) as [chunks Hchunks].
  exists chunks. split; [done|]. split.
  - unfold_M. rewrite Hchunks.
    destruct (summarize_chunks_paragraphs s language max_len min_len chunks [] st1)
      as [st2 ->].
    rewrite app_nil_l. unfold join_objs.
    by destruct (all_str _).
  - intros chunk e Hraise. unfold paragraph. cbv zeta.
    unfold pystr in *. rewrite Hraise.
    by rewrite fallback_summary_clauses.
Qed.

End Adapter.

(** C8, as stated, fails on the empty text: the sentence returned is the
    empty-input one, not the short-text one. *)
Lemma summarize_text_empty_not_short :
  len (split (u "")) < 20 ∧
  fst (summarize_text Scenario.online Ucd.tables (u "") (u "en") None None
         Scenario.fresh)
  = Ok (u "⚠️ Empty input. Skipped.") ∧
  fst (summarize_text Scenario.online Ucd.tables (u "") (u "en") None None
         Scenario.fresh)
  ≠ Ok TOO_SHORT.
Proof. vm_compute. split_and!; congruence. Qed.

Lemma summarize_text_short_witness :
  len (split (u "Only five words are here")) < 20 ∧
  summarize_text Scenario.online Ucd.tables (u "Only five words are here")
    (u "en") None None Scenario.fresh
  = (Ok TOO_SHORT, Scenario.fresh).
Proof.
  assert (H : len (split (u "Only five words are here")) < 20)
    by (vm_compute; reflexivity).
  split; [exact H|].
  destruct (summarize_text_short Scenario.online Ucd.tables
              (u "Only five words are here") (u "en") None None
              Scenario.fresh H) as [Hrun _].
  rewrite Hrun. vm_compute. reflexivity.
Defined.

(** C3, as stated, fails: when neither the preferred model nor BART can
    be loaded, [summarize_text] raises; and when the paragraphs cannot be
    joined, the degraded summary it returns carries no marker. *)
Lemma summarize_text_failure_propagates :
  20 <= len (split Scenario.speech_en) ∧
  fst (summarize_text Scenario.offline Ucd.tables Scenario.speech_en (u "en")
         None None Scenario.fresh)
  = Raise (Exn OSError (u "cannot load the model")) ∧
  fst (summarize_text Scenario.odd_output Ucd.tables Scenario.speech_en (u "en")
         None None Scenario.fresh)
  = Ok (u "The pipeline reads the audio file. Then the model writes the text of the speech.").
Proof. vm_compute. split_and!; congruence. Qed.

Lemma summarize_text_degraded_witness :
  20 <= len (split Scenario.speech_en) ∧
  fst (summarize_text Scenario.failing_calls Ucd.tables Scenario.speech_en
         (u "en") None None Scenario.fresh)
  = Ok (u "📝 The pipeline reads the audio file. Then the model writes the text of the speech.").
Proof.
  assert (H : 20 <= len (split Scenario.speech_en)) by (vm_compute; congruence).
  split; [exact H|].
  pose proof (summarize_text_degraded Scenario.failing_calls Ucd.tables
                Scenario.speech_en (u "en") None None Scenario.fresh H) as Hthm.
  vm_compute in Hthm. destruct Hthm as (chunks & [= <-] & Hrun & _).
  vm_compute. vm_compute in Hrun. exact Hrun.
Defined.

(** C4. A processor that has summarised an English text holds the BART
    pipeline; asked for the language 'ur' it returns that pipeline
    without loading anything, although the mT5 model could be loaded,
    and the Urdu text is then sent to BART. *)
Theorem load_summarizer_ignores_language_once_loaded :
  pipeline Scenario.online MT5 (Some MT5) (-1) = None ∧
  summarizer (snd (summarize_text Scenario.online Ucd.tables Scenario.speech_en
                     (u "en") None None Scenario.fresh))
  = Some (Pipeline BART (Some BART) (-1)) ∧
  fst (_load_summarizer Scenario.online (u "ur")
         (snd (summarize_text Scenario.online Ucd.tables Scenario.speech_en
                 (u "en") None None Scenario.fresh)))
  = Ok (Pipeline BART (Some BART) (-1)) ∧
  calls (snd (summarize_text Scenario.online Ucd.tables Scenario.speech_ur
                (u "ur") None None
                (snd (summarize_text Scenario.online Ucd.tables
                        Scenario.speech_en (u "en") None None Scenario.fresh))))
  = [ LoadPipeline BART (Some BART) (-1);
      Summarize (Pipeline BART (Some BART) (-1)) Scenario.speech_en 150 50;
      Summarize (Pipeline BART (Some BART) (-1)) Scenario.speech_ur 8 3 ].
Proof. vm_compute. split_and!; reflexivity. Qed.

(* ===================================================================== *)
(** * The pipeline orchestrator *)
(* ===================================================================== *)

(** Finds the value of a key under the entries stored after it. *)
Ltac lookup_key :=
  repeat (rewrite lookup_insert_ne by (vm_compute; congruence));
  rewrite lookup_insert_eq.

Section Orchestrator.

Variables (W : world) (U : unicode).

Lemma key_error_status : u "error" ≠ u "status".
Proof. vm_compute. congruence. Qed.

Lemma success_not_error : VStr (u "success") ≠ VStr (u "error").
Proof. vm_compute. congruence. Qed.

Lemma pipeline_failed_reports results e :
  reports (u "error") (pipeline_failed results e) ∧
  pipeline_failed results e !! u "error"
  = Some (VStr (u "Pipeline failed: " ++ exn_str e)) ∧
  dom (pipeline_failed results e) = dom results ∪ {[u "status"; u "error"]}.
Proof.
  unfold reports, pipeline_failed. split_and!.
  - rewrite lookup_insert_ne by apply key_error_status.
    by rewrite lookup_insert_eq.
  - by rewrite lookup_insert_eq.
  - rewrite !dom_insert_L. set_solver.
Qed.

(** How a run of the pipeline ends: with a success record, or with the
    record of the stages completed so far, marked as failed. *)
Lemma process_pipeline_outcome file_name language st :
  ∃ results st',
    process_pipeline W U file_name language st = (Ok results, st') ∧
    (reports (u "success") results ∨
     ∃ e completed n,
       results = pipeline_failed completed e ∧
       dom completed = stage_keys n).
Proof.
  unfold process_pipeline, stage.
  destruct (transcribe_audio W U _ language None st) as [[transcription|e] st1].
  2:{ eexists _, _. split; [done|]. right. exists e, ∅, 0%nat.
      split; [done|]. apply dom_empty_L. }
  destruct (process_sentences W transcription language None st1)
    as [[sentences|e] st2].
  2:{ eexists _, _. split; [done|]. right. eexists e, _, 1%nat.
      split; [done|]. rewrite !dom_insert_L, dom_empty_L. simpl. set_solver. }
  unfold lift at 1.
  destruct (extract_key_phrases U transcription language) as [key_phrases|e].
  2:{ eexists _, _. split; [done|]. right. eexists e, _, 2%nat.
      split; [done|]. rewrite !dom_insert_L, dom_empty_L. simpl. set_solver. }
  destruct (summarize_text W U _ language None None st2) as [[summary|e] st3].
  2:{ eexists _, _. split; [done|]. right. eexists e, _, 3%nat.
      split; [done|]. rewrite !dom_insert_L, dom_empty_L. simpl. set_solver. }
  destruct (write_file W _ _ st3) as [[[]|e] st4].
  2:{ eexists _, _. split; [done|]. right. eexists e, _, 3%nat.
      split; [done|]. rewrite !dom_insert_L, dom_empty_L. simpl. set_solver. }
  eexists _, _. split; [done|]. left.
  unfold reports. by rewrite lookup_insert_eq.
Qed.

(** A failure of the first stage leaves nothing but the two entries of
    the failure. *)
Lemma process_pipeline_first_stage file_name language st e st1 :
  transcribe_audio W U (u "audio/" ++ file_name ++ u ".mp3") language None st
  = (Raise e, st1) ->
  process_pipeline W U file_name language st = (Ok (pipeline_failed ∅ e), st1).
Proof. intros E. unfold process_pipeline, stage. by rewrite E. Qed.

Lemma transcribe_audio_missing audio_file language output_file st :
  os_path_exists W audio_file = false ->
  transcribe_audio W U audio_file language output_file st
  = (Raise (Exn FileNotFoundError (u "Audio file not found: " ++ audio_file)), st).
Proof. intros E. unfold transcribe_audio. by rewrite E. Qed.

Lemma pipeline_failed_record completed e keys :
  dom completed = keys ->
  failure_record e keys (pipeline_failed completed e).
Proof.
  intros Hdom. destruct (pipeline_failed_reports completed e) as (H1 & H2 & H3).
  unfold failure_record. by rewrite H3, Hdom.
Qed.

Lemma failure_record_no_summary e n results :
  failure_record e (stage_keys n) results ->
  results !! u "summary" = None ∧ results !! u "summary_file" = None.
Proof.
  intros (_ & _ & Hdom).
  split; apply not_elem_of_dom; rewrite Hdom;
    destruct n as [|[|[|n]]]; apply (bool_decide_unpack _); by vm_compute.
Qed.

(** Settles the stages of a run one after the other: a stage assumed to
    return or to raise is compared with what it did. *)
Ltac settle_stages :=
  repeat match goal with
         | |- _ ∧ _ => split
         | |- _ -> _ => intro
         | |- ∀ _, _ => intro
         | E : (_, _) = (_, _) |- _ =>
           first [discriminate E | injection E as <- <- | injection E as <-]
         | E : @eq (result _) (Ok _) (Raise _) |- _ => discriminate E
         | E : @eq (result _) (Raise _) (Ok _) |- _ => discriminate E
         | E : @eq (result _) (Ok _) (Ok _) |- _ => injection E as <-
         | E : @eq (result _) (Raise _) (Raise _) |- _ => injection E as <-
         | H : ?run = _, E : ?run = _ |- _ => rewrite H in E
         end.

(** C2, amended. A run of the pipeline never raises, and it fails exactly
    when one of its stages raises.  The record of a failed run has the
    status 'error' and the message "Pipeline failed: " followed by the
    text of the exception raised by that stage, besides the fields of the
    stages completed before it and no other field: none when
    transcription raises; transcription, language and word_count when
    sentence processing raises; also sentences and sentence_count when
    key-phrase extraction raises; also key_phrases when summarisation or
    the writing of the summary file raises.  These fields hold what the
    completed stages returned, and a failed run has no summary and no
    summary_file field. *)
Theorem process_pipeline_failure_record file_name language st :
  let audio_file := u "audio/" ++ file_name ++ u ".mp3" in
  let summary_file :=
    u "analysis/" ++ file_name ++ u "_" ++ language ++ u "_summary.txt" in
  ∃ results st',
    process_pipeline W U file_name language st = (Ok results, st') ∧
    (reports (u "success") results ∨
     ∃ e n, failure_record e (stage_keys n) results) ∧
    (reports (u "error") results ->
     results !! u "summary" = None ∧ results !! u "summary_file" = None) ∧
    (∀ e st1,
       transcribe_audio W U audio_file language None st = (Raise e, st1) ->
       failure_record e (stage_keys 0) results) ∧
    (∀ transcription st1,
       transcribe_audio W U audio_file language None st
       = (Ok transcription, st1) ->
       results !! u "transcription" = Some (VStr transcription) ∧
       results !! u "language" = Some (VStr language) ∧
       results !! u "word_count" = Some (VInt (len (split transcription))) ∧
       (∀ e st2,
          process_sentences W transcription language None st1
          = (Raise e, st2) ->
          failure_record e (stage_keys 1) results) ∧
       (∀ sentences st2,
          process_sentences W transcription language None st1
          = (Ok sentences, st2) ->
          results !! u "sentences" = Some (VList sentences) ∧
          results !! u "sentence_count" = Some (VInt (len sentences)) ∧
          (∀ e,
             extract_key_phrases U transcription language = Raise e ->
             failure_record e (stage_keys 2) results) ∧
          (∀ key_phrases,
             extract_key_phrases U transcription language = Ok key_phrases ->
             results !! u "key_phrases" = Some (VList key_phrases) ∧
             (∀ e st3,
                summarize_text W U (join (u " ") sentences) language
                               None None st2 = (Raise e, st3) ->
                failure_record e (stage_keys 3) results) ∧
             (∀ summary st3,
                summarize_text W U (join (u " ") sentences) language
                               None None st2 = (Ok summary, st3) ->
                (∀ e st4,
                   write_file W summary_file
                     (summary_file_content language summary key_phrases) st3
                   = (Raise e, st4) ->
                   failure_record e (stage_keys 3) results) ∧
                (∀ st4,
                   write_file W summary_file
                     (summary_file_content language summary key_phrases) st3
                   = (Ok tt, st4) ->
                   reports (u "success") results ∧
                   results !! u "summary" = Some (VStr summary)))))).
Proof.
  intros audio_file summary_file.
  destruct (process_pipeline_outcome file_name language st)
    as (results & st' & Hrun & Hcases).
  exists results, st'. split; [done|].
  assert (Hfailed : reports (u "success") results ∨
                    ∃ e n, failure_record e (stage_keys n) results).
  { destruct Hcases as [?|(e & completed & n & -> & Hdom)]; [by left|right].
    exists e, n. by apply pipeline_failed_record. }
  split; [done|]. split.
  { intros Herr. destruct Hfailed as [Hok|(e & n & Hrec)].
    - unfold reports in Hok, Herr. rewrite Herr in Hok.
      injection Hok. by vm_compute.
    - by apply (failure_record_no_summary e n). }
  clear Hcases Hfailed. revert Hrun.
  unfold process_pipeline, stage. cbv zeta.
  fold audio_file. fold summary_file.
  destruct (transcribe_audio W U audio_file language None st)
    as [[t|e1] s1] eqn:H1.
  2:{ intros [= <- <-]. settle_stages.
      apply pipeline_failed_record. apply dom_empty_L. }
  destruct (process_sentences W t language None s1) as [[ss|e2] s2] eqn:H2.
  2:{ intros [= <- <-]. settle_stages; unfold pipeline_failed; try (lookup_key; done).
      apply pipeline_failed_record.
      rewrite !dom_insert_L, dom_empty_L. simpl. set_solver. }
  unfold lift at 1.
  destruct (extract_key_phrases U t language) as [kp|e3] eqn:H3.
  2:{ intros [= <- <-]. settle_stages; unfold pipeline_failed; try (lookup_key; done).
      apply pipeline_failed_record.
      rewrite !dom_insert_L, dom_empty_L. simpl. set_solver. }
  destruct (summarize_text W U (join (u " ") ss) language None None s2)
    as [[sm|e4] s3] eqn:H4.
  2:{ intros [= <- <-]. settle_stages; unfold pipeline_failed; try (lookup_key; done).
      apply pipeline_failed_record.
      rewrite !dom_insert_L, dom_empty_L. simpl. set_solver. }
  destruct (write_file W summary_file (summary_file_content language sm kp) s3)
    as [[[]|e5] s4] eqn:H5.
  2:{ intros [= <- <-]. settle_stages; unfold pipeline_failed; try (lookup_key; done).
      apply pipeline_failed_record.
      rewrite !dom_insert_L, dom_empty_L. simpl. set_solver. }
  intros [= <- <-]. settle_stages; try (lookup_key; done).
  unfold reports. by rewrite lookup_insert_eq.
Qed.

(** ** Batches *)

Lemma process_pipeline_missing file_name language st :
  os_path_exists W (u "audio/" ++ file_name ++ u ".mp3") = false ->
  ∃ r, process_pipeline W U file_name language st = (Ok r, st) ∧
       reports (u "error") r.
Proof.
  intros E. eexists. split.
  - apply process_pipeline_first_stage. by apply transcribe_audio_missing.
  - apply pipeline_failed_reports.
Qed.

Lemma outcome_reports results :
  (reports (u "success") results ∨
   ∃ e completed (n : nat),
     results = pipeline_failed completed e ∧ dom completed = stage_keys n) ->
  reports (u "success") results ∨ reports (u "error") results.
Proof.
  intros [?|(e & completed & n & -> & _)]; [by left|right].
  apply pipeline_failed_reports.
Qed.

(** One turn of the loop of [process_batch]: the entry of the file is
    what the pipeline returns for it. *)
Lemma batch_loop_cons language audio_file rest results st :
  batch_loop W U language (audio_file :: rest) results st
  = batch_loop W U language rest
      (<[path_stem audio_file :=
           match fst (process_pipeline W U (path_stem audio_file) language st) with
           | Ok r => r
           | Raise _ => ∅
           end]> results)
      (snd (process_pipeline W U (path_stem audio_file) language st)).
Proof.
  destruct (process_pipeline_outcome (path_stem audio_file) language st)
    as (r & st' & Hrun & _).
  simpl. unfold mbind, M_bind, try_except. by rewrite Hrun.
Qed.

Lemma batch_loop_total language audio_files results st :
  ∃ results' st',
    batch_loop W U language audio_files results st = (Ok results', st') ∧
    dom results' = dom results ∪ list_to_set (path_stem <$> audio_files) ∧
    ∀ name r, results' !! name = Some r ->
      results !! name = Some r ∨
      reports (u "success") r ∨ reports (u "error") r.
Proof.
  revert results st. induction audio_files as [|audio_file rest IH];
    intros results st.
  - exists results, st. split_and!; [done| |by left].
    simpl. set_solver.
  - rewrite batch_loop_cons.
    destruct (process_pipeline_outcome (path_stem audio_file) language st)
      as (r & st1 & Hrun & Hr%outcome_reports).
    rewrite Hrun. cbn [fst snd].
    destruct (IH (<[path_stem audio_file := r]> results) st1)
      as (results' & st' & -> & Hdom & Hall).
    exists results', st'. split_and!; [done| |].
    + rewrite Hdom, dom_insert_L, fmap_cons. simpl. set_solver.
    + intros name r' Hlook. destruct (Hall name r' Hlook) as [Hold|?]; [|by right].
      apply lookup_insert_Some in Hold as [[_ <-]|[_ ?]]; [by right|by left].
Qed.

Lemma after_pipelines_cons language name names st :
  after_pipelines W U language (name :: names) st
  = after_pipelines W U language names
      (snd (process_pipeline W U name language st)).
Proof. done. Qed.

(** The loop of [process_batch] runs the pipeline for every file, and the
    entry of a name is what the pipeline returned for the last file of
    that name. *)
Lemma batch_loop_entries language audio_files results st :
  ∃ results',
    batch_loop W U language audio_files results st
    = (Ok results',
       after_pipelines W U language (path_stem <$> audio_files) st) ∧
    (∀ name, name ∉ path_stem <$> audio_files ->
       results' !! name = results !! name) ∧
    (∀ i audio_file,
       audio_files !! i = Some audio_file ->
       path_stem audio_file ∉ path_stem <$> drop (S i) audio_files ->
       ∃ r,
         process_pipeline W U (path_stem audio_file) language
           (after_pipelines W U language (path_stem <$> take i audio_files) st)
         = (Ok r,
            after_pipelines W U language
              (path_stem <$> take (S i) audio_files) st) ∧
         results' !! path_stem audio_file = Some r).
Proof.
  revert results st. induction audio_files as [|audio_file rest IH];
    intros results st.
  - exists results. split_and!; [done|done|]. intros i f Hi. by destruct i.
  - rewrite batch_loop_cons.
    destruct (process_pipeline_outcome (path_stem audio_file) language st)
      as (r & st1 & Hrun & _).
    rewrite fmap_cons, after_pipelines_cons, Hrun. cbn [fst snd].
    destruct (IH (<[path_stem audio_file := r]> results) st1)
      as (results' & -> & Hother & Hentry).
    exists results'. split_and!; [done| |].
    + intros name [Hne Hname]%not_elem_of_cons.
      rewrite (Hother name Hname). by apply lookup_insert_ne.
    + intros [|i] f Hi Hlast.
      * injection Hi as <-. exists r. split.
        { change (process_pipeline W U (path_stem audio_file) language st
                  = (Ok r, snd (process_pipeline W U (path_stem audio_file)
                                  language st))).
          by rewrite Hrun. }
        rewrite (Hother _ Hlast). apply lookup_insert_eq.
      * destruct (Hentry i f Hi Hlast) as (r' & Hrun' & Hr').
        exists r'. split; [|done].
        rewrite !firstn_cons, !fmap_cons, !after_pipelines_cons, Hrun.
        exact Hrun'.
Qed.

(** C9. [process_batch] never raises and halts at no file: it leaves the
    processor as the pipeline runs for every file found, in turn, leave
    it, and its result has one entry for every name found, with status
    'success' or 'error', which is the record the pipeline returned for
    the (last) file of that name, run in the processor as the files
    before left it.  For three files, when the audio file of the second
    is missing and the first and the third are processed with success
    (the third in the processor as the first left it), the result has
    exactly the three keys, each with the record of its pipeline run:
    status 'success' for the first and the third, and for the second the
    record of the missing file, with status 'error'. *)
Theorem process_batch_isolates_failures audio_dir language st :
  (∃ results,
     process_batch W U audio_dir language st
     = (Ok results,
        after_pipelines W U language (path_stem <$> glob_mp3 W audio_dir) st) ∧
     dom results = list_to_set (path_stem <$> glob_mp3 W audio_dir) ∧
     (∀ name r, results !! name = Some r ->
        reports (u "success") r ∨ reports (u "error") r) ∧
     (∀ i audio_file,
        glob_mp3 W audio_dir !! i = Some audio_file ->
        path_stem audio_file ∉ path_stem <$> drop (S i) (glob_mp3 W audio_dir) ->
        ∃ r,
          process_pipeline W U (path_stem audio_file) language
            (after_pipelines W U language
               (path_stem <$> take i (glob_mp3 W audio_dir)) st)
          = (Ok r,
             after_pipelines W U language
               (path_stem <$> take (S i) (glob_mp3 W audio_dir)) st) ∧
          results !! path_stem audio_file = Some r)) ∧
  (∀ p1 p2 p3,
     glob_mp3 W audio_dir = [p1; p2; p3] ->
     NoDup [path_stem p1; path_stem p2; path_stem p3] ->
     os_path_exists W (u "audio/" ++ path_stem p2 ++ u ".mp3") = false ->
     pipeline_status W U (path_stem p1) language st
     = Some (VStr (u "success")) ->
     pipeline_status W U (path_stem p3) language
       (snd (process_pipeline W U (path_stem p1) language st))
     = Some (VStr (u "success")) ->
     ∃ results r1 r2 r3 st1 st3,
       process_pipeline W U (path_stem p1) language st = (Ok r1, st1) ∧
       process_pipeline W U (path_stem p2) language st1 = (Ok r2, st1) ∧
       process_pipeline W U (path_stem p3) language st1 = (Ok r3, st3) ∧
       process_batch W U audio_dir language st = (Ok results, st3) ∧
       dom results = {[path_stem p1; path_stem p2; path_stem p3]} ∧
       results !! path_stem p1 = Some r1 ∧ reports (u "success") r1 ∧
       results !! path_stem p2 = Some r2 ∧ reports (u "error") r2 ∧
       r2 !! u "error"
       = Some (VStr (u "Pipeline failed: Audio file not found: audio/"
                     ++ path_stem p2 ++ u ".mp3")) ∧
       results !! path_stem p3 = Some r3 ∧ reports (u "success") r3).
Proof.
  split.
  - unfold process_batch.
    destruct (batch_loop_total language (glob_mp3 W audio_dir) ∅ st)
      as (results & st' & Hrun & Hdom & Hall).
    destruct (batch_loop_entries language (glob_mp3 W audio_dir) ∅ st)
      as (results' & Hrun' & _ & Hentry).
    rewrite Hrun in Hrun'. injection Hrun' as <- ->.
    exists results. split_and!; [done| | |done].
    + rewrite Hdom, dom_empty_L. set_solver.
    + intros name r Hr. by destruct (Hall name r Hr) as [?|?].
  - intros p1 p2 p3 Hglob Hnodup Hmissing H1 H3.
    apply NoDup_cons in Hnodup as [Hn1 Hnodup].
    apply NoDup_cons in Hnodup as [Hn2 _].
    apply not_elem_of_cons in Hn1 as [Hn12 Hn13].
    apply not_elem_of_cons in Hn2 as [Hn23 _].
    apply not_elem_of_cons in Hn13 as [Hn13 _].
    unfold process_batch. rewrite Hglob, !batch_loop_cons.
    unfold pipeline_status in H1, H3.
    destruct (process_pipeline_outcome (path_stem p1) language st)
      as (r1 & st1 & Hrun1 & _).
    rewrite Hrun1 in H1, H3 |- *. cbn [fst snd] in H1, H3 |- *.
    pose proof (process_pipeline_first_stage (path_stem p2) language st1 _ _
                  (transcribe_audio_missing _ language None st1 Hmissing))
      as Hrun2.
    rewrite Hrun2. cbn [fst snd].
    destruct (process_pipeline_outcome (path_stem p3) language st1)
      as (r3 & st3 & Hrun3 & _).
    rewrite Hrun3 in H3 |- *. cbn [fst snd] in H3 |- *.
    eexists (<[path_stem p3 := r3]> (<[path_stem p2 := _]>
               (<[path_stem p1 := r1]> ∅))), r1, _, r3, st1, st3.
    split_and!; [done|exact Hrun2|done|done| | |done| | | | |done].
    + rewrite !dom_insert_L, dom_empty_L. set_solver.
    + rewrite !lookup_insert_ne by done. by rewrite lookup_insert_eq.
    + rewrite lookup_insert_ne by done. by rewrite lookup_insert_eq.
    + apply pipeline_failed_reports.
    + unfold pipeline_failed. cbn [exn_str]. by lookup_key.
    + by rewrite lookup_insert_eq.
Qed.

End Orchestrator.

(** C2, as stated, fails: when no summarisation model can be loaded, the
    run fails at the fourth stage and the record returned, besides the
    status 'error' and the message, still has the six fields written by
    the three stages before. *)
Lemma process_pipeline_failure_keeps_fields :
  ∃ results,
    fst (process_pipeline Scenario.offline Ucd.tables (u "a") (u "en")
           Scenario.fresh) = Ok results ∧
    results !! u "status" = Some (VStr (u "error")) ∧
    results !! u "error"
    = Some (VStr (u "Pipeline failed: cannot load the model")) ∧
    results !! u "language" = Some (VStr (u "en")) ∧
    results !! u "word_count" = Some (VInt 29) ∧
    results !! u "sentence_count" = Some (VInt 3) ∧
    is_Some (results !! u "transcription") ∧
    is_Some (results !! u "sentences") ∧
    is_Some (results !! u "key_phrases") ∧
    dom results ≠ {[u "status"; u "error"]}.
Proof.
  set (run := fst (process_pipeline Scenario.offline Ucd.tables (u "a") (u "en")
                     Scenario.fresh)).
  exists (match run with Ok results => results | Raise _ => ∅ end).
  split; [vm_compute; reflexivity|].
  do 5 (split; [vm_compute; reflexivity|]).
  do 3 (split; [vm_compute; eexists; reflexivity|]).
  intros E.
  apply (f_equal (λ X : gset pystr, bool_decide (u "language" ∈ X))) in E.
  vm_compute in E. congruence.
Qed.

Lemma process_pipeline_failure_record_witness :
  ∃ results,
    fst (process_pipeline Scenario.offline Ucd.tables (u "a") (u "en")
           Scenario.fresh) = Ok results ∧
    failure_record (Exn OSError (u "cannot load the model")) (stage_keys 3)
      results ∧
    results !! u "word_count" = Some (VInt 29) ∧
    results !! u "sentence_count" = Some (VInt 3).
Proof.
  destruct (process_pipeline_failure_record Scenario.offline Ucd.tables (u "a")
              (u "en") Scenario.fresh)
    as (results & st' & Hrun & _ & _ & _ & Hstages).
  exists results. split; [by rewrite Hrun|]. clear Hrun.
  set (r1 := transcribe_audio Scenario.offline Ucd.tables
               (u "audio/" ++ u "a" ++ u ".mp3") (u "en") None Scenario.fresh)
    in Hstages.
  set (t := match fst r1 with Ok t => t | Raise _ => [] end).
  assert (E1 : r1 = (Ok t, snd r1)) by (vm_compute; reflexivity).
  assert (N1 : VInt (len (split t)) = VInt 29) by (vm_compute; reflexivity).
  destruct (Hstages t (snd r1) E1) as (_ & _ & Hwords & _ & Hsentences).
  clear Hstages. rewrite N1 in Hwords.
  set (r2 := process_sentences Scenario.offline t (u "en") None (snd r1))
    in Hsentences.
  set (ss := match fst r2 with Ok l => l | Raise _ => [] end).
  assert (E2 : r2 = (Ok ss, snd r2)) by (vm_compute; reflexivity).
  assert (N2 : VInt (len ss) = VInt 3) by (vm_compute; reflexivity).
  destruct (Hsentences ss (snd r2) E2) as (_ & Hcount & _ & Hphrases).
  clear Hsentences. rewrite N2 in Hcount.
  set (r3 := extract_key_phrases Ucd.tables t (u "en")) in Hphrases.
  set (kp := match r3 with Ok l => l | Raise _ => [] end).
  assert (E3 : r3 = Ok kp) by (vm_compute; reflexivity).
  destruct (Hphrases kp E3) as (_ & Hsummary & _). clear Hphrases.
  set (r4 := summarize_text Scenario.offline Ucd.tables (join (u " ") ss)
               (u "en") None None (snd r2)) in Hsummary.
  assert (E4 : r4 = (Raise (Exn OSError (u "cannot load the model")), snd r4))
    by (vm_compute; reflexivity).
  pose proof (Hsummary _ _ E4) as Hrecord.
  clearbody r4 r3 kp r2 ss r1 t.
  split_and!; [exact Hrecord|exact Hwords|exact Hcount].
Defined.

Lemma process_batch_isolates_failures_witness :
  glob_mp3 Scenario.online (u "incoming")
  = [u "incoming/a.mp3"; u "incoming/b.mp3"; u "incoming/c.mp3"] ∧
  os_path_exists Scenario.online (u "audio/b.mp3") = false ∧
  ∃ results r1 r2 r3 st1 st3,
    process_pipeline Scenario.online Ucd.tables (u "a") (u "en") Scenario.fresh
    = (Ok r1, st1) ∧
    process_pipeline Scenario.online Ucd.tables (u "b") (u "en") st1
    = (Ok r2, st1) ∧
    process_pipeline Scenario.online Ucd.tables (u "c") (u "en") st1
    = (Ok r3, st3) ∧
    process_batch Scenario.online Ucd.tables (u "incoming") (u "en")
      Scenario.fresh = (Ok results, st3) ∧
    dom results = {[u "a"; u "b"; u "c"]} ∧
    results !! u "a" = Some r1 ∧ reports (u "success") r1 ∧
    results !! u "b" = Some r2 ∧ reports (u "error") r2 ∧
    r2 !! u "error"
    = Some (VStr (u "Pipeline failed: Audio file not found: audio/b.mp3")) ∧
    results !! u "c" = Some r3 ∧ reports (u "success") r3.
Proof.
  split; [reflexivity|]. split; [reflexivity|].
  destruct (process_batch_isolates_failures Scenario.online Ucd.tables
              (u "incoming") (u "en") Scenario.fresh) as [_ H].
  apply (H (u "incoming/a.mp3") (u "incoming/b.mp3") (u "incoming/c.mp3")).
  - reflexivity.
  - vm_compute. repeat constructor; rewrite ?list_elem_of_In; simpl; intuition congruence.
  - vm_compute. reflexivity.
  - vm_compute. reflexivity.
  - vm_compute. reflexivity.
Defined.

(* ===================================================================== *)
(** * More on the sentence segmenter *)
(* ===================================================================== *)

Section Segmenter.

Implicit Types (text language s body : pystr).

Lemma pattern_terminators language :
  dict_get sentence_patterns language en_pattern = terminators language.
Proof.
  unfold dict_get, sentence_patterns, terminators, en_pattern.
  destruct (decide (language = u "ur")); [done|].
  by destruct (decide (language = u "en")).
Qed.

Lemma terminators_cases language c :
  c ∈ terminators language ->
  c ∈ [0x06D4; 0x061F; 0x21; 0x2E; 0x3F]%N.
Proof.
  unfold terminators. destruct (decide _); vm_compute (u _);
    rewrite !elem_of_cons; intuition auto.
Qed.

Lemma terminators_not_space language c :
  c ∈ terminators language -> isspace c = false.
Proof.
  intros H%terminators_cases.
  repeat (apply elem_of_cons in H as [->|H]; [done|]).
  by apply elem_of_nil in H.
Qed.

Lemma ending_char_terminator language :
  (if decide (language = u "ur") then u "۔" else u ".")
  = [if decide (language = u "ur") then 0x06D4%N else 0x2E%N] ∧
  (if decide (language = u "ur") then 0x06D4%N else 0x2E%N)
  ∈ terminators language.
Proof.
  unfold terminators. destruct (decide _); split; try done;
    vm_compute (u _); rewrite !elem_of_cons; auto.
Qed.

(** The fragments between the separators hold no separator. *)
Lemma re_split_class_clean cls s :
  Forall (λ frag, ∀ c, c ∈ frag -> c ∉ cls) (re_split_class cls s).
Proof.
  induction s as [|d s IH]; simpl.
  - apply Forall_singleton. by intros c ?%elem_of_nil.
  - destruct (bool_decide (d ∈ cls)) eqn:Hd.
    + apply Forall_cons. split; [by intros c ?%elem_of_nil|done].
    + apply bool_decide_eq_false in Hd.
      destruct (re_split_class cls s) as [|p ps].
      { apply Forall_singleton. by intros c ->%list_elem_of_singleton. }
      apply Forall_cons in IH as [Hp Hps]. apply Forall_cons. split; [|done].
      intros c [->|Hc]%elem_of_cons; [done|by apply Hp].
Qed.

(** What the first loop keeps: trimmed fragments of three words or more,
    free of separators. *)
Lemma clean_and_filter_kept cls text body :
  body ∈ clean_and_filter (re_split_class cls text) ->
  (∀ c, c ∈ body -> c ∉ cls) ∧ 3 <= len (split body) ∧
  body ≠ [] ∧ ends_clean body.
Proof.
  unfold clean_and_filter.
  intros [Hfrag Hmin]%list_elem_of_In%filter_In.
  apply list_elem_of_In, list_elem_of_fmap in Hfrag as (frag & -> & Hfrag).
  unfold min3 in Hmin. apply andb_true_iff in Hmin as [Hne Hlen].
  apply negb_true_iff, bool_decide_eq_false in Hne. apply Z.leb_le in Hlen.
  split_and!; [|done|done|apply strip_ends_clean].
  intros c Hc%elem_of_strip.
  pose proof (re_split_class_clean cls text) as Hall.
  eapply Forall_forall in Hall; [|exact Hfrag]. by apply Hall.
Qed.

(** A terminator glued to the end of a trimmed text joins its last word. *)
Lemma split_from_snoc cur s c :
  isspace c = false -> ends_clean s -> s ≠ [] ∨ cur ≠ [] ->
  length (split_from cur (s ++ [c])) = length (split_from cur s).
Proof.
  intros Hc. revert cur. induction s as [|d s IH]; intros cur Hend Hne.
  - simpl. rewrite Hc. destruct Hne as [?|Hcur]; [done|]. by destruct cur.
  - assert (ends_clean s ∧ (isspace d = true -> s ≠ [])) as [Hend' Hd].
    { destruct s as [|e s]; [|split; [by eapply ends_clean_tail|done]].
      split; [done|]. unfold ends_clean in Hend. simpl in Hend. congruence. }
    simpl. destruct (isspace d) eqn:Ed.
    + specialize (Hd eq_refl).
      destruct cur; simpl; rewrite IH; auto.
    + apply IH; auto; by right.
Qed.

Lemma add_ending_shape text language body :
  ∃ c, c ∈ terminators language ∧ add_ending text language body = body ++ [c].
Proof.
  unfold add_ending. fold (terminators language).
  destruct (ending_char_terminator language) as [-> Hdflt].
  destruct (if _ <? _ then _ else None) as [c|]; [|eauto].
  destruct (bool_decide (c ∈ terminators language)) eqn:Hc; [|eauto].
  apply bool_decide_eq_true in Hc. eauto.
Qed.

Lemma but_last_last {A} (l : list A) :
  l = [] ∨ ∃ x, last l = Some x ∧ l = but_last l ++ [x].
Proof.
  destruct (decide (l = [])) as [|Hne]; [by left|right].
  destruct (exists_last Hne) as (l' & x & ->). exists x.
  split; [apply last_snoc|].
  unfold but_last, slice, slice_bound, len. rewrite length_app. simpl.
  replace (0 <? 0) with false by done. replace (-1 <? 0) with true by done.
  rewrite Z.min_l by lia. rewrite Z.max_r by lia. simpl. rewrite drop_0.
  replace (Z.to_nat (Z.of_nat (length l' + 1) + -1 - 0)) with (length l') by lia.
  by rewrite take_app_length.
Qed.

(** The sentences returned, in terms of the fragments kept. *)
Lemma _regex_sentence_split_shape text language :
  let kept := clean_and_filter (re_split_class (terminators language) text) in
  _regex_sentence_split text language = [] ∧ kept = [] ∨
  ∃ x, kept = but_last kept ++ [x] ∧
       _regex_sentence_split text language
       = (add_ending text language <$> but_last kept) ++ [x].
Proof.
  intros kept. unfold _regex_sentence_split. rewrite pattern_terminators.
  fold kept. destruct (but_last_last kept) as [E|(x & Hlast & E)].
  - left. by rewrite E.
  - right. exists x. by rewrite Hlast.
Qed.

(** X1. Every sentence that [_regex_sentence_split] returns has at least
    three words: the fragments with fewer are dropped, and the
    terminator put back at the end of a sentence adds no word. *)
Theorem sentences_have_three_words text language s :
  s ∈ _regex_sentence_split text language -> 3 <= len (split s).
Proof.
  destruct (_regex_sentence_split_shape text language)
    as [[-> _]|(x & Hkept & ->)]; [by intros ?%elem_of_nil|].
  set (kept := clean_and_filter _) in *.
  assert (Hall : ∀ body, body ∈ kept -> 3 <= len (split body)).
  { intros body Hb. by apply clean_and_filter_kept in Hb as (_ & ? & _). }
  intros [Hs| ->%list_elem_of_singleton]%elem_of_app.
  - apply list_elem_of_fmap in Hs as (body & -> & Hb).
    assert (body ∈ kept) as Hk by (rewrite Hkept; apply elem_of_app; by left).
    destruct (add_ending_shape text language body) as (c & Hc & ->).
    apply clean_and_filter_kept in Hk as (_ & Hlen & Hne & Hend).
    unfold split, len in *. rewrite split_from_snoc; [done| |done|by left].
    by eapply terminators_not_space.
  - apply Hall. rewrite Hkept. apply elem_of_app. right. left.
Qed.

(** X2. In what [_regex_sentence_split] returns, every sentence but the
    last is a text without any terminator of the language followed by
    exactly one terminator, and the last sentence holds no terminator at
    all. *)
Theorem sentences_terminators text language i s :
  _regex_sentence_split text language !! i = Some s ->
  ∃ body,
    (∀ c, c ∈ body -> c ∉ terminators language) ∧
    if decide (S i = length (_regex_sentence_split text language))
    then s = body
    else ∃ c, c ∈ terminators language ∧ s = body ++ [c].
Proof.
  destruct (_regex_sentence_split_shape text language)
    as [[-> _]|(x & Hkept & ->)]; [done|].
  set (kept := clean_and_filter _) in *.
  rewrite length_app, length_fmap. simpl.
  intros Hs. apply lookup_app_Some in Hs as [Hs|[Hi Hs]].
  - apply list_lookup_fmap_Some in Hs as (body & -> & Hb).
    pose proof (lookup_lt_Some _ _ _ Hb) as Hlt.
    exists body. split.
    + assert (body ∈ kept) as Hk.
      { rewrite Hkept. apply elem_of_app. left. by eapply list_elem_of_lookup_2. }
      by apply clean_and_filter_kept in Hk as (? & _).
    + rewrite decide_False by lia. apply add_ending_shape.
  - rewrite length_fmap in Hi, Hs.
    destruct (i - length (but_last kept))%nat as [|k] eqn:Ek; [|by destruct k].
    injection Hs as <-. exists x. split.
    + assert (x ∈ kept) as Hk
        by (rewrite Hkept; apply elem_of_app; right; left).
      by apply clean_and_filter_kept in Hk as (? & _).
    + rewrite decide_True by lia. done.
Qed.

End Segmenter.

(* ===================================================================== *)
(** * More on the key-phrase extractor *)
(* ===================================================================== *)

Section Ranking.

Variable U : unicode.
Implicit Types (sw words : list pystr) (w p : pystr).

(** The dictionary holds exactly the counted words, once each, with
    their numbers of occurrences. *)
Lemma count_words_entries sw words w v :
  (w, v) ∈ count_words sw words ->
  counted sw w = true ∧ w ∈ words ∧ v = occurrences w words.
Proof.
  destruct (count_words_inv sw words) as (Hnd & Hkeys & Hget & _).
  intros Hin.
  assert (w ∈ (count_words sw words).*1) as Hw
    by (apply list_elem_of_fmap; by exists (w, v)).
  apply Hkeys in Hw as [Hc Hw]. split_and!; [done..|].
  rewrite <- Hget by done. symmetry. by apply dget_elem.
Qed.

Lemma count_words_complete sw words w :
  counted sw w = true -> w ∈ words ->
  (w, occurrences w words) ∈ count_words sw words.
Proof.
  destruct (count_words_inv sw words) as (Hnd & Hkeys & Hget & _).
  intros Hc Hw.
  assert (w ∈ (count_words sw words).*1) as Hin by (by apply Hkeys).
  apply list_elem_of_fmap in Hin as ([w' v] & Hw' & Hin). simpl in Hw'. subst w'.
  by destruct (count_words_entries sw words w v Hin) as (_ & _ & <-).
Qed.

(** The words returned are distinct words of the text, and a counted word
    that is left out occurs no more often than any word returned, which
    only happens when ten words are returned. *)
Lemma top_words_best sw words :
  let phrases := (top_words (count_words sw words)).*1 in
  NoDup phrases ∧
  (∀ p, p ∈ phrases -> p ∈ words) ∧
  (∀ w, counted sw w = true -> w ∈ words -> w ∉ phrases ->
     length phrases = 10%nat ∧
     ∀ p, p ∈ phrases -> occurrences w words <= occurrences p words).
Proof.
  intros phrases. subst phrases. unfold top_words.
  rewrite slice_prefix by lia. change (Z.to_nat 10) with 10%nat.
  set (d := count_words sw words). set (sorted := sorted_desc snd d).
  destruct (count_words_inv sw words) as (Hnd & _). fold d in Hnd.
  assert (Hperm : sorted ≡ₚ d) by apply sorted_desc_perm.
  split_and!.
  - rewrite fmap_take.
    apply (sublist_NoDup _ (sorted.*1)); [|apply sublist_take].
    by rewrite Hperm.
  - intros p ([p' v] & -> & Hin%subseteq_take)%list_elem_of_fmap.
    rewrite Hperm in Hin. by apply count_words_entries in Hin as (_ & ? & _).
  - intros w Hc Hw Hout.
    pose proof (count_words_complete sw words w Hc Hw) as Hin. fold d in Hin.
    rewrite <- Hperm, <- (take_drop 10 sorted) in Hin.
    apply elem_of_app in Hin as [Hin|Hin].
    { exfalso. apply Hout, list_elem_of_fmap. by exists (w, occurrences w words). }
    pose proof (sorted_desc_stable snd d) as Hsorted. fold sorted in Hsorted.
    rewrite <- (take_drop 10 sorted) in Hsorted.
    apply StronglySorted_app in Hsorted as (Hrel & _ & _).
    split.
    + rewrite length_fmap, length_take.
      destruct (decide (length sorted <= 10)%nat) as [Hle|]; [|lia].
      rewrite drop_ge in Hin by done. by apply elem_of_nil in Hin.
    + intros p ([p' v] & -> & Hp)%list_elem_of_fmap.
      destruct (Hrel _ _ Hp Hin) as [Hle _]. simpl in Hle.
      assert ((p', v) ∈ d) as Hd
        by (rewrite <- Hperm; by eapply subseteq_take).
      by apply count_words_entries in Hd as (_ & _ & ->).
Qed.

(** X3. For 'ur' and for 'en', the key phrases are the most frequent
    words: a word of the text that is not a stop word, has more than two
    characters and is not returned occurs no more often than any word
    returned, and this only happens when ten words are returned. *)
Theorem extract_key_phrases_most_frequent (text language : pystr)
    (sw phrases : list pystr) (w : pystr) :
  stop_words language = Some sw ->
  extract_key_phrases U text language = Ok phrases ->
  w ∈ tokenize U text language -> w ∉ sw -> 2 < len w ->
  w ∈ phrases ∨
  (length phrases = 10%nat ∧
   ∀ p, p ∈ phrases ->
     occurrences w (tokenize U text language)
     <= occurrences p (tokenize U text language)).
Proof.
  intros Hsw Hrun Hw Hstop Hlong.
  unfold extract_key_phrases in Hrun. rewrite Hsw in Hrun.
  injection Hrun as <-.
  destruct (decide (w ∈ (top_words (count_words sw (tokenize U text language))).*1))
    as [?|Hout]; [by left|right].
  destruct (top_words_best sw (tokenize U text language)) as (_ & _ & Hbest).
  apply Hbest; [|done..].
  unfold counted. apply andb_true_iff. split.
  - by apply negb_true_iff, bool_decide_eq_false.
  - by apply Z.ltb_lt.
Qed.

Lemma runs_from_all (p : N -> bool) cur s :
  Forall (λ c, p c = true) cur ->
  Forall (Forall (λ c, p c = true)) (runs_from p cur s).
Proof.
  assert (Hemit : ∀ cur, Forall (λ c, p c = true) cur ->
            Forall (Forall (λ c, p c = true)) (emit cur)).
  { intros [|c cur'] Hc; [constructor|]. apply Forall_singleton.
    apply Forall_forall. intros x Hx%list_elem_of_In%in_rev%list_elem_of_In.
    by eapply Forall_forall in Hc. }
  revert cur. induction s as [|c s IH]; intros cur Hcur; simpl; [by apply Hemit|].
  destruct (p c) eqn:Hc.
  - apply IH. by constructor.
  - apply Forall_app. split; [by apply Hemit|by apply IH].
Qed.

(** X4. For 'ur' and for 'en', the key phrases are pairwise distinct
    words found in the text; for 'ur' they are made of characters of the
    block U+0600..U+06FF, and for 'en' of ASCII letters. *)
Theorem extract_key_phrases_words (text language : pystr)
    (phrases : list pystr) :
  language = u "ur" ∨ language = u "en" ->
  extract_key_phrases U text language = Ok phrases ->
  NoDup phrases ∧
  ∀ p, p ∈ phrases ->
    p ∈ tokenize U text language ∧
    Forall (λ c, (if decide (language = u "ur") then is_arabic_block c
                  else is_ascii_letter c) = true) p.
Proof.
  intros Hlang Hrun.
  assert (∃ sw, stop_words language = Some sw) as [sw Hsw]
    by (destruct Hlang as [->| ->]; eexists; reflexivity).
  unfold extract_key_phrases in Hrun. rewrite Hsw in Hrun. injection Hrun as <-.
  destruct (top_words_best sw (tokenize U text language)) as (Hnd & Hin & _).
  split; [done|]. intros p Hp%Hin. split; [done|].
  unfold tokenize in *. destruct (decide (language = u "ur")).
  - unfold findall_ur in Hp.
    apply list_elem_of_In, filter_In in Hp as [Hp%list_elem_of_In _].
    pose proof (runs_from_all is_arabic_block [] text (Forall_nil_2 _)) as Hall.
    by eapply Forall_forall in Hall.
  - unfold findall_en in Hp.
    apply list_elem_of_In, filter_In in Hp as [_ [Hp _]%andb_true_iff].
    apply Forall_forall. intros c Hc%list_elem_of_In.
    by eapply forallb_forall in Hp.
Qed.

End Ranking.

(* ===================================================================== *)
(** * The language classifier *)
(* ===================================================================== *)

Section Classifier.

Implicit Types (a b text : pystr).

Lemma findall_chars_app p a b :
  len (findall_chars p (a ++ b))
  = len (findall_chars p a) + len (findall_chars p b).
Proof.
  unfold findall_chars, len.
  by rewrite List.filter_app, fmap_app, length_app, Nat2Z.inj_add.
Qed.

Lemma findall_chars_perm p a b :
  a ≡ₚ b -> len (findall_chars p a) = len (findall_chars p b).
Proof.
  intros Hperm. unfold findall_chars, len. rewrite !length_fmap. f_equal.
  induction Hperm as [|x l l' _ IH|x y l|l l' l'' _ IH1 _ IH2]; simpl.
  - done.
  - destruct (p x); simpl; by rewrite IH.
  - by destruct (p x), (p y).
  - by rewrite IH1.
Qed.

Lemma findall_chars_relevant (p q : N -> bool) text :
  (∀ c, p c = true -> q c = true) ->
  findall_chars p (List.filter q text) = findall_chars p text.
Proof.
  intros Hpq. unfold findall_chars. f_equal.
  induction text as [|c text IH]; simpl; [done|].
  destruct (q c) eqn:Hq; simpl.
  - destruct (p c); by rewrite IH.
  - destruct (p c) eqn:Hp; [|done]. apply Hpq in Hp. congruence.
Qed.

Lemma detect_language_ur text :
  detect_language text = u "ur" <->
  len (findall_chars is_ascii_letter text)
  < len (findall_chars is_arabic_block text).
Proof.
  unfold detect_language. cbv zeta.
  destruct (Z.ltb_spec (len (findall_chars is_ascii_letter text))
                       (len (findall_chars is_arabic_block text))) as [Hlt|Hge].
  - done.
  - split; [by vm_compute|lia].
Qed.

Lemma detect_language_cases text :
  detect_language text = u "ur" ∨ detect_language text = u "en".
Proof. unfold detect_language. cbv zeta. destruct (_ <? _); auto. Qed.

(** X5. [detect_language] looks only at how many characters of the block
    U+0600..U+06FF and how many ASCII letters the text has: it gives the
    same answer for two texts with the same characters in another order,
    and for a text with all its other characters removed. *)
Theorem detect_language_counts_only a b :
  a ≡ₚ b ->
  detect_language a = detect_language b ∧
  detect_language
    (List.filter (λ c, is_arabic_block c || is_ascii_letter c) a)
  = detect_language a.
Proof.
  intros Hperm. unfold detect_language. split.
  - by rewrite !(findall_chars_perm _ a b Hperm).
  - rewrite !findall_chars_relevant; [done|..];
      intros c Hc; rewrite Hc; by rewrite ?orb_true_r.
Qed.

(** X6. Two texts that [detect_language] gives the same language are
    given that language when put together, and a text with no character
    of the block U+0600..U+06FF is never taken for Urdu. *)
Theorem detect_language_concat a b :
  detect_language a = detect_language b ->
  detect_language (a ++ b) = detect_language a ∧
  (Forall (λ c, is_arabic_block c = false) a -> detect_language a = u "en").
Proof.
  intros Hsame. split.
  - destruct (detect_language_cases a) as [Ha|Ha]; rewrite Ha in Hsame |- *.
    + symmetry in Hsame. apply detect_language_ur in Ha, Hsame.
      apply detect_language_ur. rewrite !findall_chars_app. lia.
    + destruct (detect_language_cases (a ++ b)) as [Hab|Hab]; [|done].
      apply detect_language_ur in Hab. rewrite !findall_chars_app in Hab.
      assert (¬ detect_language a = u "ur") as Hna by (rewrite Ha; by vm_compute).
      assert (¬ detect_language b = u "ur") as Hnb by (rewrite <- Hsame; by vm_compute).
      rewrite detect_language_ur in Hna, Hnb. lia.
  - intros Hnone.
    destruct (detect_language_cases a) as [Ha|Ha]; [|done].
    apply detect_language_ur in Ha.
    assert (findall_chars is_arabic_block a = []) as E.
    { unfold findall_chars. clear Ha Hsame.
      induction Hnone as [|c l Hc _ IH]; simpl; [done|]. by rewrite Hc. }
    rewrite E in Ha. unfold len in Ha. simpl in Ha. lia.
Qed.

End Classifier.

(* ===================================================================== *)
(** * More on the summarisation adapter *)
(* ===================================================================== *)

Section Summaries.

Variables (W : world) (U : unicode).

Lemma load_pipeline_run model tokenizer st :
  let device := if _is_gpu_available W then 0 else -1 in
  load_pipeline W model tokenizer st =
  match pipeline W model tokenizer device with
  | Some e => (Raise e, record_call (LoadPipeline model tokenizer device) st)
  | None =>
    (Ok (Pipeline model tokenizer device),
     set_summarizer (Pipeline model tokenizer device)
       (record_call (LoadPipeline model tokenizer device) st))
  end.
Proof.
  intros device. unfold load_pipeline. fold device. unfold_M.
  by destruct (pipeline W model tokenizer device).
Qed.

(** X7. A processor without summariser asks for BART (for 'en') or mT5
    (for any other language) with the tokenizer of the same name; if
    that raises, it asks for BART without tokenizer; if that raises too,
    the second exception reaches the caller.  The processor holds a
    summariser afterwards exactly when one was returned. *)
Theorem _load_summarizer_outcomes (language : pystr) (st : processor) :
  summarizer st = None ->
  fst (_load_summarizer W language st) =
    (match pipeline W (if decide (language = u "en") then BART else MT5)
                    (Some (if decide (language = u "en") then BART else MT5))
                    (if _is_gpu_available W then 0 else -1) with
     | None =>
       Ok (Pipeline (if decide (language = u "en") then BART else MT5)
                    (Some (if decide (language = u "en") then BART else MT5))
                    (if _is_gpu_available W then 0 else -1))
     | Some _ =>
       match pipeline W BART None (if _is_gpu_available W then 0 else -1) with
       | None => Ok (Pipeline BART None (if _is_gpu_available W then 0 else -1))
       | Some e => Raise e
       end
     end) ∧
  summarizer (snd (_load_summarizer W language st)) =
    (match fst (_load_summarizer W language st) with
     | Ok s => Some s
     | Raise _ => None
     end).
Proof.
  intros Hnone. rewrite _load_summarizer_first by done.
  unfold try_except. rewrite load_pipeline_run. cbv zeta.
  destruct (pipeline W _ (Some _) _); [|done].
  rewrite load_pipeline_run. cbv zeta.
  by destruct (pipeline W BART None _).
Qed.

Lemma load_pipeline_keeps_disk model tokenizer st :
  keeps_disk st (snd (load_pipeline W model tokenizer st)).
Proof.
  rewrite load_pipeline_run. cbv zeta.
  by destruct (pipeline W model tokenizer _).
Qed.

Lemma keeps_disk_trans st1 st2 st3 :
  keeps_disk st1 st2 -> keeps_disk st2 st3 -> keeps_disk st1 st3.
Proof. intros (? & ? & ?) (? & ? & ?). split_and!; congruence. Qed.

Lemma _load_summarizer_keeps_disk language st :
  keeps_disk st (snd (_load_summarizer W language st)).
Proof.
  destruct (summarizer st) as [s|] eqn:E.
  - by rewrite (_load_summarizer_cached W language st s E).
  - rewrite _load_summarizer_first by done. unfold try_except.
    pose proof (load_pipeline_keeps_disk
                  (if decide (language = u "en") then BART else MT5)
                  (Some (if decide (language = u "en") then BART else MT5)) st) as H1.
    destruct (load_pipeline W _ (Some _) st) as [[s|e] st1]; [done|].
    eapply keeps_disk_trans; [exact H1|apply load_pipeline_keeps_disk].
Qed.

Lemma summarize_chunk_run s language max_length min_length chunk st :
  summarize_chunk W U s language max_length min_length chunk st
  = (Ok (paragraph W U s language max_length min_length chunk),
     record_call (chunk_call W U s max_length min_length chunk) st).
Proof.
  unfold summarize_chunk, paragraph, chunk_call. unfold_M.
  by destruct (run_summarizer W s _ max_length min_length).
Qed.

Lemma summarize_chunks_run s language max_length min_length chunks summaries st :
  snd (summarize_chunks W U s language max_length min_length chunks summaries st)
  = Processor (model_size st) (whisper_model st) (summarizer st) (files st)
      (calls st ++ (chunk_call W U s max_length min_length <$> chunks)).
Proof.
  revert summaries st. induction chunks as [|chunk chunks IH];
    intros summaries st; simpl.
  - rewrite app_nil_r. by destruct st.
  - unfold mbind, M_bind at 1. rewrite summarize_chunk_run, IH.
    simpl. by rewrite <- app_assoc.
Qed.

(** The state in which [summarize_text] leaves a processor that went
    past the two length tests. *)
Lemma summarize_text_long_state text language max_length min_length st :
  20 <= len (split text) ->
  ∃ chunks,
    chunk_text text language None = Ok chunks ∧
    snd (summarize_text W U text language max_length min_length st) =
    match _load_summarizer W language st with
    | (Raise _, st1) => st1
    | (Ok s, st1) =>
      Processor (model_size st1) (whisper_model st1) (summarizer st1) (files st1)
        (calls st1 ++
         (chunk_call W U s
            (default (if decide (language = u "ur") then 8 else 150) max_length)
            (default (if decide (language = u "ur") then 3 else 50) min_length)
          <$> chunks))
    end.
Proof.
  intros Hlong.
  destruct (chunk_text_default text language) as [chunks Hchunks].
  exists chunks. split; [done|].
  assert (Hwords : bool_decide (strip text = []) = false).
  { apply bool_decide_eq_false. intros E%blank_no_words.
    rewrite E in Hlong. unfold len in Hlong. simpl in Hlong. lia. }
  unfold summarize_text. rewrite Hwords.
  destruct (Z.ltb_spec (len (split text)) 20); [lia|].
  unfold mbind at 1. unfold M_bind at 1.
  destruct (_load_summarizer W language st) as [[s|e] st1]; [|done].
  unfold try_except, mbind, M_bind, lift. rewrite Hchunks.
  pose proof (summarize_chunks_run s language
    (match max_length with
     | Some n => n
     | None => if decide (language = u "ur") then 8 else 150
     end)
    (match min_length with
     | Some n => n
     | None => if decide (language = u "ur") then 3 else 50
     end) chunks [] st1) as Hstate.
  destruct (summarize_chunks W U s language _ _ chunks [] st1) as [[summaries|e] st2].
  - simpl in Hstate. subst st2.
    destruct (join_objs (nl ++ nl) summaries); by destruct max_length, min_length.
  - simpl in Hstate. subst st2. by destruct max_length, min_length.
Qed.

(** X8. [summarize_text] writes no file and leaves the Whisper model and
    the model size of the processor alone, whatever the text and however
    it ends. *)
Theorem summarize_text_keeps_disk (text language : pystr)
    (max_length min_length : option Z) (st : processor) :
  keeps_disk st (snd (summarize_text W U text language max_length min_length st)).
Proof.
  destruct (Z.lt_ge_cases (len (split text)) 20) as [Hshort|Hlong].
  - unfold summarize_text. destruct (bool_decide (strip text = [])); [done|].
    by destruct (Z.ltb_spec (len (split text)) 20); [|lia].
  - destruct (summarize_text_long_state text language max_length min_length st Hlong)
      as (chunks & _ & ->).
    pose proof (_load_summarizer_keeps_disk language st) as Hload.
    destruct (_load_summarizer W language st) as [[s|e] st1]; [|done].
    destruct Hload as (? & ? & ?). done.
Qed.

(** X9. A processor that holds a summariser and is given a text of at
    least 20 words calls that summariser once per chunk, in the order
    of the chunks, with the input prefixed by "summarize: " exactly when
    the configuration of the model mentions mt5, and calls nothing
    else. *)
Theorem summarize_text_calls (text language : pystr)
    (max_length min_length : option Z) (st : processor) (s : summarizer_t) :
  summarizer st = Some s ->
  20 <= len (split text) ->
  ∃ chunks,
    chunk_text text language None = Ok chunks ∧
    calls (snd (summarize_text W U text language max_length min_length st))
    = calls st ++
      ((λ chunk,
          Summarize s
            (if is_mt5 W U s then u "summarize: " ++ chunk else chunk)
            (default (if decide (language = u "ur") then 8 else 150) max_length)
            (default (if decide (language = u "ur") then 3 else 50) min_length))
       <$> chunks).
Proof.
  intros Hs Hlong.
  destruct (summarize_text_long_state text language max_length min_length st Hlong)
    as (chunks & Hchunks & ->).
  exists chunks. split; [done|].
  by rewrite (_load_summarizer_cached W language st s Hs).
Qed.

End Summaries.

(* ===================================================================== *)
(** * Transcription *)
(* ===================================================================== *)

Section Transcription.

Variables (W : world) (U : unicode).

Lemma _load_whisper_model_run st :
  _load_whisper_model W st =
  match whisper_model st with
  | Some m => (Ok m, st)
  | None =>
    match whisper_load_model W (model_size st) with
    | Ok m => (Ok m, set_whisper_model m
                       (record_call (LoadWhisper (model_size st)) st))
    | Raise e => (Raise e, record_call (LoadWhisper (model_size st)) st)
    end
  end.
Proof.
  unfold _load_whisper_model. unfold_M.
  destruct (whisper_model st); [done|].
  simpl. by destruct (whisper_load_model W (model_size st)).
Qed.

Lemma _load_whisper_model_files st :
  files (snd (_load_whisper_model W st)) = files st ∧
  summarizer (snd (_load_whisper_model W st)) = summarizer st.
Proof.
  rewrite _load_whisper_model_run. destruct (whisper_model st); [done|].
  by destruct (whisper_load_model W (model_size st)).
Qed.

(** What [transcribe_audio] does once the file is found and the model is
    at hand. *)
Lemma transcribe_audio_run audio_file language output_file st m st1 :
  os_path_exists W audio_file = true ->
  _load_whisper_model W st = (Ok m, st1) ->
  transcribe_audio W U audio_file language output_file st =
  match whisper_transcribe W m audio_file language with
  | Raise e => (Raise e, record_call (Transcribe audio_file language) st1)
  | Ok result =>
    match open_w W (default (transcript_path audio_file) output_file) with
    | Some e => (Raise e, record_call (Transcribe audio_file language) st1)
    | None =>
      match tr_segments result with
      | None =>
        (Ok (cleaned_transcription U language (tr_text result)),
         set_file (default (transcript_path audio_file) output_file)
           (u "Language: " ++ language ++ nl ++ u "Transcription:" ++ nl
            ++ cleaned_transcription U language (tr_text result))
           (record_call (Transcribe audio_file language) st1))
      | Some segments =>
        match open_w W (replace (u ".txt") (u "_detailed.txt")
                          (default (transcript_path audio_file) output_file)) with
        | Some e =>
          (Raise e,
           set_file (default (transcript_path audio_file) output_file)
             (u "Language: " ++ language ++ nl ++ u "Transcription:" ++ nl
              ++ cleaned_transcription U language (tr_text result))
             (record_call (Transcribe audio_file language) st1))
        | None =>
          (Ok (cleaned_transcription U language (tr_text result)),
           set_file (replace (u ".txt") (u "_detailed.txt")
                       (default (transcript_path audio_file) output_file))
             (u "Language: " ++ language ++ nl
              ++ u "Detailed Transcription with Timestamps:" ++ nl ++ nl
              ++ concat (detailed_line <$> segments))
             (set_file (default (transcript_path audio_file) output_file)
                (u "Language: " ++ language ++ nl ++ u "Transcription:" ++ nl
                 ++ cleaned_transcription U language (tr_text result))
                (record_call (Transcribe audio_file language) st1)))
        end
      end
    end
  end.
Proof.
  intros Hexists Hload. unfold transcribe_audio. rewrite Hexists.
  change (negb true) with false. cbv beta iota.
  unfold mbind, M_bind. cbv beta. rewrite Hload.
  unfold cleaned_transcription, transcript_path, write_file. unfold_M.
  destruct (whisper_transcribe W m audio_file language) as [result|e]; [|done].
  destruct output_file as [f|]; simpl.
  - destruct (open_w W f); [done|].
    destruct (tr_segments result); [|done].
    by destruct (open_w W _).
  - destruct (open_w W _); [done|].
    destruct (tr_segments result); [|done].
    by destruct (open_w W _).
Qed.

(** X10. With a Whisper model already loaded, transcribing a file that
    exists makes exactly one call, the transcription itself: the model
    is not loaded again, and the model and the summariser held by the
    processor stay as they were, however the transcription ends. *)
Theorem transcribe_audio_reuses_model (audio_file language : pystr)
    (output_file : option pystr) (st : processor) (m : whisper) :
  whisper_model st = Some m ->
  os_path_exists W audio_file = true ->
  calls (snd (transcribe_audio W U audio_file language output_file st))
  = calls st ++ [Transcribe audio_file language] ∧
  whisper_model (snd (transcribe_audio W U audio_file language output_file st))
  = Some m ∧
  summarizer (snd (transcribe_audio W U audio_file language output_file st))
  = summarizer st.
Proof.
  intros Hm Hexists.
  assert (Hload : _load_whisper_model W st = (Ok m, st))
    by (by rewrite _load_whisper_model_run, Hm).
  rewrite (transcribe_audio_run _ _ _ _ _ _ Hexists Hload).
  destruct (whisper_transcribe W m audio_file language) as [result|e]; [|done].
  destruct (open_w W _); [done|].
  destruct (tr_segments result); [|done].
  by destruct (open_w W _).
Qed.

(** X11. When the call to Whisper raises, [transcribe_audio] raises the
    same exception and no file has been written. *)
Theorem transcribe_audio_reraises (audio_file language : pystr)
    (output_file : option pystr) (st st1 : processor) (m : whisper) (e : exn) :
  os_path_exists W audio_file = true ->
  _load_whisper_model W st = (Ok m, st1) ->
  whisper_transcribe W m audio_file language = Raise e ->
  fst (transcribe_audio W U audio_file language output_file st) = Raise e ∧
  files (snd (transcribe_audio W U audio_file language output_file st))
  = files st.
Proof.
  intros Hexists Hload Hraise.
  rewrite (transcribe_audio_run _ _ _ _ _ _ Hexists Hload), Hraise.
  split; [done|]. simpl.
  destruct (_load_whisper_model_files st) as [Hfiles _].
  by rewrite Hload in Hfiles.
Qed.

End Transcription.

Section Replace.

Implicit Types (s old new pre : pystr).

Lemma startswith_app p r : startswith (p ++ r) p = true.
Proof. induction p as [|c p IH]; simpl; [by destruct r|]. by rewrite N.eqb_refl. Qed.

Lemma startswith_length s p : startswith s p = true -> (length p <= length s)%nat.
Proof.
  revert s. induction p as [|c p IH]; intros [|d s]; simpl; try done; try lia.
  intros [_ H]%andb_true_iff. apply IH in H. lia.
Qed.

Lemma replace_steps_length n old new s :
  (length old <= length new)%nat ->
  (length s <= length (replace_steps n old new s))%nat.
Proof.
  intros Hlen. revert s. induction n as [|n IH]; intros s; simpl; [done|].
  destruct (startswith s old) eqn:Hstart.
  - apply startswith_length in Hstart. rewrite length_app.
    specialize (IH (drop (length old) s)). rewrite length_drop in IH. lia.
  - destruct s as [|c s]; simpl; [done|]. specialize (IH s). lia.
Qed.

(** A text that ends with [old] gets longer when [old] is replaced by
    something longer. *)
Lemma replace_steps_grows n old new pre :
  (0 < length old < length new)%nat ->
  (length (pre ++ old) < n)%nat ->
  (length (pre ++ old) < length (replace_steps n old new (pre ++ old)))%nat.
Proof.
  intros Hlen. revert pre. induction n as [|n IH]; intros pre Hn; [lia|].
  simpl. destruct (startswith (pre ++ old) old) eqn:Hstart.
  - pose proof (startswith_length _ _ Hstart) as Hle.
    pose proof (replace_steps_length n old new (drop (length old) (pre ++ old))
                  ltac:(lia)) as Hrest.
    rewrite length_drop in Hrest. rewrite !length_app in *. lia.
  - destruct pre as [|c pre].
    + rewrite app_nil_l in Hstart.
      rewrite <- (app_nil_r old) in Hstart at 1.
      by rewrite startswith_app in Hstart.
    + simpl. simpl in Hn. specialize (IH pre ltac:(lia)). lia.
Qed.

Lemma detailed_path_differs audio_file :
  replace (u ".txt") (u "_detailed.txt") (transcript_path audio_file)
  ≠ transcript_path audio_file.
Proof.
  intros E. apply (f_equal length) in E. revert E.
  unfold transcript_path, replace.
  change (u "_transcription.txt") with (u "_transcription" ++ u ".txt").
  rewrite !app_assoc.
  set (pre := (u "transcripts/" ++ path_stem audio_file) ++ u "_transcription").
  pose proof (replace_steps_grows (S (length (pre ++ u ".txt"))) (u ".txt")
                (u "_detailed.txt") pre) as H.
  intros E. rewrite E in H. apply (Nat.lt_irrefl (length (pre ++ u ".txt"))).
  apply H; [vm_compute; lia|lia].
Qed.

End Replace.

Section Transcripts.

Variables (W : world) (U : unicode).

Lemma transcribe_audio_ok_loaded audio_file language output_file st t st' :
  transcribe_audio W U audio_file language output_file st = (Ok t, st') ->
  os_path_exists W audio_file = true ∧
  ∃ m st1, _load_whisper_model W st = (Ok m, st1).
Proof.
  intros Hrun. destruct (os_path_exists W audio_file) eqn:Hexists.
  - split; [done|].
    destruct (_load_whisper_model W st) as [[m|e] st1] eqn:Hload; [by eauto|].
    exfalso. revert Hrun. unfold transcribe_audio. rewrite Hexists.
    change (negb true) with false. cbv beta iota.
    unfold mbind, M_bind. cbv beta. by rewrite Hload.
  - by rewrite (transcribe_audio_missing W U _ _ _ _ Hexists) in Hrun.
Qed.

(** X12. After a successful transcription to the default path, the file
    [transcripts/<stem>_transcription.txt] holds the two header lines
    followed by exactly the text returned, also when the detailed listing
    has been written next to it. *)
Theorem transcribe_audio_writes_transcript (audio_file language : pystr)
    (st st' : processor) (t : pystr) :
  transcribe_audio W U audio_file language None st = (Ok t, st') ->
  files st' !! (u "transcripts/" ++ path_stem audio_file ++ u "_transcription.txt")
  = Some (u "Language: " ++ language ++ nl ++ u "Transcription:" ++ nl ++ t).
Proof.
  intros Hrun.
  destruct (transcribe_audio_ok_loaded _ _ _ _ _ _ Hrun)
    as (Hexists & m & st1 & Hload).
  rewrite (transcribe_audio_run W U _ _ _ _ _ _ Hexists Hload) in Hrun.
  fold (transcript_path audio_file). simpl default in Hrun.
  destruct (whisper_transcribe W m audio_file language) as [result|e]; [|done].
  destruct (open_w W (transcript_path audio_file)); [done|].
  destruct (tr_segments result) as [segments|].
  - destruct (open_w W _); [done|]. injection Hrun as <- <-. simpl.
    rewrite lookup_insert_ne by apply detailed_path_differs.
    by rewrite lookup_insert_eq.
  - injection Hrun as <- <-. simpl. by rewrite lookup_insert_eq.
Qed.

(** X13. When the output path given holds no ".txt", the path of the
    detailed listing is the output path itself: after a successful
    transcription with segments, the file holds the detailed listing and
    the transcript written first is lost. *)
Theorem transcribe_audio_overwrites_transcript (audio_file language : pystr)
    (output_file : pystr) (st st' : processor) (t : pystr)
    (m : whisper) (st1 : processor) (result : transcription)
    (segments : list segment) :
  replace (u ".txt") (u "_detailed.txt") output_file = output_file ->
  _load_whisper_model W st = (Ok m, st1) ->
  whisper_transcribe W m audio_file language = Ok result ->
  tr_segments result = Some segments ->
  transcribe_audio W U audio_file language (Some output_file) st = (Ok t, st') ->
  files st' !! output_file
  = Some (u "Language: " ++ language ++ nl
          ++ u "Detailed Transcription with Timestamps:" ++ nl ++ nl
          ++ concat (detailed_line <$> segments)).
Proof.
  intros Hsame Hload Hresult Hsegments Hrun.
  destruct (transcribe_audio_ok_loaded _ _ _ _ _ _ Hrun) as (Hexists & _).
  rewrite (transcribe_audio_run W U _ _ _ _ _ _ Hexists Hload) in Hrun.
  rewrite Hresult, Hsegments in Hrun. simpl default in Hrun.
  rewrite Hsame in Hrun.
  destruct (open_w W output_file); [done|].
  injection Hrun as <- <-. simpl. by rewrite lookup_insert_eq.
Qed.

End Transcripts.

(* ===================================================================== *)
(** * Cleaning *)
(* ===================================================================== *)

Section Cleaning.

Variable U : unicode.
Implicit Types (s text cls : pystr) (c : N).

Lemma elem_of_drop_ws_before cls c s : c ∈ drop_ws_before cls s -> c ∈ s.
Proof.
  induction s as [|d s IH]; simpl; [done|].
  destruct (isspace d && ws_then cls s).
  - intros H. right. by apply IH.
  - intros [->|H]%elem_of_cons; [left|right; by apply IH].
Qed.

Lemma elem_of_one_space_after cls after c s :
  c ∈ one_space_after cls after s -> c ∈ s ∨ c = 0x20%N.
Proof.
  revert after. induction s as [|d s IH]; intros after; simpl; [by left|].
  destruct (bool_decide (d ∈ cls)).
  - intros [->|[->|H]%elem_of_cons]%elem_of_cons; [left; left|by right|].
    destruct (IH _ H); [left; by right|by right].
  - destruct (after && isspace d).
    + intros H. destruct (IH _ H); [left; by right|by right].
    + intros [->|H]%elem_of_cons; [left; left|].
      destruct (IH _ H); [left; by right|by right].
Qed.

Lemma elem_of_List_filter {A} (p : A -> bool) (x : A) (l : list A) :
  x ∈ List.filter p l <-> x ∈ l ∧ p x = true.
Proof. by rewrite !list_elem_of_In, filter_In. Qed.

(** Cleaning brings in no character but the space. *)
Lemma elem_of_clean_text text language c :
  c ∈ _clean_text U text language -> c ∈ text ∨ c = 0x20%N.
Proof.
  unfold _clean_text. intros Hc%elem_of_strip.
  assert (∀ cls keep,
            c ∈ List.filter keep
                  (one_space_after cls false
                     (drop_ws_before cls (collapse_ws (strip text)))) ->
            c ∈ text ∨ c = 0x20%N) as Hstep.
  { intros cls keep [H _]%elem_of_List_filter.
    apply elem_of_one_space_after in H as [H|?]; [|by right].
    apply elem_of_drop_ws_before, elem_of_collapse_ws in H as [H|?]; [|by right].
    left. by apply elem_of_strip. }
  destruct (decide (language = u "ur")); by eapply Hstep.
Qed.

(** X14. The text that [_clean_text] returns is trimmed, and every one of
    its characters belongs to the class the language keeps. *)
Theorem _clean_text_kept (text language : pystr) :
  strip (_clean_text U text language) = _clean_text U text language ∧
  Forall (λ c, (if decide (language = u "ur") then keep_ur U c
                else keep_en U c) = true)
         (_clean_text U text language).
Proof.
  unfold _clean_text. split; [apply strip_idem|].
  apply Forall_forall. intros c Hc%elem_of_strip.
  destruct (decide (language = u "ur"));
    by apply elem_of_List_filter in Hc as [_ ?].
Qed.

Lemma runs_from_chars (p : N -> bool) cur s w c :
  w ∈ runs_from p cur s -> c ∈ w -> c ∈ cur ∨ c ∈ s.
Proof.
  assert (Hemit : ∀ cur, w ∈ emit cur -> c ∈ w -> c ∈ cur).
  { intros [|d cur'] Hw Hc; [by apply elem_of_nil in Hw|].
    apply list_elem_of_singleton in Hw as ->.
    by apply list_elem_of_In, in_rev, list_elem_of_In in Hc. }
  revert cur. induction s as [|d s IH]; intros cur; simpl.
  - intros Hw Hc. left. by apply Hemit.
  - destruct (p d).
    + intros Hw Hc. destruct (IH _ Hw Hc) as [[->|?]%elem_of_cons|?].
      * right. left.
      * by left.
      * right. by right.
    + intros [Hw|Hw]%elem_of_app Hc.
      * left. by apply Hemit.
      * destruct (IH _ Hw Hc) as [?%elem_of_nil|?]; [done|]. right. by right.
Qed.

Lemma cleaned_transcription_ur raw :
  (0x06A9%N ∉ cleaned_transcription U (u "ur") raw) ∧
  (0x06CC%N ∉ cleaned_transcription U (u "ur") raw).
Proof.
  unfold cleaned_transcription. rewrite decide_True by done.
  split; intros [H|?]%elem_of_clean_text; try done; revert H;
    apply normalize_urdu_out; try done.
  - apply fold_variants_no_keheh.
  - apply fold_variants_no_farsi_yeh.
Qed.

End Cleaning.

Section UrduStopWords.

Variables (W : world) (U : unicode).

(** X15. An Urdu transcription holds no KEHEH and no FARSI YEH, since both
    are folded before the text is cleaned; so no word found in it is one
    of the eleven Urdu stop words written with these letters, and the
    key-phrase extractor cannot discard them. *)
Theorem transcribe_audio_ur_stop_words (audio_file : pystr)
    (output_file : option pystr) (st st' : processor) (t : pystr) :
  transcribe_audio W U audio_file (u "ur") output_file st = (Ok t, st') ->
  (0x06A9%N ∉ t) ∧ (0x06CC%N ∉ t) ∧
  (∀ w, w ∈ tokenize U t (u "ur") ->
     w ∉ List.filter has_variant stop_words_ur) ∧
  length (List.filter has_variant stop_words_ur) = 11%nat.
Proof.
  intros Hrun.
  destruct (transcribe_audio_ok_loaded W U _ _ _ _ _ _ Hrun)
    as (Hexists & m & st1 & Hload).
  rewrite (transcribe_audio_run W U _ _ _ _ _ _ Hexists Hload) in Hrun.
  assert (∃ raw, t = cleaned_transcription U (u "ur") raw) as [raw ->].
  { destruct (whisper_transcribe W m audio_file (u "ur")) as [result|e]; [|done].
    destruct (open_w W _); [done|].
    destruct (tr_segments result).
    - destruct (open_w W _); [done|]. injection Hrun as <- _. by eexists.
    - injection Hrun as <- _. by eexists. }
  destruct (cleaned_transcription_ur U raw) as [Hk Hy].
  split_and!; [done|done| |by vm_compute].
  intros w Hw [_ Hvar]%elem_of_List_filter.
  unfold tokenize in Hw. rewrite decide_True in Hw by done.
  unfold findall_ur in Hw. apply elem_of_List_filter in Hw as [Hw _].
  unfold has_variant in Hvar.
  apply orb_true_iff in Hvar as [Hc%bool_decide_eq_true|Hc%bool_decide_eq_true];
    destruct (runs_from_chars _ _ _ _ _ Hw Hc) as [?%elem_of_nil|?]; done.
Qed.

End UrduStopWords.

Section Spacing.

Variable U : unicode.
Implicit Types (s cls : pystr) (c : N).

Lemma spaced_one_space_after cls after s :
  0x20%N ∉ cls -> spaced cls (one_space_after cls after s).
Proof.
  intros Hsp. revert after. induction s as [|c s IH]; intros after; simpl; [done|].
  destruct (bool_decide (c ∈ cls)) eqn:Hc.
  - simpl. split_and!; [by right|done|apply IH].
  - apply bool_decide_eq_false in Hc.
    destruct (after && isspace c); [apply IH|].
    simpl. split; [done|apply IH].
Qed.

Lemma spaced_filter cls (keep : N -> bool) s :
  keep 0x20%N = true -> spaced cls s -> spaced cls (List.filter keep s).
Proof.
  intros Hkeep. induction s as [|c s IH]; [done|].
  intros [Hc Hs]. simpl. destruct (keep c); [|by apply IH].
  simpl. split; [|by apply IH].
  intros Hin. destruct (Hc Hin) as [->|Hhead]; [by left|].
  destruct s as [|d s]; [by left|]. injection Hhead as ->.
  right. simpl. by rewrite Hkeep.
Qed.

Lemma spaced_lstrip cls s : spaced cls s -> spaced cls (lstrip s).
Proof.
  induction s as [|c s IH]; [done|]. intros [Hc Hs]. simpl.
  destruct (isspace c); [by apply IH|done].
Qed.

Lemma rstrip_head s : rstrip s ≠ [] -> head (rstrip s) = head s.
Proof.
  destruct s as [|c s]; [done|]. rewrite rstrip_cons.
  destruct (rstrip s); [|done]. by destruct (isspace c).
Qed.

Lemma spaced_rstrip cls s : spaced cls s -> spaced cls (rstrip s).
Proof.
  induction s as [|c s IH]; [done|]. intros [Hc Hs].
  rewrite rstrip_cons. destruct (rstrip s) as [|d r] eqn:E.
  - destruct (isspace c); simpl; [done|]. split; [by left|done].
  - change (spaced cls (c :: d :: r))
      with ((c ∈ cls -> d :: r = [] ∨ head (d :: r) = Some 0x20%N)
            ∧ spaced cls (d :: r)).
    split; [|by apply IH].
    intros Hin. right. destruct (Hc Hin) as [->|Hhead]; [done|].
    rewrite <- E, rstrip_head; [done|]. by rewrite E.
Qed.

(** X16. In the text that [_clean_text] returns, every sentence
    terminator of the language is the last character or is followed by a
    space. *)
Theorem _clean_text_spaced (text language : pystr) :
  spaced (terminators language) (_clean_text U text language).
Proof.
  unfold _clean_text, strip, terminators.
  apply spaced_rstrip, spaced_lstrip.
  destruct (decide (language = u "ur")).
  - apply spaced_filter; [done|].
    apply spaced_one_space_after. vm_compute (u _).
    rewrite !not_elem_of_cons. split_and!; try done. apply not_elem_of_nil.
  - apply spaced_filter.
    { unfold keep_en. change (isspace 0x20) with true. by rewrite orb_true_r. }
    apply spaced_one_space_after. vm_compute (u _).
    rewrite !not_elem_of_cons. split_and!; try done. apply not_elem_of_nil.
Qed.

End Spacing.

(* ===================================================================== *)
(** * More on the chunker *)
(* ===================================================================== *)

(** X17. A [max_words] of zero makes [chunk_text] raise [ValueError], and
    a negative one makes it return no chunk at all, whatever the text. *)
Theorem chunk_text_nonpositive (text language : pystr) (max_words : Z) :
  max_words <= 0 ->
  chunk_text text language (Some max_words) =
  if max_words =? 0
  then Raise (Exn ValueError (u "range() arg 3 must not be zero"))
  else Ok [].
Proof.
  intros Hm. unfold chunk_text.
  destruct (Z.eqb_spec max_words 0) as [|Hne]; [done|].
  assert (range 0 (len (split text)) max_words = []) as ->; [|done].
  unfold range, range_len.
  destruct (Z.ltb_spec 0 max_words); [lia|].
  replace (Z.to_nat ((0 - len (split text) - max_words - 1) / - max_words))
    with 0%nat; [done|].
  pose proof (len_nonneg (split text)).
  assert ((0 - len (split text) - max_words - 1) / - max_words <= 0); [|lia].
  apply Z.lt_succ_r, Z.div_lt_upper_bound; lia.
Qed.

(* ===================================================================== *)
(** * More on the orchestrator *)
(* ===================================================================== *)

Section Records.

Variables (W : world) (U : unicode).

(** X18. When [audio/<file_name>.mp3] does not exist, the pipeline
    returns the record with the status 'error' and the message
    "Pipeline failed: Audio file not found: audio/<file_name>.mp3", and
    leaves the processor as it was: no model is loaded and no file is
    written. *)
Theorem process_pipeline_missing_audio (file_name language : pystr)
    (st : processor) :
  os_path_exists W (u "audio/" ++ file_name ++ u ".mp3") = false ->
  process_pipeline W U file_name language st =
  (Ok (<[u "error" :=
           VStr (u "Pipeline failed: " ++ u "Audio file not found: "
                 ++ u "audio/" ++ file_name ++ u ".mp3")]>
         (<[u "status" := VStr (u "error")]> ∅)),
   st).
Proof.
  intros Hmissing. erewrite process_pipeline_first_stage;
    [|by apply transcribe_audio_missing]. done.
Qed.

Lemma process_sentences_run text language st :
  process_sentences W text language None st =
  match open_w W (u "analysis/sentences_" ++ language ++ u ".txt") with
  | Some e => (Raise e, st)
  | None =>
    (Ok (_regex_sentence_split text language),
     set_file (u "analysis/sentences_" ++ language ++ u ".txt")
       (u "Language: " ++ language ++ nl
        ++ u "Total sentences: "
        ++ str_int (len (_regex_sentence_split text language)) ++ nl
        ++ concat ((λ '(i, sentence), str_int i ++ u ". " ++ strip sentence ++ nl)
                   <$> enumerate (_regex_sentence_split text language) 1))
       st)
  end.
Proof.
  unfold process_sentences, write_file. unfold_M.
  destruct (decide (language = u "ur")); by destruct (open_w W _).
Qed.

(** X19. A record with the status 'success' has exactly nine fields: the
    transcription, the language asked for, the number of words of the
    transcription, its sentences and their number, its key phrases, the
    summary of the joined sentences, and the path
    [analysis/<file_name>_<language>_summary.txt] of a file that then
    holds the summary and the key phrases. *)
Theorem process_pipeline_success_record (file_name language : pystr)
    (st st' : processor) (results : gmap pystr pyval) :
  process_pipeline W U file_name language st = (Ok results, st') ->
  reports (u "success") results ->
  ∃ t key_phrases summary,
    extract_key_phrases U t language = Ok key_phrases ∧
    results !! u "transcription" = Some (VStr t) ∧
    results !! u "language" = Some (VStr language) ∧
    results !! u "word_count" = Some (VInt (len (split t))) ∧
    results !! u "sentences" = Some (VList (_regex_sentence_split t language)) ∧
    results !! u "sentence_count"
    = Some (VInt (len (_regex_sentence_split t language))) ∧
    results !! u "key_phrases" = Some (VList key_phrases) ∧
    results !! u "summary" = Some (VStr summary) ∧
    results !! u "summary_file"
    = Some (VStr (u "analysis/" ++ file_name ++ u "_" ++ language
                  ++ u "_summary.txt")) ∧
    files st' !! (u "analysis/" ++ file_name ++ u "_" ++ language
                  ++ u "_summary.txt")
    = Some (summary_file_content language summary key_phrases) ∧
    size results = 9%nat.
Proof.
  unfold process_pipeline, stage. intros Hrun Hok.
  assert (Hfail : ∀ completed e, results = pipeline_failed completed e -> False).
  { intros completed e ->.
    destruct (pipeline_failed_reports completed e) as [Herr _].
    unfold reports in Hok, Herr. rewrite Herr in Hok.
    injection Hok. by vm_compute. }
  destruct (transcribe_audio W U _ language None st) as [[t|e] st1];
    [|injection Hrun as <- _; exfalso; eapply Hfail; reflexivity].
  rewrite process_sentences_run in Hrun.
  destruct (open_w W (u "analysis/sentences_" ++ language ++ u ".txt"));
    [injection Hrun as <- _; exfalso; eapply Hfail; reflexivity|].
  unfold lift at 1 in Hrun.
  destruct (extract_key_phrases U t language) as [key_phrases|e] eqn:Hkp;
    [|injection Hrun as <- _; exfalso; eapply Hfail; reflexivity].
  destruct (summarize_text W U _ language None None _) as [[summary|e] st3];
    [|injection Hrun as <- _; exfalso; eapply Hfail; reflexivity].
  unfold write_file in Hrun.
  unfold mbind, M_bind, mret, M_ret, raise, modify in Hrun.
  destruct (open_w W (u "analysis/" ++ file_name ++ u "_" ++ language
                      ++ u "_summary.txt"));
    [injection Hrun as <- _; exfalso; eapply Hfail; reflexivity|].
  injection Hrun as <- <-.
  exists t, key_phrases, summary.
  split_and!; [done|try lookup_key; try done..| |].
  - simpl. by rewrite lookup_insert_eq.
  - rewrite !map_size_insert_None; [by rewrite map_size_empty|..];
      try (lookup_key; fail);
      repeat (rewrite lookup_insert_ne by (vm_compute; congruence));
      apply lookup_empty.
Qed.

(** The loop of [process_batch] uses the name of each file only. *)
Lemma batch_loop_stems language files1 files2 results st :
  path_stem <$> files1 = path_stem <$> files2 ->
  batch_loop W U language files1 results st
  = batch_loop W U language files2 results st.
Proof.
  revert files2 results st. induction files1 as [|f1 files1 IH];
    intros [|f2 files2] results st Hstems; try done.
  rewrite !fmap_cons in Hstems. injection Hstems as Hstem Hrest.
  rewrite !batch_loop_cons, Hstem. by apply IH.
Qed.

(** X20. [process_batch] uses the directory it is given only to list
    names: two directories that list the same names in the same order
    give the same result and leave the same processor, since every audio
    file is then read from the directory [audio]. *)
Theorem process_batch_directory (dir1 dir2 language : pystr) (st : processor) :
  path_stem <$> glob_mp3 W dir1 = path_stem <$> glob_mp3 W dir2 ->
  process_batch W U dir1 language st = process_batch W U dir2 language st.
Proof. intros Hstems. unfold process_batch. by apply batch_loop_stems. Qed.

End Records.

(* ===================================================================== *)
(** * Short texts *)
(* ===================================================================== *)

Section ShortTexts.

Variables (W : world) (U : unicode).
Implicit Types (a b cur s frag text : pystr).

(** A text of at most [max_words] words makes one chunk. *)
Lemma chunk_text_single text language :
  0 < len (split text) <= default_max_words language ->
  chunk_text text language None = Ok [join (u " ") (split text)].
Proof.
  intros [Hpos Hle]. unfold chunk_text.
  pose proof (default_max_words_pos language) as Hm.
  destruct (Z.eqb_spec (default_max_words language) 0); [lia|].
  rewrite chunk_windows by done.
  assert (range_len 0 (len (split text)) (default_max_words language) = 1%nat)
    as ->.
  { unfold range_len. destruct (Z.ltb_spec 0 (default_max_words language)); [|lia].
    rewrite <- (Z.div_unique _ _ 1 (len (split text) - 1)); [done|lia|lia]. }
  unfold groups_of. simpl. rewrite drop_0, take_ge by (unfold len in Hle; lia).
  rewrite bool_decide_eq_false_2; [done|].
  apply strip_join_tokens; [|apply split_tokens].
  intros E. rewrite E in Hpos. unfold len in Hpos. simpl in Hpos. lia.
Qed.

Lemma summarize_text_long_result text language max_length min_length st
    (s : summarizer_t) st1 chunks :
  20 <= len (split text) ->
  _load_summarizer W language st = (Ok s, st1) ->
  chunk_text text language None = Ok chunks ->
  fst (summarize_text W U text language max_length min_length st) =
  Ok (match all_str
              (paragraph W U s language
                 (default (if decide (language = u "ur") then 8 else 150) max_length)
                 (default (if decide (language = u "ur") then 3 else 50) min_length)
               <$> chunks) with
      | Some paragraphs => join (nl ++ nl) paragraphs
      | None => fallback_summary language text
      end).
Proof.
  intros Hlong Hload Hchunks.
  assert (Hwords : bool_decide (strip text = []) = false).
  { apply bool_decide_eq_false. intros E%blank_no_words.
    rewrite E in Hlong. unfold len in Hlong. simpl in Hlong. lia. }
  unfold summarize_text. rewrite Hwords.
  destruct (Z.ltb_spec (len (split text)) 20); [lia|].
  unfold mbind at 1. unfold M_bind at 1. rewrite Hload.
  unfold try_except, mbind, M_bind, lift. rewrite Hchunks.
  destruct (summarize_chunks_paragraphs W U s language
              (match max_length with
               | Some n => n
               | None => if decide (language = u "ur") then 8 else 150
               end)
              (match min_length with
               | Some n => n
               | None => if decide (language = u "ur") then 3 else 50
               end) chunks [] st1) as [st2 ->].
  rewrite app_nil_l. unfold join_objs.
  destruct max_length, min_length; simpl; by destruct (all_str _).
Qed.

(** X21. A processor that holds a summariser summarises a text of 20 to
    [max_words] words (300 for 'ur', 500 otherwise) in one call: what it
    returns is what the model answers for the words of the text joined
    with single spaces, prefixed by "summarize: " for an mT5 model. *)
Theorem summarize_text_single_call (text language : pystr)
    (max_length min_length : option Z) (st : processor) (s : summarizer_t)
    (summary : pystr) :
  summarizer st = Some s ->
  20 <= len (split text) <= default_max_words language ->
  run_summarizer W s
    (if is_mt5 W U s then u "summarize: " ++ join (u " ") (split text)
     else join (u " ") (split text))
    (default (if decide (language = u "ur") then 8 else 150) max_length)
    (default (if decide (language = u "ur") then 3 else 50) min_length)
  = Ok (Str summary) ->
  fst (summarize_text W U text language max_length min_length st) = Ok summary.
Proof.
  intros Hs [Hlong Hle] Hcall.
  rewrite (summarize_text_long_result text language max_length min_length st s st
             [join (u " ") (split text)]); try done.
  - cbn [fmap list_fmap]. unfold paragraph. cbv zeta.
    unfold pystr in *. by rewrite Hcall.
  - by apply _load_summarizer_cached.
  - apply chunk_text_single. lia.
Qed.

(** ** Words of a part of a text *)

Lemma split_from_mono cur1 cur2 s :
  (cur1 ≠ [] -> cur2 ≠ []) ->
  (length (split_from cur1 s) <= length (split_from cur2 s))%nat.
Proof.
  revert cur1 cur2. induction s as [|c s IH]; intros cur1 cur2 Hcur; simpl.
  - destruct cur1 as [|d1 cur1]; simpl; [lia|].
    destruct cur2; [by exfalso; apply Hcur|]. done.
  - destruct (isspace c).
    + destruct cur1 as [|d1 cur1].
      * destruct cur2; simpl; lia.
      * destruct cur2; [by exfalso; apply Hcur|]. done.
    + by apply IH.
Qed.

Lemma split_from_app_l cur a b :
  (length (split_from cur a) <= length (split_from cur (a ++ b)))%nat.
Proof.
  revert cur. induction a as [|c a IH]; intros cur; simpl.
  - destruct cur as [|d cur]; simpl; [lia|].
    pose proof (split_from_nonempty (d :: cur) b ltac:(done)).
    destruct (split_from (d :: cur) b); [done|simpl; lia].
  - destruct (isspace c); [|apply IH].
    destruct cur; simpl; [apply IH|]. specialize (IH []). lia.
Qed.

Lemma split_from_app_r cur a b :
  (length (split_from [] b) <= length (split_from cur (a ++ b)))%nat.
Proof.
  revert cur. induction a as [|c a IH]; intros cur; simpl.
  - by apply split_from_mono.
  - destruct (isspace c); [|apply IH].
    destruct cur; simpl; [apply IH|]. specialize (IH []). lia.
Qed.

(** Each fragment is a part of the text. *)
Lemma re_split_class_parts cls text :
  (∃ post, text = hd [] (re_split_class cls text) ++ post) ∧
  ∀ frag, frag ∈ re_split_class cls text ->
    ∃ pre post, text = pre ++ frag ++ post.
Proof.
  induction text as [|d s [[post0 Hhead] IH]]; simpl.
  - split; [by exists []|].
    intros frag ->%list_elem_of_singleton. by exists [], [].
  - destruct (bool_decide (d ∈ cls)).
    + split; [by eexists|].
      intros frag [->|Hin]%elem_of_cons; [by exists [], (d :: s)|].
      destruct (IH frag Hin) as (pre & post & ->). by exists (d :: pre), post.
    + destruct (re_split_class cls s) as [|p ps]; simpl in *.
      * split; [by exists s|].
        intros frag ->%list_elem_of_singleton. by exists [], s.
      * split; [exists post0; by rewrite Hhead at 1|].
        intros frag [->|Hin]%elem_of_cons.
        -- exists [], post0. simpl. by rewrite Hhead at 1.
        -- destruct (IH frag) as (pre & post & E); [by right|].
           exists (d :: pre), post. simpl. by rewrite E at 1.
Qed.

(** X22. A text of fewer than three words has no sentence:
    [_regex_sentence_split] returns the empty list, in particular on the
    empty text. *)
Theorem few_words_no_sentence (text language : pystr) :
  len (split text) < 3 -> _regex_sentence_split text language = [].
Proof.
  intros Hfew.
  destruct (_regex_sentence_split_shape text language)
    as [[E _]|(x & Hkept & _)]; [done|exfalso].
  assert (x ∈ clean_and_filter (re_split_class (terminators language) text))
    as Hx by (rewrite Hkept; apply elem_of_app; right; left).
  unfold clean_and_filter in Hx.
  apply list_elem_of_In, filter_In in Hx as [Hfrag Hmin].
  apply list_elem_of_In, list_elem_of_fmap in Hfrag as (frag & -> & Hfrag).
  unfold min3 in Hmin. apply andb_true_iff in Hmin as [_ Hlen%Z.leb_le].
  rewrite split_strip in Hlen.
  destruct (re_split_class_parts (terminators language) text) as [_ Hparts].
  destruct (Hparts frag Hfrag) as (pre & post & E).
  pose proof (split_from_app_l [] frag post) as H1.
  pose proof (split_from_app_r [] pre (frag ++ post)) as H2.
  rewrite <- E in H2. unfold split, len in *. lia.
Qed.

End ShortTexts.

(* ===================================================================== *)
(** * Short transcriptions *)
(* ===================================================================== *)

Section ShortTranscriptions.

Variables (W : world) (U : unicode).

Lemma transcribe_audio_summarizer audio_file language output_file st :
  summarizer (snd (transcribe_audio W U audio_file language output_file st))
  = summarizer st.
Proof.
  destruct (os_path_exists W audio_file) eqn:Hexists.
  - destruct (_load_whisper_model_files W st) as [_ Hsum].
    destruct (_load_whisper_model W st) as [[m|e] st1] eqn:Hload.
    + rewrite (transcribe_audio_run W U _ _ _ _ _ _ Hexists Hload).
      simpl in Hsum. rewrite <- Hsum.
      destruct (whisper_transcribe W m audio_file language) as [result|e]; [|done].
      destruct (open_w W _); [done|].
      destruct (tr_segments result); [|done].
      by destruct (open_w W _).
    + unfold transcribe_audio. rewrite Hexists.
      change (negb true) with false. cbv beta iota.
      unfold mbind, M_bind. cbv beta. by rewrite Hload.
  - by rewrite (transcribe_audio_missing W U _ _ _ _ Hexists).
Qed.

(** The stages of a run that ends with success. *)
Lemma process_pipeline_success_run file_name language st st' results :
  process_pipeline W U file_name language st = (Ok results, st') ->
  reports (u "success") results ->
  ∃ t st1 st2 summary st3,
    transcribe_audio W U (u "audio/" ++ file_name ++ u ".mp3") language None st
    = (Ok t, st1) ∧
    process_sentences W t language None st1
    = (Ok (_regex_sentence_split t language), st2) ∧
    summarize_text W U (join (u " ") (_regex_sentence_split t language))
                   language None None st2 = (Ok summary, st3) ∧
    summarizer st2 = summarizer st1 ∧ summarizer st' = summarizer st3 ∧
    results !! u "transcription" = Some (VStr t) ∧
    results !! u "summary" = Some (VStr summary).
Proof.
  unfold process_pipeline, stage. intros Hrun Hok.
  assert (Hfail : ∀ completed e, results = pipeline_failed completed e -> False).
  { intros completed e ->.
    destruct (pipeline_failed_reports completed e) as [Herr _].
    unfold reports in Hok, Herr. rewrite Herr in Hok.
    injection Hok. by vm_compute. }
  destruct (transcribe_audio W U _ language None st) as [[t|e] st1];
    [|injection Hrun as <- _; exfalso; eapply Hfail; reflexivity].
  rewrite process_sentences_run in Hrun.
  destruct (open_w W (u "analysis/sentences_" ++ language ++ u ".txt")) eqn:Hopen;
    [injection Hrun as <- _; exfalso; eapply Hfail; reflexivity|].
  unfold lift at 1 in Hrun.
  destruct (extract_key_phrases U t language) as [key_phrases|e];
    [|injection Hrun as <- _; exfalso; eapply Hfail; reflexivity].
  destruct (summarize_text W U _ language None None _) as [[summary|e] st3] eqn:Hsum;
    [|injection Hrun as <- _; exfalso; eapply Hfail; reflexivity].
  unfold write_file in Hrun.
  unfold mbind, M_bind, mret, M_ret, raise, modify in Hrun.
  destruct (open_w W (u "analysis/" ++ file_name ++ u "_" ++ language
                      ++ u "_summary.txt"));
    [injection Hrun as <- _; exfalso; eapply Hfail; reflexivity|].
  injection Hrun as <- <-.
  eexists t, st1, _, summary, st3.
  split_and!; [done| |exact Hsum|done|done|lookup_key; done|lookup_key; done].
  by rewrite process_sentences_run, Hopen.
Qed.

(** X23. When the sentences kept from the transcription have fewer than
    20 words in all, a successful run records as summary the fixed
    notice of [summarize_text] (the empty-input one when no sentence was
    kept, the short-text one otherwise), and the processor holds the
    same summariser as before: none is loaded for such a file. *)
Theorem process_pipeline_short_transcription (file_name language : pystr)
    (st st' : processor) (results : gmap pystr pyval) (t : pystr) :
  process_pipeline W U file_name language st = (Ok results, st') ->
  reports (u "success") results ->
  results !! u "transcription" = Some (VStr t) ->
  len (split (join (u " ") (_regex_sentence_split t language))) < 20 ->
  results !! u "summary"
  = Some (VStr (if bool_decide
                     (strip (join (u " ") (_regex_sentence_split t language)) = [])
                then EMPTY_INPUT else TOO_SHORT)) ∧
  summarizer st' = summarizer st.
Proof.
  intros Hrun Hok Ht Hshort.
  destruct (process_pipeline_success_run _ _ _ _ _ Hrun Hok)
    as (t' & st1 & st2 & summary & st3 & Htr & _ & Hsum & H12 & H3 & Ht' & Hsummary).
  rewrite Ht in Ht'. injection Ht' as <-.
  pose proof (transcribe_audio_summarizer
                (u "audio/" ++ file_name ++ u ".mp3") language None st) as H01.
  rewrite Htr in H01. simpl in H01.
  assert (summarizer st3 = summarizer st2 ∧
          summary = if bool_decide
                         (strip (join (u " ") (_regex_sentence_split t language)) = [])
                    then EMPTY_INPUT else TOO_SHORT) as [H23 Hsummary'].
  { revert Hsum. unfold summarize_text. unfold mret, M_ret.
    destruct (bool_decide _).
    - intros E. apply (f_equal snd) in E as E2. apply (f_equal fst) in E.
      simpl in E, E2. subst st3. split; [done|]. by injection E.
    - destruct (Z.ltb_spec (len (split (join (u " ") (_regex_sentence_split t language)))) 20);
        [|lia].
      intros E. apply (f_equal snd) in E as E2. apply (f_equal fst) in E.
      simpl in E, E2. subst st3. split; [done|]. by injection E. }
  split; [by rewrite <- Hsummary'|].
  rewrite H3, H23, H12. exact H01.
Qed.

End ShortTranscriptions.

(* ===================================================================== *)
(** * Instances *)
(* ===================================================================== *)

Lemma sentences_have_three_words_witness :
  u "Hello big world!"
  ∈ _regex_sentence_split (u "Hello big world! Ok. This is fine") (u "en") ∧
  3 <= len (split (u "Hello big world!")).
Proof.
  assert (H : u "Hello big world!"
              ∈ _regex_sentence_split (u "Hello big world! Ok. This is fine")
                  (u "en")) by (vm_compute; left).
  split; [exact H|].
  exact (sentences_have_three_words _ _ _ H).
Defined.

Lemma sentences_terminators_witness :
  _regex_sentence_split (u "Hello big world! Ok. This is fine") (u "en") !! 0%nat
  = Some (u "Hello big world!") ∧
  ∃ body,
    (∀ c, c ∈ body -> c ∉ terminators (u "en")) ∧
    if decide (1%nat = length (_regex_sentence_split
                                 (u "Hello big world! Ok. This is fine") (u "en")))
    then u "Hello big world!" = body
    else ∃ c, c ∈ terminators (u "en") ∧ u "Hello big world!" = body ++ [c].
Proof.
  assert (H : _regex_sentence_split (u "Hello big world! Ok. This is fine")
                (u "en") !! 0%nat = Some (u "Hello big world!"))
    by (vm_compute; reflexivity).
  split; [exact H|].
  exact (sentences_terminators _ _ _ _ H).
Defined.

Lemma extract_key_phrases_most_frequent_witness :
  stop_words (u "en") = Some stop_words_en ∧
  extract_key_phrases Ucd.tables (u "cat dog cat the emu") (u "en")
  = Ok [u "cat"; u "dog"; u "emu"] ∧
  u "dog" ∈ tokenize Ucd.tables (u "cat dog cat the emu") (u "en") ∧
  (u "dog" ∉ stop_words_en) ∧ 2 < len (u "dog") ∧
  (u "dog" ∈ [u "cat"; u "dog"; u "emu"] ∨
   (length [u "cat"; u "dog"; u "emu"] = 10%nat ∧
    ∀ p, p ∈ [u "cat"; u "dog"; u "emu"] ->
      occurrences (u "dog") (tokenize Ucd.tables (u "cat dog cat the emu") (u "en"))
      <= occurrences p (tokenize Ucd.tables (u "cat dog cat the emu") (u "en")))).
Proof.
  assert (H1 : stop_words (u "en") = Some stop_words_en) by reflexivity.
  assert (H2 : extract_key_phrases Ucd.tables (u "cat dog cat the emu") (u "en")
               = Ok [u "cat"; u "dog"; u "emu"]) by (vm_compute; reflexivity).
  assert (H3 : u "dog" ∈ tokenize Ucd.tables (u "cat dog cat the emu") (u "en"))
    by (vm_compute; right; left).
  assert (H4 : u "dog" ∉ stop_words_en).
  { apply (bool_decide_eq_false_1 (u "dog" ∈ stop_words_en)).
    vm_compute. reflexivity. }
  assert (H5 : 2 < len (u "dog")) by (vm_compute; reflexivity).
  split_and!; [exact H1|exact H2|exact H3|exact H4|exact H5|].
  exact (extract_key_phrases_most_frequent Ucd.tables _ _ _ _ _ H1 H2 H3 H4 H5).
Defined.

Lemma extract_key_phrases_words_witness :
  (u "ur" = u "ur" ∨ u "ur" = u "en") ∧
  extract_key_phrases Ucd.tables (u "امتحان کتاب امتحان") (u "ur")
  = Ok [u "امتحان"; u "کتاب"] ∧
  NoDup [u "امتحان"; u "کتاب"].
Proof.
  assert (H1 : u "ur" = u "ur" ∨ u "ur" = u "en") by (by left).
  assert (H2 : extract_key_phrases Ucd.tables (u "امتحان کتاب امتحان") (u "ur")
               = Ok [u "امتحان"; u "کتاب"]) by (vm_compute; reflexivity).
  split_and!; [exact H1|exact H2|].
  exact (proj1 (extract_key_phrases_words Ucd.tables _ _ _ H1 H2)).
Defined.

Lemma detect_language_counts_only_witness :
  u "ab1 یہ" ≡ₚ u "یہ 1ba" ∧
  detect_language (u "ab1 یہ") = detect_language (u "یہ 1ba").
Proof.
  assert (H : u "ab1 یہ" ≡ₚ u "یہ 1ba").
  { vm_compute.
    etransitivity; [apply (Permutation_app_comm [97; 98; 49; 32]%N [1740; 1729]%N)|].
    simpl. do 2 apply Permutation_skip.
    etransitivity; [apply (Permutation_app_comm [97; 98; 49]%N [32]%N)|].
    simpl. apply Permutation_skip.
    etransitivity; [apply (Permutation_app_comm [97; 98]%N [49]%N)|].
    simpl. apply Permutation_skip. apply Permutation_swap. }
  split; [exact H|].
  exact (proj1 (detect_language_counts_only _ _ H)).
Defined.

Lemma detect_language_concat_witness :
  detect_language (u "یہ کتاب ok") = detect_language (u "ہے") ∧
  detect_language (u "یہ کتاب ok" ++ u "ہے") = detect_language (u "یہ کتاب ok").
Proof.
  assert (H : detect_language (u "یہ کتاب ok") = detect_language (u "ہے"))
    by (vm_compute; reflexivity).
  split; [exact H|].
  exact (proj1 (detect_language_concat _ _ H)).
Defined.

Lemma _load_summarizer_outcomes_witness :
  summarizer Scenario.fresh = None ∧
  fst (_load_summarizer Cases.no_mt5 (u "ur") Scenario.fresh)
  = Ok (Pipeline BART None 0).
Proof.
  assert (H : summarizer Scenario.fresh = None) by reflexivity.
  split; [exact H|].
  destruct (_load_summarizer_outcomes Cases.no_mt5 (u "ur") Scenario.fresh H)
    as [Hrun _].
  rewrite Hrun. vm_compute. reflexivity.
Defined.

Lemma summarize_text_calls_witness :
  summarizer Cases.warm = Some (Pipeline MT5 (Some MT5) (-1)) ∧
  20 <= len (split Scenario.speech_ur) ∧
  ∃ chunks,
    chunk_text Scenario.speech_ur (u "ur") None = Ok chunks ∧
    calls (snd (summarize_text Scenario.online Ucd.tables Scenario.speech_ur
                  (u "ur") None None Cases.warm))
    = calls Cases.warm ++
      ((λ chunk,
          Summarize (Pipeline MT5 (Some MT5) (-1))
            (if is_mt5 Scenario.online Ucd.tables (Pipeline MT5 (Some MT5) (-1))
             then u "summarize: " ++ chunk else chunk)
            (default (if decide (u "ur" = u "ur") then 8 else 150) None)
            (default (if decide (u "ur" = u "ur") then 3 else 50) None))
       <$> chunks).
Proof.
  assert (H1 : summarizer Cases.warm = Some (Pipeline MT5 (Some MT5) (-1)))
    by reflexivity.
  assert (H2 : 20 <= len (split Scenario.speech_ur)) by (vm_compute; congruence).
  split_and!; [exact H1|exact H2|].
  exact (summarize_text_calls Scenario.online Ucd.tables Scenario.speech_ur
           (u "ur") None None Cases.warm _ H1 H2).
Defined.

Lemma transcribe_audio_reuses_model_witness :
  whisper_model Cases.warm = Some (Whisper (u "medium")) ∧
  os_path_exists Scenario.online (u "audio/a.mp3") = true ∧
  calls (snd (transcribe_audio Scenario.online Ucd.tables (u "audio/a.mp3")
                (u "en") None Cases.warm))
  = calls Cases.warm ++ [Transcribe (u "audio/a.mp3") (u "en")].
Proof.
  assert (H1 : whisper_model Cases.warm = Some (Whisper (u "medium")))
    by reflexivity.
  assert (H2 : os_path_exists Scenario.online (u "audio/a.mp3") = true)
    by (vm_compute; reflexivity).
  split_and!; [exact H1|exact H2|].
  exact (proj1 (transcribe_audio_reuses_model Scenario.online Ucd.tables
                  (u "audio/a.mp3") (u "en") None Cases.warm _ H1 H2)).
Defined.

Lemma transcribe_audio_reraises_witness :
  os_path_exists Cases.whisper_fails (u "audio/a.mp3") = true ∧
  _load_whisper_model Cases.whisper_fails Cases.warm
  = (Ok (Whisper (u "medium")), Cases.warm) ∧
  whisper_transcribe Cases.whisper_fails (Whisper (u "medium"))
    (u "audio/a.mp3") (u "en")
  = Raise (Exn RuntimeError (u "cannot decode")) ∧
  fst (transcribe_audio Cases.whisper_fails Ucd.tables (u "audio/a.mp3")
         (u "en") None Cases.warm)
  = Raise (Exn RuntimeError (u "cannot decode")).
Proof.
  assert (H1 : os_path_exists Cases.whisper_fails (u "audio/a.mp3") = true)
    by (vm_compute; reflexivity).
  assert (H2 : _load_whisper_model Cases.whisper_fails Cases.warm
               = (Ok (Whisper (u "medium")), Cases.warm)) by reflexivity.
  assert (H3 : whisper_transcribe Cases.whisper_fails (Whisper (u "medium"))
                 (u "audio/a.mp3") (u "en")
               = Raise (Exn RuntimeError (u "cannot decode"))) by reflexivity.
  split_and!; [exact H1|exact H2|exact H3|].
  exact (proj1 (transcribe_audio_reraises Cases.whisper_fails Ucd.tables
                  (u "audio/a.mp3") (u "en") None Cases.warm Cases.warm _ _
                  H1 H2 H3)).
Defined.

Lemma chunk_text_nonpositive_witness :
  -3 <= 0 ∧ chunk_text (u "one two three four") (u "en") (Some (-3)) = Ok [].
Proof.
  assert (H : -3 <= 0) by lia.
  split; [exact H|].
  exact (chunk_text_nonpositive (u "one two three four") (u "en") (-3) H).
Defined.

Lemma process_pipeline_missing_audio_witness :
  os_path_exists Scenario.online (u "audio/" ++ u "b" ++ u ".mp3") = false ∧
  fst (process_pipeline Scenario.online Ucd.tables (u "b") (u "en") Scenario.fresh)
  = Ok (<[u "error" :=
            VStr (u "Pipeline failed: Audio file not found: audio/b.mp3")]>
          (<[u "status" := VStr (u "error")]> ∅)).
Proof.
  assert (H : os_path_exists Scenario.online (u "audio/" ++ u "b" ++ u ".mp3")
              = false) by (vm_compute; reflexivity).
  split; [exact H|].
  rewrite (process_pipeline_missing_audio Scenario.online Ucd.tables (u "b")
             (u "en") Scenario.fresh H).
  reflexivity.
Defined.

Lemma process_batch_directory_witness :
  path_stem <$> glob_mp3 Cases.mirror (u "incoming")
  = path_stem <$> glob_mp3 Cases.mirror (u "audio") ∧
  process_batch Cases.mirror Ucd.tables (u "incoming") (u "en") Scenario.fresh
  = process_batch Cases.mirror Ucd.tables (u "audio") (u "en") Scenario.fresh.
Proof.
  assert (H : path_stem <$> glob_mp3 Cases.mirror (u "incoming")
              = path_stem <$> glob_mp3 Cases.mirror (u "audio"))
    by (vm_compute; reflexivity).
  split; [exact H|].
  exact (process_batch_directory Cases.mirror Ucd.tables (u "incoming")
           (u "audio") (u "en") Scenario.fresh H).
Defined.

Lemma transcribe_audio_writes_transcript_witness :
  transcribe_audio Cases.urdu_speech Ucd.tables (u "audio/a.mp3") (u "ur") None
    Scenario.fresh
  = (Ok (cleaned_transcription Ucd.tables (u "ur") Scenario.speech_ur),
     snd (transcribe_audio Cases.urdu_speech Ucd.tables (u "audio/a.mp3")
            (u "ur") None Scenario.fresh)) ∧
  files (snd (transcribe_audio Cases.urdu_speech Ucd.tables (u "audio/a.mp3")
                (u "ur") None Scenario.fresh))
  !! (u "transcripts/" ++ path_stem (u "audio/a.mp3") ++ u "_transcription.txt")
  = Some (u "Language: " ++ u "ur" ++ nl ++ u "Transcription:" ++ nl
          ++ cleaned_transcription Ucd.tables (u "ur") Scenario.speech_ur).
Proof.
  assert (H : transcribe_audio Cases.urdu_speech Ucd.tables (u "audio/a.mp3")
                (u "ur") None Scenario.fresh
              = (Ok (cleaned_transcription Ucd.tables (u "ur") Scenario.speech_ur),
                 snd (transcribe_audio Cases.urdu_speech Ucd.tables
                        (u "audio/a.mp3") (u "ur") None Scenario.fresh)))
    by (vm_compute; reflexivity).
  split; [exact H|].
  exact (transcribe_audio_writes_transcript Cases.urdu_speech Ucd.tables
           (u "audio/a.mp3") (u "ur") Scenario.fresh _ _ H).
Defined.

Lemma transcribe_audio_overwrites_transcript_witness :
  replace (u ".txt") (u "_detailed.txt") (u "out.text") = u "out.text" ∧
  tr_segments
    (Transcription Scenario.speech_ur
       (Some [Segment (u "0.00") (u "2.50") (u "یہ کتاب");
              Segment (u "2.50") (u "4.00") (u "بہت اچھی ہے")]))
  = Some [Segment (u "0.00") (u "2.50") (u "یہ کتاب");
          Segment (u "2.50") (u "4.00") (u "بہت اچھی ہے")] ∧
  files (snd (transcribe_audio Cases.urdu_speech Ucd.tables (u "audio/a.mp3")
                (u "ur") (Some (u "out.text")) Cases.warm))
  !! u "out.text"
  = Some (u "Language: " ++ u "ur" ++ nl
          ++ u "Detailed Transcription with Timestamps:" ++ nl ++ nl
          ++ concat (detailed_line
                     <$> [Segment (u "0.00") (u "2.50") (u "یہ کتاب");
                          Segment (u "2.50") (u "4.00") (u "بہت اچھی ہے")])).
Proof.
  assert (H1 : replace (u ".txt") (u "_detailed.txt") (u "out.text")
               = u "out.text") by (vm_compute; reflexivity).
  assert (H2 : _load_whisper_model Cases.urdu_speech Cases.warm
               = (Ok (Whisper (u "medium")), Cases.warm)) by reflexivity.
  assert (H3 : whisper_transcribe Cases.urdu_speech (Whisper (u "medium"))
                 (u "audio/a.mp3") (u "ur")
               = Ok (Transcription Scenario.speech_ur
                       (Some [Segment (u "0.00") (u "2.50") (u "یہ کتاب");
                              Segment (u "2.50") (u "4.00") (u "بہت اچھی ہے")])))
    by reflexivity.
  assert (H5 : transcribe_audio Cases.urdu_speech Ucd.tables (u "audio/a.mp3")
                 (u "ur") (Some (u "out.text")) Cases.warm
               = (Ok (cleaned_transcription Ucd.tables (u "ur") Scenario.speech_ur),
                  snd (transcribe_audio Cases.urdu_speech Ucd.tables
                         (u "audio/a.mp3") (u "ur") (Some (u "out.text"))
                         Cases.warm)))
    by (vm_compute; reflexivity).
  split_and!; [exact H1|reflexivity|].
  exact (transcribe_audio_overwrites_transcript Cases.urdu_speech Ucd.tables
           (u "audio/a.mp3") (u "ur") (u "out.text") Cases.warm _ _ _ _ _ _
           H1 H2 H3 eq_refl H5).
Defined.

Lemma transcribe_audio_ur_stop_words_witness :
  transcribe_audio Cases.urdu_speech Ucd.tables (u "audio/a.mp3") (u "ur") None
    Scenario.fresh
  = (Ok (cleaned_transcription Ucd.tables (u "ur") Scenario.speech_ur),
     snd (transcribe_audio Cases.urdu_speech Ucd.tables (u "audio/a.mp3")
            (u "ur") None Scenario.fresh)) ∧
  (0x06A9%N ∉ cleaned_transcription Ucd.tables (u "ur") Scenario.speech_ur).
Proof.
  assert (H : transcribe_audio Cases.urdu_speech Ucd.tables (u "audio/a.mp3")
                (u "ur") None Scenario.fresh
              = (Ok (cleaned_transcription Ucd.tables (u "ur") Scenario.speech_ur),
                 snd (transcribe_audio Cases.urdu_speech Ucd.tables
                        (u "audio/a.mp3") (u "ur") None Scenario.fresh)))
    by (vm_compute; reflexivity).
  split; [exact H|].
  exact (proj1 (transcribe_audio_ur_stop_words Cases.urdu_speech Ucd.tables
                  (u "audio/a.mp3") None Scenario.fresh _ _ H)).
Defined.

Lemma process_pipeline_success_record_witness :
  process_pipeline Scenario.online Ucd.tables (u "a") (u "en") Scenario.fresh
  = (Ok (match fst (process_pipeline Scenario.online Ucd.tables (u "a") (u "en")
                      Scenario.fresh) with
         | Ok results => results
         | Raise _ => ∅
         end),
     snd (process_pipeline Scenario.online Ucd.tables (u "a") (u "en")
            Scenario.fresh)) ∧
  reports (u "success")
    (match fst (process_pipeline Scenario.online Ucd.tables (u "a") (u "en")
                  Scenario.fresh) with
     | Ok results => results
     | Raise _ => ∅
     end) ∧
  size (match fst (process_pipeline Scenario.online Ucd.tables (u "a") (u "en")
                     Scenario.fresh) with
        | Ok results => results
        | Raise _ => ∅
        end) = 9%nat.
Proof.
  set (run := process_pipeline Scenario.online Ucd.tables (u "a") (u "en")
                Scenario.fresh).
  set (results := match fst run with Ok results => results | Raise _ => ∅ end).
  assert (H1 : run = (Ok results, snd run)) by (vm_compute; reflexivity).
  assert (H2 : reports (u "success") results) by (vm_compute; reflexivity).
  split_and!; [exact H1|exact H2|].
  pose proof (process_pipeline_success_record Scenario.online Ucd.tables (u "a")
                (u "en") Scenario.fresh (snd run) results H1 H2) as H.
  clearbody results run.
  destruct H as (t & key_phrases & summary & H). apply H.
Defined.

Lemma summarize_text_single_call_witness :
  summarizer Cases.warm = Some (Pipeline MT5 (Some MT5) (-1)) ∧
  20 <= len (split Scenario.speech_ur) <= default_max_words (u "ur") ∧
  fst (summarize_text Scenario.online Ucd.tables Scenario.speech_ur (u "ur")
         None None Cases.warm)
  = Ok (u "A summary.").
Proof.
  assert (H1 : summarizer Cases.warm = Some (Pipeline MT5 (Some MT5) (-1)))
    by reflexivity.
  assert (H2 : 20 <= len (split Scenario.speech_ur) <= default_max_words (u "ur"))
    by (vm_compute; split; congruence).
  split; [exact H1|]. split; [exact H2|].
  exact (summarize_text_single_call Scenario.online Ucd.tables
           Scenario.speech_ur (u "ur") None None Cases.warm _ (u "A summary.")
           H1 H2 eq_refl).
Defined.

Lemma few_words_no_sentence_witness :
  len (split (u "Thank you.")) < 3 ∧
  _regex_sentence_split (u "Thank you.") (u "en") = [].
Proof.
  assert (H : len (split (u "Thank you.")) < 3) by (vm_compute; reflexivity).
  split; [exact H|].
  exact (few_words_no_sentence (u "Thank you.") (u "en") H).
Defined.

Lemma process_pipeline_short_transcription_witness :
  len (split (join (u " ")
                (_regex_sentence_split (u "Only five words are here.") (u "en"))))
  < 20 ∧
  match fst (process_pipeline Cases.brief Ucd.tables (u "a") (u "en")
               Scenario.fresh) with
  | Ok results => results
  | Raise _ => ∅
  end !! u "summary" = Some (VStr TOO_SHORT).
Proof.
  set (run := process_pipeline Cases.brief Ucd.tables (u "a") (u "en")
                Scenario.fresh).
  set (results := match fst run with Ok results => results | Raise _ => ∅ end).
  assert (H1 : run = (Ok results, snd run)) by (vm_compute; reflexivity).
  assert (H2 : reports (u "success") results) by (vm_compute; reflexivity).
  assert (H3 : results !! u "transcription"
               = Some (VStr (u "Only five words are here.")))
    by (vm_compute; reflexivity).
  assert (H4 : len (split (join (u " ")
                 (_regex_sentence_split (u "Only five words are here.") (u "en"))))
               < 20) by (vm_compute; reflexivity).
  split; [exact H4|].
  destruct (process_pipeline_short_transcription Cases.brief Ucd.tables (u "a")
              (u "en") Scenario.fresh (snd run) results _ H1 H2 H3 H4) as [H _].
  rewrite H. vm_compute. reflexivity.
Defined.
